(** * Mental-health dataset creator: scrubbing, segmentation, storage, comparison

    A shallow embedding of [app.py].  Python [str] values are sequences of
    Unicode code points; they are modelled as lists of [N].  The library
    routines the script calls ([str.strip], [str.split], [str.lower], the
    [in] operator, [re.sub], [json.dumps], [json.loads], [readlines]) are
    modelled next to the script's own functions, which keep their names.

    Scope of the model:
    - the Unicode tables behind [\d], [\w], [\b] and [str.lower] are written
      out for ASCII and are a parameter beyond it ([UnicodeData]);
    - regular expressions are the fragment the four rules use: sequences of
      greedy repetitions of one character class, and [\b];
    - the two dataset directories are finite maps from the names of their
      entries to the texts of the files (POSIX paths, regular files of text
      only); a file name that is a path is followed inside its directory,
      and what lies outside the two directories is not described; whether
      the system carries out the creation of an entry (length of the name,
      permissions, room) is a parameter ([OS]);
    - the UTF-8 codec is modelled on its own, next to [extract_text];
    - the interpreter's resource limits (recursion depth, the digit limit of
      [int]) are not modelled; a float is kept as its lexeme, and the text
      [float.__repr__] prints for it is a parameter of the encoder;
    - the two extraction libraries behind [extract_text] are parameters;
    - of the calls that draw the page only the evaluation of their
      arguments is modelled, for the errors it can raise. *)

From Stdlib Require Import NArith ZArith List Bool Ascii String Lia Sorted.
From Stdlib Require Import DecimalString.
From stdpp Require Import gmap.
Import ListNotations.

Local Open Scope N_scope.

(** ** Text *)

Definition text := list N.

(** [str "abc"] is the text whose code points are the bytes of the literal;
    it is used for ASCII literals only. *)
Definition str (s : string) : text :=
  List.map N_of_ascii (list_ascii_of_string s).

Fixpoint text_eqb (a b : text) : bool :=
  match a, b with
  | [], [] => true
  | x :: a', y :: b' => (x =? y) && text_eqb a' b'
  | _, _ => false
  end.

Definition is_ascii (c : N) : bool := c <? 0x80.

(** Exceptions the modelled fragment can raise. *)
Inductive exn : Set :=
| IndexError
| KeyError
| TypeError
| AttributeError
| JSONDecodeError
| FileNotFoundError
| NotADirectoryError
| ValueError
| OSError
| OutOfFuel.

Inductive result (A : Type) : Type :=
| Ok (a : A)
| Raise (e : exn).
Arguments Ok {A} a.
Arguments Raise {A} e.

Definition bind {A B} (m : result A) (k : A -> result B) : result B :=
  match m with
  | Ok a => k a
  | Raise e => Raise e
  end.

Notation "'do' x <- m ; k" := (bind m (fun x => k))
  (at level 10, x name, m at level 100, k at level 200).

Fixpoint mapM {A B} (f : A -> result B) (l : list A) : result (list B) :=
  match l with
  | [] => Ok []
  | x :: l' => do y <- f x; do ys <- mapM f l'; Ok (y :: ys)
  end.

(** ** Python string primitives *)

(** [str.isspace] on one code point (the interpreter's whitespace table);
    the regex class [\s] on [str] patterns uses the same table. *)
Definition py_isspace (c : N) : bool :=
  ((0x09 <=? c) && (c <=? 0x0D)) || ((0x1C <=? c) && (c <=? 0x20))
  || (c =? 0x85) || (c =? 0xA0) || (c =? 0x1680)
  || ((0x2000 <=? c) && (c <=? 0x200A))
  || (c =? 0x2028) || (c =? 0x2029) || (c =? 0x202F) || (c =? 0x205F)
  || (c =? 0x3000).

Fixpoint lstrip (s : text) : text :=
  match s with
  | c :: s' => if py_isspace c then lstrip s' else s
  | [] => []
  end.

Definition rstrip (s : text) : text := rev (lstrip (rev s)).

(** [s.strip()] *)
Definition strip (s : text) : text := rstrip (lstrip s).

(** [s.split(sep)] for a one-character separator: never the empty list. *)
Fixpoint split_on (sep : N) (s : text) : list text :=
  match s with
  | [] => [[]]
  | c :: s' =>
      if c =? sep then [] :: split_on sep s'
      else match split_on sep s' with
           | l :: ls => (c :: l) :: ls
           | [] => [[c]]
           end
  end.

Definition newline : N := 10.

(** [range(start, stop, step)] for a positive step. *)
Definition py_range (start stop step : Z) : list Z :=
  let n := if (stop <=? start)%Z then 0%Z else ((stop - start - 1) / step + 1)%Z in
  List.map (fun k => (start + step * Z.of_nat k)%Z) (seq 0 (Z.to_nat n)).

(** [l[i]]: negative indices count from the end, out of range raises. *)
Definition getitem {A} (l : list A) (i : Z) : result A :=
  let len := Z.of_nat (List.length l) in
  let j := if (i <? 0)%Z then (i + len)%Z else i in
  if (j <? 0)%Z then Raise IndexError
  else match nth_error l (Z.to_nat j) with
       | Some x => Ok x
       | None => Raise IndexError
       end.

(** ** Records *)

Record Record_ : Set := mkRecord {
  prompt : text;
  response : text;
  tag : text
}.

(** ** Segmenter ([segment_into_pairs], lines 39-44) *)

Definition paragraphs_of (t : text) : list text :=
  List.map strip
    (List.filter (fun p => negb (text_eqb (strip p) [])) (split_on newline t)).

Fixpoint segment_loop (paragraphs : list text) (tg : text) (idxs : list Z)
    (dataset : list Record_) : result (list Record_) :=
  match idxs with
  | [] => Ok dataset
  | i :: rest =>
      do p <- getitem paragraphs i;
      do r <- getitem paragraphs (i + 1)%Z;
      segment_loop paragraphs tg rest (dataset ++ [mkRecord p r tg])
  end.

Definition segment_into_pairs (t tg : text) : result (list Record_) :=
  let paragraphs := paragraphs_of t in
  segment_loop paragraphs tg
    (py_range 0 (Z.of_nat (List.length paragraphs) - 1) 2) [].

(** The specification's reading of the segmenter: consecutive pairing of a
    list of lines, an unpaired last line being dropped. *)
Fixpoint pair_up (tg : text) (ls : list text) : list Record_ :=
  match ls with
  | p :: r :: rest => mkRecord p r tg :: pair_up tg rest
  | _ => []
  end.

(** The lines the specification keeps: those not empty after trimming. *)
Definition kept_lines (t : text) : list text :=
  List.filter (fun p => negb (text_eqb (strip p) [])) (split_on newline t).

(** Segmentation as the specification words it: the kept lines themselves
    are paired. *)
Definition segment_spec (t tg : text) : list Record_ :=
  pair_up tg (kept_lines t).

(** ** Unicode tables

    [\d], [\w], [\b] on [str] patterns and [str.lower] consult the
    interpreter's Unicode database.  Its ASCII part is written out; the rest
    is a parameter of the development, consulted only beyond ASCII. *)

Record UnicodeData : Type := mkUnicodeData {
  ud_isdecimal : N -> bool;  (* [str.isdecimal], code points from 0x80 on *)
  ud_isalnum : N -> bool;    (* [str.isalnum], code points from 0x80 on *)
  ud_lower : text -> text    (* [str.lower], texts with such a code point *)
}.

(** A database with nothing beyond ASCII, for evaluating examples. *)
Definition ascii_only : UnicodeData :=
  mkUnicodeData (fun _ => false) (fun _ => false) (fun t => t).

Definition ascii_isdigit (c : N) : bool := (0x30 <=? c) && (c <=? 0x39).
Definition ascii_isupper (c : N) : bool := (0x41 <=? c) && (c <=? 0x5A).
Definition ascii_islower (c : N) : bool := (0x61 <=? c) && (c <=? 0x7A).
Definition ascii_lower (c : N) : N := if ascii_isupper c then c + 32 else c.

Section Scrubber.

Context (U : UnicodeData).

Definition uni_isdecimal (c : N) : bool :=
  if is_ascii c then ascii_isdigit c else ud_isdecimal U c.

(** [\w]: alphanumeric or underscore. *)
Definition uni_isword (c : N) : bool :=
  if is_ascii c
  then ascii_isdigit c || ascii_isupper c || ascii_islower c || (c =? 0x5F)
  else ud_isalnum U c.

(** [s.lower()] *)
Definition lower (s : text) : text :=
  if forallb is_ascii s then List.map ascii_lower s else ud_lower U s.

(** *** The regular-expression fragment of the four rules

    Every pattern of [scrub_text] is a sequence of greedy repetitions of one
    character class, with [\b] assertions in between. *)

Inductive citem : Set :=
| CChar (c : N)          (* a literal character *)
| CRange (lo hi : N)     (* [lo-hi] *)
| CDigit                 (* \d *)
| CWord                  (* \w *)
| CSpace.                (* \s *)

(** A class is the union of its items. *)
Definition cclass := list citem.

Inductive item : Set :=
| Boundary                                        (* \b *)
| Rep (cls : cclass) (lo : nat) (hi : option nat). (* cls{lo,hi}, greedy *)

Definition regex := list item.

Definition citem_mem (i : citem) (c : N) : bool :=
  match i with
  | CChar d => c =? d
  | CRange lo hi => (lo <=? c) && (c <=? hi)
  | CDigit => uni_isdecimal c
  | CWord => uni_isword c
  | CSpace => py_isspace c
  end.

Definition class_mem (cls : cclass) (c : N) : bool :=
  existsb (fun i => citem_mem i c) cls.

(** Length of the longest run of class characters at the head of [s], capped
    by the repetition's upper bound. *)
Fixpoint count_run (cls : cclass) (hi : option nat) (s : text) : nat :=
  match s with
  | c :: s' =>
      if class_mem cls c then
        match hi with
        | Some 0%nat => 0%nat
        | Some (S n) => S (count_run cls (Some n) s')
        | None => S (count_run cls None s')
        end
      else 0%nat
  | [] => 0%nat
  end.

(** The character before the position reached after [k] more characters. *)
Definition prev_after (prev : option N) (s : text) (k : nat) : option N :=
  match k with
  | 0%nat => prev
  | S k' => nth_error s k'
  end.

Definition isword_opt (c : option N) : bool :=
  match c with
  | Some c => uni_isword c
  | None => false
  end.

(** [\b]: exactly one of the characters around the position is a word
    character (the ends of the text count as non-word). *)
Definition at_boundary (prev : option N) (s : text) : bool :=
  xorb (isword_opt prev) (isword_opt (hd_error s)).

(** A greedy repetition first takes the longest run, then gives characters
    back one at a time, down to its lower bound. *)
Fixpoint backtrack (k lo : nat) (try : nat -> option nat) : option nat :=
  match try k with
  | Some n => Some n
  | None =>
      match k with
      | 0%nat => None
      | S k' => if (lo <=? k')%nat then backtrack k' lo try else None
      end
  end.

(** Match [p] at the head of [s], [prev] being the character before it;
    the result is the length of the match the engine settles on. *)
Fixpoint match_here (p : regex) (prev : option N) (s : text) : option nat :=
  match p with
  | [] => Some 0%nat
  | Boundary :: p' => if at_boundary prev s then match_here p' prev s else None
  | Rep cls lo hi :: p' =>
      let run := count_run cls hi s in
      if (run <? lo)%nat then None
      else backtrack run lo (fun k =>
             option_map (Nat.add k)
               (match_here p' (prev_after prev s k) (skipn k s)))
  end.

(** [re.sub(p, repl, s)] for a literal replacement: scan left to right,
    replace each match, resume right after it; [skip] counts the characters
    of the current match still to be passed over.  An empty match is
    replaced too and the scan moves on by one character. *)
Fixpoint sub_from (p : regex) (repl : text) (prev : option N) (s : text)
    (skip : nat) : text :=
  match skip with
  | S k =>
      match s with
      | c :: s' => sub_from p repl (Some c) s' k
      | [] => []
      end
  | 0%nat =>
      match match_here p prev s with
      | Some (S n) =>
          repl ++ match s with
                  | c :: s' => sub_from p repl (Some c) s' n
                  | [] => []
                  end
      | Some 0%nat =>
          repl ++ match s with
                  | c :: s' => c :: sub_from p repl (Some c) s' 0
                  | [] => []
                  end
      | None =>
          match s with
          | c :: s' => c :: sub_from p repl (Some c) s' 0
          | [] => []
          end
      end
  end.

Definition re_sub (p : regex) (repl s : text) : text :=
  sub_from p repl None s 0.

Definition one (cls : cclass) : item := Rep cls 1 (Some 1%nat).
Definition plus (cls : cclass) : item := Rep cls 1 None.
Definition opt (cls : cclass) : item := Rep cls 0 (Some 1%nat).

Definition c_upper : cclass := [CRange 0x41 0x5A].
Definition c_lower : cclass := [CRange 0x61 0x7A].

(** [\b[A-Z][a-z]+\s[A-Z][a-z]+\b] *)
Definition NAME_RE : regex :=
  [Boundary; one c_upper; plus c_lower; one [CSpace];
   one c_upper; plus c_lower; Boundary].

(** [\d{1,2}/\d{1,2}/\d{2,4}] *)
Definition DATE_RE : regex :=
  [Rep [CDigit] 1 (Some 2%nat); one [CChar 0x2F];
   Rep [CDigit] 1 (Some 2%nat); one [CChar 0x2F];
   Rep [CDigit] 2 (Some 4%nat)].

(** [-.\s] *)
Definition c_sep : cclass := [CChar 0x2D; CChar 0x2E; CSpace].

(** [\(?\d{3}\)?[-.\s]?\d{3}[-.\s]?\d{4}] *)
Definition PHONE_RE : regex :=
  [opt [CChar 0x28]; Rep [CDigit] 3 (Some 3%nat); opt [CChar 0x29];
   opt c_sep; Rep [CDigit] 3 (Some 3%nat); opt c_sep;
   Rep [CDigit] 4 (Some 4%nat)].

(** [[\w.-]] *)
Definition c_mail : cclass := [CWord; CChar 0x2E; CChar 0x2D].

(** [[\w.-]+@[\w.-]+] *)
Definition EMAIL_RE : regex := [plus c_mail; one [CChar 0x40]; plus c_mail].

Definition REDACTED_NAME : text := str "[REDACTED_NAME]".
Definition REDACTED_DATE : text := str "[REDACTED_DATE]".
Definition REDACTED_PHONE : text := str "[REDACTED_PHONE]".
Definition REDACTED_EMAIL : text := str "[REDACTED_EMAIL]".

(** [scrub_text], lines 32-37 *)
Definition scrub_text (t : text) : text :=
  let t := re_sub NAME_RE REDACTED_NAME t in
  let t := re_sub DATE_RE REDACTED_DATE t in
  let t := re_sub PHONE_RE REDACTED_PHONE t in
  let t := re_sub EMAIL_RE REDACTED_EMAIL t in
  t.

End Scrubber.

(** ** JSON ([json.dumps], [json.loads])

    Decoded values.  A float keeps its lexeme (floating-point arithmetic is
    not modelled); a dict keeps its keys in insertion order. *)

#[warnings="-register-all"]
Inductive json : Type :=
| JNull
| JBool (b : bool)
| JInt (z : Z)
| JFloat (lexeme : text)
| JStr (s : text)
| JList (l : list json)
| JDict (d : list (text * json)).

Definition quote : N := 0x22.      (* the double quote *)
Definition backslash : N := 0x5C.

(** *** Encoder: [encode_basestring_ascii] ([ensure_ascii] is the default) *)

Definition hexdigit (n : N) : N :=
  if n <? 10 then 0x30 + n else 0x61 + (n - 10).

(** ['{0:04x}'.format(n)] for [n < 0x10000] *)
Definition hex4 (n : N) : text :=
  [hexdigit (n / 4096 mod 16); hexdigit (n / 256 mod 16);
   hexdigit (n / 16 mod 16); hexdigit (n mod 16)].

Definition escape_u (n : N) : text := backslash :: 0x75 :: hex4 n.

Definition escape_char (c : N) : text :=
  if c =? quote then [backslash; quote]
  else if c =? backslash then [backslash; backslash]
  else if c =? 0x0A then [backslash; 0x6E]
  else if c =? 0x0D then [backslash; 0x72]
  else if c =? 0x09 then [backslash; 0x74]
  else if c =? 0x08 then [backslash; 0x62]
  else if c =? 0x0C then [backslash; 0x66]
  else if (0x20 <=? c) && (c <=? 0x7E) then [c]
  else if c <? 0x10000 then escape_u c
  else
    let n := c - 0x10000 in
    escape_u (N.lor 0xD800 (N.land (N.shiftr n 10) 0x3FF))
    ++ escape_u (N.lor 0xDC00 (N.land n 0x3FF)).

Definition encode_basestring_ascii (s : text) : text :=
  quote :: flat_map escape_char s ++ [quote].

(** [sep.join(parts)] *)
Fixpoint join (sep : text) (parts : list text) : text :=
  match parts with
  | [] => []
  | [x] => x
  | x :: rest => x ++ sep ++ join sep rest
  end.

(** [json.dumps] of a dict whose keys and values are strings: the default
    separators are [", "] and [": "]. *)
Definition dumps_dict (d : list (text * text)) : text :=
  str "{"
  ++ join (str ", ")
       (List.map (fun kv => encode_basestring_ascii (fst kv) ++ str ": "
                            ++ encode_basestring_ascii (snd kv)) d)
  ++ str "}".

(** The dict literal of line 43. *)
Definition record_items (r : Record_) : list (text * text) :=
  [(str "prompt", prompt r); (str "response", response r); (str "tag", tag r)].

Definition dumps (r : Record_) : text := dumps_dict (record_items r).

(** The value a record is as a Python object. *)
Definition to_json (r : Record_) : json :=
  JDict (List.map (fun kv => (fst kv, JStr (snd kv))) (record_items r)).

(** *** Decoder: [scanstring], [scan_once], [JSONObject], [JSONArray] *)

Definition is_json_ws (c : N) : bool :=
  (c =? 0x20) || (c =? 0x09) || (c =? 0x0A) || (c =? 0x0D).

Fixpoint skip_ws (s : text) : text :=
  match s with
  | c :: s' => if is_json_ws c then skip_ws s' else s
  | [] => []
  end.

Definition hexval (c : N) : option N :=
  if (0x30 <=? c) && (c <=? 0x39) then Some (c - 0x30)
  else if (0x61 <=? c) && (c <=? 0x66) then Some (c - 0x61 + 10)
  else if (0x41 <=? c) && (c <=? 0x46) then Some (c - 0x41 + 10)
  else None.

Definition hexval4 (a b c d : N) : option N :=
  match hexval a, hexval b, hexval c, hexval d with
  | Some x, Some y, Some z, Some w => Some (((x * 16 + y) * 16 + z) * 16 + w)
  | _, _, _, _ => None
  end.

Definition is_high_surrogate (c : N) : bool := (0xD800 <=? c) && (c <=? 0xDBFF).
Definition is_low_surrogate (c : N) : bool := (0xDC00 <=? c) && (c <=? 0xDFFF).

Definition join_surrogates (hi lo : N) : N :=
  0x10000 + N.lor (N.shiftl (hi - 0xD800) 10) (lo - 0xDC00).

(** The [BACKSLASH] table of the decoder. *)
Definition unescape (e : N) : option N :=
  if e =? quote then Some quote
  else if e =? backslash then Some backslash
  else if e =? 0x2F then Some 0x2F
  else if e =? 0x62 then Some 0x08
  else if e =? 0x66 then Some 0x0C
  else if e =? 0x6E then Some 0x0A
  else if e =? 0x72 then Some 0x0D
  else if e =? 0x74 then Some 0x09
  else None.

Definition cons_res (c : N) (r : result (text * text)) : result (text * text) :=
  match r with
  | Ok (t, rest) => Ok (c :: t, rest)
  | Raise e => Raise e
  end.

(** [scanstring] (strict): [s] starts right after the opening quote; the
    result is the decoded string and the text after the closing quote. *)
Fixpoint scanstring (s : text) : result (text * text) :=
  match s with
  | [] => Raise JSONDecodeError
  | c :: s1 =>
      if c =? quote then Ok ([], s1)
      else if c =? backslash then
        match s1 with
        | [] => Raise JSONDecodeError
        | e :: s2 =>
            if e =? 0x75 then
              match s2 with
              | h1 :: h2 :: h3 :: h4 :: s3 =>
                  match hexval4 h1 h2 h3 h4 with
                  | None => Raise JSONDecodeError
                  | Some uni =>
                      if is_high_surrogate uni then
                        match s3 with
                        | b :: u :: k1 :: k2 :: k3 :: k4 :: s4 =>
                            if (b =? backslash) && (u =? 0x75) then
                              match hexval4 k1 k2 k3 k4 with
                              | None => Raise JSONDecodeError
                              | Some uni2 =>
                                  if is_low_surrogate uni2
                                  then cons_res (join_surrogates uni uni2)
                                         (scanstring s4)
                                  else cons_res uni (scanstring s3)
                              end
                            else cons_res uni (scanstring s3)
                        | _ => cons_res uni (scanstring s3)
                        end
                      else cons_res uni (scanstring s3)
                  end
              | _ => Raise JSONDecodeError
              end
            else
              match unescape e with
              | Some d => cons_res d (scanstring s2)
              | None => Raise JSONDecodeError
              end
        end
      else if c <? 0x20 then Raise JSONDecodeError
      else cons_res c (scanstring s1)
  end.

Fixpoint span_digits (s : text) : text * text :=
  match s with
  | c :: s' =>
      if ascii_isdigit c
      then let (d, r) := span_digits s' in (c :: d, r)
      else ([], s)
  | [] => ([], [])
  end.

Fixpoint digits_value (acc : Z) (d : text) : Z :=
  match d with
  | c :: d' => digits_value (acc * 10 + Z.of_N (c - 0x30))%Z d'
  | [] => acc
  end.

(** The integer part [0|[1-9][0-9]*]. *)
Definition match_int (s : text) : option (text * text) :=
  match s with
  | c :: s' =>
      if c =? 0x30 then Some ([c], s')
      else if ascii_isdigit c
      then let (d, r) := span_digits s' in Some (c :: d, r)
      else None
  | [] => None
  end.

(** The optional fraction [\.[0-9]+]. *)
Definition match_frac (s : text) : text * text :=
  match s with
  | c :: s' =>
      if c =? 0x2E then
        match span_digits s' with
        | ([], _) => ([], s)
        | (d, r) => (c :: d, r)
        end
      else ([], s)
  | [] => ([], s)
  end.

(** The optional exponent [[eE][-+]?[0-9]+]. *)
Definition match_exp (s : text) : text * text :=
  match s with
  | c :: s' =>
      if (c =? 0x65) || (c =? 0x45) then
        let (sign, s'') :=
          match s' with
          | g :: t => if (g =? 0x2D) || (g =? 0x2B) then ([g], t) else ([], s')
          | [] => ([], s')
          end in
        match span_digits s'' with
        | ([], _) => ([], s)
        | (d, r) => (c :: sign ++ d, r)
        end
      else ([], s)
  | [] => ([], s)
  end.

Definition match_number (s : text) : option (json * text) :=
  let (neg, s0) :=
    match s with
    | c :: s' => if c =? 0x2D then (true, s') else (false, s)
    | [] => (false, s)
    end in
  match match_int s0 with
  | None => None
  | Some (ip, s1) =>
      let (fp, s2) := match_frac s1 in
      let (ep, s3) := match_exp s2 in
      match fp, ep with
      | [], [] =>
          let v := digits_value 0 ip in
          Some (JInt (if neg then (- v)%Z else v), s3)
      | _, _ =>
          Some (JFloat ((if neg then [0x2D] else []) ++ ip ++ fp ++ ep), s3)
      end
  end.

Fixpoint strip_prefix (lit s : text) : option text :=
  match lit, s with
  | [], _ => Some s
  | a :: lit', b :: s' => if a =? b then strip_prefix lit' s' else None
  | _ :: _, [] => None
  end.

(** The constants of [scan_once], tried in its order. *)
Definition match_constant (s : text) : option (json * text) :=
  match strip_prefix (str "null") s with
  | Some r => Some (JNull, r)
  | None =>
  match strip_prefix (str "true") s with
  | Some r => Some (JBool true, r)
  | None =>
  match strip_prefix (str "false") s with
  | Some r => Some (JBool false, r)
  | None =>
  match strip_prefix (str "NaN") s with
  | Some r => Some (JFloat (str "NaN"), r)
  | None =>
  match strip_prefix (str "Infinity") s with
  | Some r => Some (JFloat (str "Infinity"), r)
  | None =>
  match strip_prefix (str "-Infinity") s with
  | Some r => Some (JFloat (str "-Infinity"), r)
  | None => None
  end end end end end end.

(** [d[k] = v] on an insertion-ordered dict. *)
Fixpoint dict_set (k : text) (v : json) (d : list (text * json))
    : list (text * json) :=
  match d with
  | [] => [(k, v)]
  | (k', v') :: d' =>
      if text_eqb k' k then (k', v) :: d' else (k', v') :: dict_set k v d'
  end.

(** [scan_once] with [JSONObject] and [JSONArray].  [parse_members] starts
    right after the opening quote of a key, [parse_elements] at a value.
    The fuel bounds the nesting and the number of members passed; every
    call consumes a character at the cost of at most two units, so twice
    the length of the text, plus one, is always enough. *)
Fixpoint scan_once (fuel : nat) (s : text) : result (json * text) :=
  match fuel with
  | O => Raise OutOfFuel
  | S f =>
      match s with
      | [] => Raise JSONDecodeError
      | c :: s' =>
          if c =? quote then
            match scanstring s' with
            | Ok (t, rest) => Ok (JStr t, rest)
            | Raise e => Raise e
            end
          else if c =? 0x7B then
            match skip_ws s' with
            | d :: s'' =>
                if d =? 0x7D then Ok (JDict [], s'')
                else if d =? quote then parse_members f s'' []
                else Raise JSONDecodeError
            | [] => Raise JSONDecodeError
            end
          else if c =? 0x5B then
            match skip_ws s' with
            | d :: s'' =>
                if d =? 0x5D then Ok (JList [], s'')
                else parse_elements f (d :: s'') []
            | [] => Raise JSONDecodeError
            end
          else
            match match_constant s with
            | Some r => Ok r
            | None =>
                match match_number s with
                | Some r => Ok r
                | None => Raise JSONDecodeError
                end
            end
      end
  end

with parse_members (fuel : nat) (s : text) (d : list (text * json))
    : result (json * text) :=
  match fuel with
  | O => Raise OutOfFuel
  | S f =>
      match scanstring s with
      | Raise e => Raise e
      | Ok (key, s1) =>
          match skip_ws s1 with
          | c :: s2 =>
              if c =? 0x3A then
                match scan_once f (skip_ws s2) with
                | Raise e => Raise e
                | Ok (v, s3) =>
                    let d' := dict_set key v d in
                    match skip_ws s3 with
                    | e :: s4 =>
                        if e =? 0x7D then Ok (JDict d', s4)
                        else if e =? 0x2C then
                          match skip_ws s4 with
                          | q :: s5 =>
                              if q =? quote then parse_members f s5 d'
                              else Raise JSONDecodeError
                          | [] => Raise JSONDecodeError
                          end
                        else Raise JSONDecodeError
                    | [] => Raise JSONDecodeError
                    end
                end
              else Raise JSONDecodeError
          | [] => Raise JSONDecodeError
          end
      end
  end

with parse_elements (fuel : nat) (s : text) (acc : list json)
    : result (json * text) :=
  match fuel with
  | O => Raise OutOfFuel
  | S f =>
      match scan_once f s with
      | Raise e => Raise e
      | Ok (v, s1) =>
          match skip_ws s1 with
          | e :: s2 =>
              if e =? 0x5D then Ok (JList (acc ++ [v]), s2)
              else if e =? 0x2C then parse_elements f (skip_ws s2) (acc ++ [v])
              else Raise JSONDecodeError
          | [] => Raise JSONDecodeError
          end
      end
  end.

(** [json.loads(s)]: one value, surrounded by whitespace only.  Any failure
    of the decoder is a [JSONDecodeError]. *)
Definition loads (s : text) : result json :=
  match scan_once (S (2 * List.length s)) (skip_ws s) with
  | Raise e => Raise e
  | Ok (v, rest) =>
      match skip_ws rest with
      | [] => Ok v
      | _ :: _ => Raise JSONDecodeError
      end
  end.

(** ** DatasetStore (lines 68-77 and 97-99)

    The two directories are finite maps from the names of their entries to
    the contents of the files, which are texts.  A file name built from a
    tag may be a path: it is followed from the directory as POSIX does. *)

Record Disk : Type := mkDisk {
  saved_datasets : gmap text text;       (* STORAGE_DIR *)
  versioned_datasets : gmap text text    (* VERSION_DIR *)
}.

(** [jsonl_data], line 68 *)
Definition jsonl_data (pairs : list Record_) : text :=
  join [newline] (List.map dumps pairs).

(** [filename], lines 69-70; [stamp] is the formatted current time. *)
Definition make_filename (tag_input stamp : text) : text :=
  List.map (fun c => if c =? 0x20 then 0x5F else c) tag_input
  ++ str "_" ++ stamp ++ str ".jsonl".

(** The two directories a dataset is written to. *)
Inductive directory : Set := STORAGE_DIR | VERSION_DIR.

(** The answers of the operating system that the contents of the two
    directories do not determine.  [os_lookup dir name]: looking the name
    up in the directory; [os_create dir name content]: creating or
    overwriting the entry [name] with [content].  [None] when the system
    carries the call out, else the exception it raises (a name too long or
    not encodable, no permission, no room, ...). *)
Record OS : Type := mkOS {
  os_lookup : directory -> text -> option exn;
  os_create : directory -> text -> text -> option exn
}.

(** A system for evaluating examples: both directories can be searched and
    written and have room, and names are at most 255 characters of
    printable ASCII; it refuses every other name. *)
Definition example_os : OS :=
  let ok name :=
    forallb (fun c => (0x20 <=? c) && (c <=? 0x7E)) name
    && (List.length name <=? 255)%nat in
  mkOS (fun _ name => if ok name then None else Some OSError)
       (fun _ name _ => if ok name then None else Some OSError).

Definition SLASH : N := 0x2F.

(** How [os.path.join(dir, filename)] is followed from [dir]. *)
Inductive path_kind : Type :=
| Plain                   (* no separator: the entry [filename] of [dir] *)
| Through (first : text)  (* [first/...]: [first] has to be a directory *)
| Dotted.                 (* it starts with [/], [./] or [../] *)

Definition dot_name (c : text) : bool :=
  text_eqb c [] || text_eqb c (str ".") || text_eqb c (str "..").

Definition path_kind_of (filename : text) : path_kind :=
  match split_on SLASH filename with
  | first :: _ :: _ => if dot_name first then Dotted else Through first
  | _ => Plain
  end.

(** What lines 71-77 end in. *)
Inductive save_outcome : Type :=
| Saved (d : Disk) (filename : text)  (* both files are written *)
| SaveRaises (e : exn)                (* the run ends with [e]; what it
                                         wrote before is not kept *)
| SaveUnresolved.  (* the path starts with [/], [./] or [../]: the model
                      does not follow it; what the calls do depends on the
                      working directory and the rest of the file system *)

(** Lines 68-77: write the primary file, then copy it to the versioned
    directory.  A path with an embedded NUL is refused by the interpreter.
    The directories hold regular files only, so a path through one of
    their entries cannot be followed. *)
Definition save (os : OS) (d : Disk) (pairs : list Record_)
    (tag_input stamp : text) : save_outcome :=
  let filename := make_filename tag_input stamp in
  if existsb (N.eqb 0) filename then SaveRaises ValueError
  else
    match path_kind_of filename with
    | Dotted => SaveUnresolved
    | Through first =>
        match os_lookup os STORAGE_DIR first with
        | Some e => SaveRaises e
        | None =>
            match saved_datasets d !! first with
            | Some _ => SaveRaises NotADirectoryError
            | None => SaveRaises FileNotFoundError
            end
        end
    | Plain =>
        match os_create os STORAGE_DIR filename (jsonl_data pairs) with
        | Some e => SaveRaises e
        | None =>
            (* the primary file now holds [jsonl_data pairs], and this is
               what [shutil.copy] reads and writes to the other directory *)
            let content := jsonl_data pairs in
            match os_create os VERSION_DIR filename content with
            | Some e => SaveRaises e
            | None =>
                Saved (mkDisk (<[filename := content]> (saved_datasets d))
                         (<[filename := content]> (versioned_datasets d)))
                      filename
            end
        end
    end.

(** Reading in text mode translates ["\r\n"] and ["\r"] to ["\n"]. *)
Fixpoint translate_newlines (s : text) : text :=
  match s with
  | c :: s' =>
      if c =? 0x0D then
        match s' with
        | d :: s'' =>
            if d =? 0x0A then 0x0A :: translate_newlines s''
            else 0x0A :: translate_newlines s'
        | [] => [0x0A]
        end
      else c :: translate_newlines s'
  | [] => []
  end.

(** Lines keep their terminator; the text after the last newline is a line
    only if it is not empty. *)
Fixpoint split_keepends (s : text) : list text :=
  match s with
  | [] => []
  | c :: s' =>
      if c =? newline then [c] :: split_keepends s'
      else match split_keepends s' with
           | l :: ls => (c :: l) :: ls
           | [] => [[c]]
           end
  end.

(** [f.readlines()] *)
Definition readlines (content : text) : list text :=
  split_keepends (translate_newlines content).

(** Lines 97-99 for one file: every line goes through [json.loads]. *)
Definition load (d : Disk) (v : text) : result (list json) :=
  match versioned_datasets d !! v with
  | None => Raise FileNotFoundError
  | Some content => mapM loads (readlines content)
  end.

(** ** Comparator (lines 89-123) *)

Fixpoint is_prefix (a b : text) : bool :=
  match a, b with
  | [], _ => true
  | x :: a', y :: b' => (x =? y) && is_prefix a' b'
  | _ :: _, [] => false
  end.

(** [needle in hay] on strings *)
Fixpoint contains (needle hay : text) : bool :=
  is_prefix needle hay
  || match hay with
     | [] => false
     | _ :: hay' => contains needle hay'
     end.

Fixpoint dict_get (k : text) (d : list (text * json)) : option json :=
  match d with
  | [] => None
  | (k', v) :: d' => if text_eqb k' k then Some v else dict_get k d'
  end.

(** [entry[k]] for a string key *)
Definition subscript (entry : json) (k : text) : result json :=
  match entry with
  | JDict d =>
      match dict_get k d with
      | Some v => Ok v
      | None => Raise KeyError
      end
  | _ => Raise TypeError
  end.

(** Reading the three fields of a loaded entry back into a record. *)
Definition record_of (entry : json) : result Record_ :=
  do p <- subscript entry (str "prompt");
  do r <- subscript entry (str "response");
  do t <- subscript entry (str "tag");
  match p, r, t with
  | JStr p, JStr r, JStr t => Ok (mkRecord p r t)
  | _, _, _ => Raise TypeError
  end.

Definition nonempty (t : text) : bool :=
  match t with
  | [] => false
  | _ :: _ => true
  end.

Fixpoint filterM {A} (f : A -> result bool) (l : list A) : result (list A) :=
  match l with
  | [] => Ok []
  | x :: l' =>
      do b <- f x;
      do r <- filterM f l';
      Ok (if b then x :: r else r)
  end.

(** *** Highlighting ([highlight], lines 56-57) *)

(** [s.replace(old, new)] for a non-empty [old]: the occurrences of [old]
    are taken from the left and do not overlap.  [skip] counts the
    characters of an occurrence still to be passed over. *)
Fixpoint replace_from (old new : text) (skip : nat) (s : text) : text :=
  match s with
  | [] => []
  | c :: s' =>
      match skip with
      | S k => replace_from old new k s'
      | O =>
          if is_prefix old s
          then new ++ replace_from old new (List.length old - 1) s'
          else c :: replace_from old new 0 s'
      end
  end.

(** [s.replace(old, new)]; an empty [old] matches before every character
    and at the end. *)
Definition py_replace (old new s : text) : text :=
  match old with
  | [] => new ++ flat_map (fun c => c :: new) s
  | _ :: _ => replace_from old new 0 s
  end.

(** [f"**:orange[{word}]**"] *)
Definition marked (word : text) : text :=
  str "**:orange[" ++ word ++ str "]**".

Definition highlight (t word : text) : text :=
  if nonempty word then py_replace word (marked word) t else t.

(** The number of replacements [replace_from] makes. *)
Fixpoint replacements (old : text) (skip : nat) (s : text) : nat :=
  match s with
  | [] => 0%nat
  | c :: s' =>
      match skip with
      | S k => replacements old k s'
      | O =>
          if is_prefix old s
          then S (replacements old (List.length old - 1) s')
          else replacements old 0 s'
      end
  end.

(** *** What is shown for a match (lines 109-121)

    The values handed to the page are computed for the errors their
    computation can raise; what the page draws is not part of the model. *)

(** [version_labels.get(v, 'Unlabeled')], lines 109 and 116 *)
Definition label_of (version_labels : json) (v : text) : result json :=
  match version_labels with
  | JDict d =>
      Ok (match dict_get v d with
          | Some l => l
          | None => JStr (str "Unlabeled")
          end)
  | _ => Raise AttributeError
  end.

(** [highlight(v, word)] on a decoded value: [replace] exists on strings
    only, and is not looked up for an empty word. *)
Definition highlight_value (v : json) (word : text) : result json :=
  if nonempty word then
    match v with
    | JStr s => Ok (JStr (highlight s word))
    | _ => Raise AttributeError
    end
  else Ok v.

(** Lines 111-113 and 118-120: the three values shown for one match. *)
Definition shown (keyword : text) (entry : json)
    : result (json * json * json) :=
  do p <- subscript entry (str "prompt");
  do hp <- highlight_value p keyword;
  do r <- subscript entry (str "response");
  do hr <- highlight_value r keyword;
  do t <- subscript entry (str "tag");
  Ok (hp, hr, t).

(** Lines 109-114 and 116-121: the label of the file, then its matches. *)
Definition show_file (version_labels : json) (v keyword : text)
    (matches_ : list json) : result (json * list (json * json * json)) :=
  do l <- label_of version_labels v;
  do rows <- mapM (shown keyword) matches_;
  Ok (l, rows).

Inductive outcome : Type :=
| Unavailable                     (* fewer than two versioned files *)
| NotPerformed                    (* the guard of line 96 is false *)
| Failed (e : exn)
| Compared (matches1 matches2 : list json) (count1 count2 total : nat)
           (combined : list json).

Section Comparator.

Context (U : UnicodeData).

(** [v.lower()] on a decoded value *)
Definition lower_of (v : json) : result text :=
  match v with
  | JStr s => Ok (lower U s)
  | _ => Raise AttributeError
  end.

(** [needle in entry[k].lower()] *)
Definition field_has (needle : text) (entry : json) (k : text) : result bool :=
  do v <- subscript entry k;
  do l <- lower_of v;
  Ok (contains needle l).

(** The condition of the comprehensions of lines 101-102, with Python's
    short-circuit evaluation. *)
Definition entry_matches (keyword tag_filter : text) (entry : json)
    : result bool :=
  do a <- field_has keyword entry (str "prompt");
  do ab <- (if a then Ok true else field_has keyword entry (str "response"));
  if ab then
    if nonempty tag_filter then field_has tag_filter entry (str "tag")
    else Ok true
  else Ok false.

(** Lines 101-123, on the two loaded sequences: both filters, the counts,
    what is shown for either file, then the combined sequence. *)
Definition compare_loaded (version_labels : json)
    (v1 v2 keyword tag_filter : text) (data1 data2 : list json) : outcome :=
  match filterM (entry_matches keyword tag_filter) data1 with
  | Raise e => Failed e
  | Ok matches1 =>
      match filterM (entry_matches keyword tag_filter) data2 with
      | Raise e => Failed e
      | Ok matches2 =>
          match show_file version_labels v1 keyword matches1 with
          | Raise e => Failed e
          | Ok _ =>
              match show_file version_labels v2 keyword matches2 with
              | Raise e => Failed e
              | Ok _ =>
                  Compared matches1 matches2
                    (List.length matches1) (List.length matches2)
                    (List.length matches1 + List.length matches2)
                    (matches1 ++ matches2)
              end
          end
      end
  end.

(** Lines 89-123.  [version_labels] is the label store, [v1], [v2] are the
    two selected file names, [keyword_input] and [tag_filter_input] the
    contents of the two text fields (lower-cased on lines 93-94). *)
Definition compare (d : Disk) (version_labels : json)
    (v1 v2 keyword_input tag_filter_input : text) : outcome :=
  if (size (versioned_datasets d) <? 2)%nat then Unavailable
  else
    let keyword := lower U keyword_input in
    let tag_filter := lower U tag_filter_input in
    if negb (text_eqb v1 v2) && nonempty keyword then
      match versioned_datasets d !! v1, versioned_datasets d !! v2 with
      | Some c1, Some c2 =>
          match mapM loads (readlines c1) with
          | Raise e => Failed e
          | Ok data1 =>
              match mapM loads (readlines c2) with
              | Raise e => Failed e
              | Ok data2 =>
                  compare_loaded version_labels v1 v2 keyword tag_filter
                    data1 data2
              end
          end
      | _, _ => Failed FileNotFoundError
      end
    else NotPerformed.

End Comparator.

(** The condition of lines 101-102 on a record's three fields. *)
Definition keeps (U : UnicodeData) (keyword tag_filter : text) (r : Record_) : bool :=
  (contains keyword (lower U (prompt r))
   || contains keyword (lower U (response r)))
  && (if nonempty tag_filter then contains tag_filter (lower U (tag r))
      else true).


(** ** Specification-side predicates *)

Definition edge_space (s : text) : bool :=
  match s with
  | c :: _ => py_isspace c
  | [] => false
  end.

(** No whitespace at either end. *)
Definition trimmed (s : text) : Prop :=
  edge_space s = false /\ edge_space (rev s) = false.

(** Unicode scalar values: code points up to 0x10FFFF other than the
    surrogates. *)
Definition is_scalar_value (c : N) : bool :=
  (c <? 0xD800) || ((0xDFFF <? c) && (c <? 0x110000)).

(** Texts proper: what decoding UTF-8 yields. *)
Definition unicode_text (s : text) : Prop :=
  forallb is_scalar_value s = true.

Definition unicode_record (r : Record_) : Prop :=
  unicode_text (prompt r) /\ unicode_text (response r)
  /\ unicode_text (tag r).

(** Printable ASCII. *)
Definition printable (c : N) : bool := (0x20 <=? c) && (c <=? 0x7E).

(** [needle] occurs in [hay] as a contiguous substring. *)
Definition occurs_in (needle hay : text) : Prop :=
  exists pre post, hay = pre ++ needle ++ post.

(** The same letter up to case, for the letters of ASCII: the same
    character, or a capital [A]-[Z] and its small letter. *)
Definition same_letter (a b : N) : Prop :=
  a = b
  \/ (0x41 <= a <= 0x5A /\ b = a + 32)
  \/ (0x41 <= b <= 0x5A /\ a = b + 32).

(** Case-insensitive occurrence: some substring of [hay] is [needle] up to
    the case of its letters. *)
Definition ci_occurs (needle hay : text) : Prop :=
  exists pre m post, hay = pre ++ m ++ post /\ Forall2 same_letter needle m.

(** The filter of the Comparator as the specification states it. *)
Definition keeps_spec (keyword tag_filter : text) (r : Record_) : Prop :=
  (ci_occurs keyword (prompt r) \/ ci_occurs keyword (response r))
  /\ (tag_filter <> [] -> ci_occurs tag_filter (tag r)).

Definition ascii_text (s : text) : Prop := forallb is_ascii s = true.

(** A plain file name: no path separator and no NUL. *)
Definition plain_name (name : text) : Prop :=
  ~ In 0 name /\ ~ In SLASH name.

Definition ascii_record (r : Record_) : Prop :=
  ascii_text (prompt r) /\ ascii_text (response r) /\ ascii_text (tag r).

(** A database that knows, beyond ASCII, the Greek letters, for evaluating
    one example on words of letters: [str.lower] gives a capital its small
    letter, and a capital sigma that follows a letter and is followed by
    none the final sigma. *)
Definition greek_letter (c : N) : bool :=
  (0x391 <=? c) && (c <=? 0x3C9) && negb (c =? 0x3A2).

Definition greek_cased (c : N) : bool :=
  ascii_isupper c || ascii_islower c || greek_letter c.

Fixpoint greek_lower (after_letter : bool) (s : text) : text :=
  match s with
  | [] => []
  | c :: s' =>
      (if c =? 0x3A3 then
         if after_letter
            && negb (match s' with d :: _ => greek_cased d | [] => false end)
         then 0x3C2 else 0x3C3
       else if (0x391 <=? c) && (c <=? 0x3A9) && negb (c =? 0x3A2)
            then c + 32
            else ascii_lower c)
      :: greek_lower (greek_cased c) s'
  end.

Definition greek : UnicodeData :=
  mkUnicodeData (fun _ => false) greek_letter (greek_lower false).

(** Nothing but whitespace. *)
Definition all_space (w : text) : Prop := forallb py_isspace w = true.

(** The lines of a text: the pieces between its newlines. *)
Definition lines_of (t : text) (ls : list text) : Prop :=
  ls <> [] /\ join [newline] ls = t /\ Forall (fun l => ~ In newline l) ls.

(** A line that holds a character other than whitespace. *)
Definition nonblank (l : text) : bool :=
  existsb (fun c => negb (py_isspace c)) l.

(** [p] is the line [l] without the whitespace around it: it is not empty,
    neither begins nor ends with whitespace, and only whitespace stands
    before and after it in [l]. *)
Definition stripped_of (p l : text) : Prop :=
  p <> [] /\ trimmed p
  /\ exists a b, l = a ++ p ++ b /\ all_space a /\ all_space b.

(** Whether files were read and compared. *)
Definition performed (o : outcome) : bool :=
  match o with
  | Unavailable | NotPerformed => false
  | Failed _ | Compared _ _ _ _ _ _ => true
  end.

(** A parsing step either consumes input or raises a decode error. *)
Definition shrinks {A} (r : result (A * text)) (s : text) : Prop :=
  match r with
  | Ok (_, rest) => (List.length rest < List.length s)%nat
  | Raise e => e = JSONDecodeError
  end.

(** Number of positions of [hay] at which [needle] starts. *)
Fixpoint occurrences (needle hay : text) : nat :=
  ((if is_prefix needle hay then 1 else 0)
   + match hay with
     | [] => 0
     | _ :: hay' => occurrences needle hay'
     end)%nat.

(** [hay.find(needle)]: the first such position. *)
Fixpoint find (needle hay : text) : option nat :=
  if is_prefix needle hay then Some 0%nat
  else match hay with
       | [] => None
       | _ :: hay' => option_map S (find needle hay')
       end.

(** ** Regular expressions: what a match is

    [matches U p prev s n]: the pattern [p] matches the first [n] characters
    of [s], [prev] being the character before [s].  This is the language of
    the pattern, with no preference among the matches at one position. *)

Definition within (hi : option nat) (k : nat) : Prop :=
  match hi with
  | Some h => (k <= h)%nat
  | None => True
  end.

Inductive matches (U : UnicodeData) : regex -> option N -> text -> nat -> Prop :=
| matches_nil prev s : matches U [] prev s 0
| matches_boundary p prev s n :
    at_boundary U prev s = true -> matches U p prev s n ->
    matches U (Boundary :: p) prev s n
| matches_rep cls lo hi p prev s k n :
    (lo <= k)%nat -> within hi k -> (k <= List.length s)%nat ->
    forallb (class_mem U cls) (firstn k s) = true ->
    matches U p (prev_after prev s k) (skipn k s) n ->
    matches U (Rep cls lo hi :: p) prev s (k + n).

(** The character before the text that follows [pre]. *)
Definition last_of (prev : option N) (pre : text) : option N :=
  prev_after prev pre (List.length pre).

(** No match of [p] starts anywhere in [t]. *)
Definition no_match (U : UnicodeData) (p : regex) (t : text) : Prop :=
  forall pre s n, t = pre ++ s -> ~ matches U p (last_of None pre) s n.

(** [replaced U p repl prev s out]: [out] is [s] with the leftmost
    non-overlapping matches of [p] replaced by [repl], scanning from the
    left: a character at which no match starts is kept, a match is replaced
    and the scan resumes right after it. *)
Inductive replaced (U : UnicodeData) (p : regex) (repl : text)
    : option N -> text -> text -> Prop :=
| replaced_end prev :
    (forall n, ~ matches U p prev [] n) -> replaced U p repl prev [] []
| replaced_keep prev c s out :
    (forall n, ~ matches U p prev (c :: s) n) ->
    replaced U p repl (Some c) s out ->
    replaced U p repl prev (c :: s) (c :: out)
| replaced_hit prev s n out :
    matches U p prev s (S n) ->
    replaced U p repl (prev_after prev s (S n)) (skipn (S n) s) out ->
    replaced U p repl prev s (repl ++ out).

(** The least length of a match. *)
Fixpoint min_len (p : regex) : nat :=
  match p with
  | [] => 0
  | Boundary :: p' => min_len p'
  | Rep _ lo _ :: p' => lo + min_len p'
  end.

(** The engine finds nothing at any position of [t]. *)
Fixpoint scan_none (U : UnicodeData) (p : regex) (prev : option N)
    (t : text) : bool :=
  match match_here U p prev t with
  | Some _ => false
  | None =>
      match t with
      | [] => true
      | c :: t' => scan_none U p (Some c) t'
      end
  end.

(** Patterns without [\b]: a match does not depend on what surrounds it. *)
Definition ctx_free (p : regex) : bool :=
  forallb (fun i => match i with Boundary => false | Rep _ _ _ => true end) p.

(** The characters that can occur in a match. *)
Definition in_alphabet (U : UnicodeData) (p : regex) (c : N) : bool :=
  existsb (fun i => match i with
                    | Boundary => false
                    | Rep cls _ _ => class_mem U cls c
                    end) p.

(** ** The rules in words *)

(** One to two digits, a slash, one to two digits, a slash, two to four
    digits. *)
Definition date_like (U : UnicodeData) (m : text) : Prop :=
  exists dd mm yy,
    m = dd ++ [0x2F] ++ mm ++ [0x2F] ++ yy
    /\ forallb (uni_isdecimal U) dd = true
    /\ forallb (uni_isdecimal U) mm = true
    /\ forallb (uni_isdecimal U) yy = true
    /\ (1 <= List.length dd <= 2)%nat /\ (1 <= List.length mm <= 2)%nat
    /\ (2 <= List.length yy <= 4)%nat.

(** A word character, a dot or a hyphen. *)
Definition mail_char (U : UnicodeData) (c : N) : bool :=
  uni_isword U c || (c =? 0x2E) || (c =? 0x2D).

(** A non-empty run of such characters, an at sign, another such run. *)
Definition email_like (U : UnicodeData) (m : text) : Prop :=
  exists a b,
    m = a ++ [0x40] ++ b /\ a <> [] /\ b <> []
    /\ forallb (mail_char U) a = true /\ forallb (mail_char U) b = true.

(** The e-mail rule as the specification words it: runs of non-whitespace
    characters around the at sign. *)
Definition email_like_spec (m : text) : Prop :=
  exists a b,
    m = a ++ [0x40] ++ b /\ a <> [] /\ b <> []
    /\ forallb (fun c => negb (py_isspace c)) a = true
    /\ forallb (fun c => negb (py_isspace c)) b = true.

(** ** Separators

    A character that is neither a word character nor in the class of any
    item of one of the four patterns: no match contains it and [\b] sees it
    like an end of the text. *)
Definition separator (U : UnicodeData) (z : N) : bool :=
  negb (uni_isword U z)
  && negb (in_alphabet U NAME_RE z) && negb (in_alphabet U DATE_RE z)
  && negb (in_alphabet U PHONE_RE z) && negb (in_alphabet U EMAIL_RE z).

Definition PLACEHOLDERS : list text :=
  [REDACTED_NAME; REDACTED_DATE; REDACTED_PHONE; REDACTED_EMAIL].

(** An optional separator of the phone rule: nothing, or one hyphen, dot or
    whitespace character. *)
Definition sep_opt (s : text) : Prop :=
  s = [] \/ exists c, s = [c] /\ (c = 0x2D \/ c = 0x2E \/ py_isspace c = true).

(** The phone rule in words: an optional opening parenthesis, three digits,
    an optional closing parenthesis, an optional separator, three digits, an
    optional separator, four digits. *)
Definition phone_like (U : UnicodeData) (m : text) : Prop :=
  exists op a cp s1 b s2 c,
    m = op ++ a ++ cp ++ s1 ++ b ++ s2 ++ c
    /\ (op = [] \/ op = [0x28]) /\ (cp = [] \/ cp = [0x29])
    /\ sep_opt s1 /\ sep_opt s2
    /\ forallb (uni_isdecimal U) a = true /\ List.length a = 3%nat
    /\ forallb (uni_isdecimal U) b = true /\ List.length b = 3%nat
    /\ forallb (uni_isdecimal U) c = true /\ List.length c = 4%nat.

(** The characters a date-like sequence is made of. *)
Definition date_char (U : UnicodeData) (c : N) : bool :=
  uni_isdecimal U c || (c =? 0x2F).

(** The characters a phone-like sequence is made of. *)
Definition phone_char (U : UnicodeData) (c : N) : bool :=
  uni_isdecimal U c || (c =? 0x28) || (c =? 0x29) || (c =? 0x2D)
  || (c =? 0x2E) || py_isspace c.

(** [tag_input.replace(' ', '_')], the first part of line 69. *)
Definition underscored (tag_input : text) : text :=
  List.map (fun c => if c =? 0x20 then 0x5F else c) tag_input.

(** Lines 61-77 of the upload block, from the extracted text on: scrub,
    segment, write and copy. *)
Definition upload (os : OS) (U : UnicodeData) (d : Disk)
    (raw_text tag_input stamp : text) : save_outcome :=
  let scrubbed := scrub_text U raw_text in
  match segment_into_pairs scrubbed tag_input with
  | Ok pairs => save os d pairs tag_input stamp
  | Raise e => SaveRaises e
  end.

(** The records an upload stores. *)
Definition uploaded_records (U : UnicodeData) (raw_text tag_input : text)
    : list Record_ :=
  pair_up tag_input (paragraphs_of (scrub_text U raw_text)).

(** The errors the condition of lines 101-102 can raise. *)
Definition filter_error (e : exn) : Prop :=
  e = KeyError \/ e = TypeError \/ e = AttributeError.

(** ** The list of versions (line 89) *)

(** [a < b] on strings: by code points, a proper prefix being smaller. *)
Fixpoint text_ltb (a b : text) : bool :=
  match a, b with
  | [], [] => false
  | [], _ :: _ => true
  | _ :: _, [] => false
  | x :: a', y :: b' => (x <? y) || ((x =? y) && text_ltb a' b')
  end.

(** [sorted(l, reverse=True)]: descending, equal elements in their original
    order. *)
Fixpoint insert_desc (x : text) (l : list text) : list text :=
  match l with
  | [] => [x]
  | y :: l' => if text_ltb x y then y :: insert_desc x l' else x :: y :: l'
  end.

Definition sorted_desc (l : list text) : list text :=
  fold_right insert_desc [] l.

(** [os.listdir(dir)]: the names, in an order the program does not choose. *)
Definition listdir (dir : gmap text text) : list text :=
  List.map fst (map_to_list dir).

(** [versioned_files], line 89 *)
Definition versioned_files (d : Disk) : list text :=
  sorted_desc (listdir (versioned_datasets d)).

(** [a] is listed before [b]. *)
Definition listed_before (a b : text) (l : list text) : Prop :=
  exists l1 l2 l3, l = l1 ++ a :: l2 ++ b :: l3.

(** ** Extraction ([extract_text], lines 46-54) and the UTF-8 layer

    Bytes are numbers below 256.  [None] stands for the exception a codec
    or an extraction library raises. *)

Definition in_range (lo hi b : N) : bool := (lo <=? b) && (b <=? hi).

Definition is_cont (b : N) : bool := in_range 0x80 0xBF b.

(** The second byte a lead byte admits: no overlong form, no surrogate,
    nothing beyond U+10FFFF. *)
Definition second_ok (b0 b1 : N) : bool :=
  if b0 =? 0xE0 then in_range 0xA0 0xBF b1
  else if b0 =? 0xED then in_range 0x80 0x9F b1
  else if b0 =? 0xF0 then in_range 0x90 0xBF b1
  else if b0 =? 0xF4 then in_range 0x80 0x8F b1
  else is_cont b1.

(** [bs.decode("utf-8")], strict *)
Fixpoint utf8_decode (bs : list N) : option text :=
  match bs with
  | [] => Some []
  | b0 :: r0 =>
      if b0 <? 0x80 then option_map (cons b0) (utf8_decode r0)
      else if in_range 0xC2 0xDF b0 then
        match r0 with
        | b1 :: r1 =>
            if is_cont b1
            then option_map (cons ((b0 - 0xC0) * 64 + (b1 - 0x80)))
                   (utf8_decode r1)
            else None
        | _ => None
        end
      else if in_range 0xE0 0xEF b0 then
        match r0 with
        | b1 :: b2 :: r2 =>
            if second_ok b0 b1 && is_cont b2
            then option_map
                   (cons (((b0 - 0xE0) * 64 + (b1 - 0x80)) * 64 + (b2 - 0x80)))
                   (utf8_decode r2)
            else None
        | _ => None
        end
      else if in_range 0xF0 0xF4 b0 then
        match r0 with
        | b1 :: b2 :: b3 :: r3 =>
            if second_ok b0 b1 && is_cont b2 && is_cont b3
            then option_map
                   (cons ((((b0 - 0xF0) * 64 + (b1 - 0x80)) * 64
                           + (b2 - 0x80)) * 64 + (b3 - 0x80)))
                   (utf8_decode r3)
            else None
        | _ => None
        end
      else None
  end.

(** One character of [s.encode("utf-8")]; a surrogate cannot be encoded. *)
Definition utf8_encode_char (c : N) : option (list N) :=
  if c <? 0x80 then Some [c]
  else if c <? 0x800 then Some [0xC0 + c / 64; 0x80 + c mod 64]
  else if c <? 0x10000 then
    if in_range 0xD800 0xDFFF c then None
    else Some [0xE0 + c / 4096; 0x80 + (c / 64) mod 64; 0x80 + c mod 64]
  else if c <? 0x110000 then
    Some [0xF0 + c / 262144; 0x80 + (c / 4096) mod 64;
          0x80 + (c / 64) mod 64; 0x80 + c mod 64]
  else None.

Fixpoint utf8_encode (t : text) : option (list N) :=
  match t with
  | [] => Some []
  | c :: t' =>
      match utf8_encode_char c, utf8_encode t' with
      | Some b, Some bs => Some (b ++ bs)
      | _, _ => None
      end
  end.

(** An uploaded file: its MIME type and its bytes. *)
Record UploadedFile : Type := mkUploadedFile {
  ftype : text;
  getvalue : list N
}.

Definition DOCX_TYPE : text :=
  str "application/vnd.openxmlformats-officedocument.wordprocessingml.document".

Section Extraction.

(** The two extraction libraries: the texts of the pages of a PDF
    ([page.extract_text()] for every page, an empty text when the page has
    none), and the text of a Word document. *)
Context (pdf_pages : list N -> option (list text)).
Context (docx_process : list N -> option text).

Definition extract_text (file : UploadedFile) : option text :=
  if text_eqb (ftype file) (str "text/plain") then
    utf8_decode (getvalue file)
  else if text_eqb (ftype file) (str "application/pdf") then
    option_map (fun pages => join [newline] (List.filter nonempty pages))
      (pdf_pages (getvalue file))
  else if text_eqb (ftype file) DOCX_TYPE then
    docx_process (getvalue file)
  else Some [].

End Extraction.

(** ** The encoder on decoded values ([json.dumps], [json.dump])

    Lines 83 and 126 encode values that came out of [json.load(s)].  The
    text of a float is what [float.__repr__] gives for the number its
    lexeme denotes; it is a parameter, floating-point arithmetic not being
    modelled. *)

(** [int.__repr__] *)
Definition int_repr (z : Z) : text :=
  str (NilZero.string_of_int (Z.to_int z)).

Section Encoder.

Context (float_repr : text -> text).

(** [indent]: [None] for the compact form of [json.dumps(v)], [Some n] for
    [indent=n]. *)
Context (indent : option nat).

(** The line break and indentation before an item at nesting [level]. *)
Definition newline_indent (level : nat) : text :=
  match indent with
  | None => []
  | Some n => newline :: List.repeat 0x20 (n * level)
  end.

(** The item separator: [", "], or [","] and a line break when
    indenting. *)
Definition item_separator (level : nat) : text :=
  match indent with
  | None => str ", "
  | Some _ => str "," ++ newline_indent level
  end.

Fixpoint encode_json (level : nat) (v : json) : text :=
  match v with
  | JNull => str "null"
  | JBool true => str "true"
  | JBool false => str "false"
  | JInt z => int_repr z
  | JFloat lexeme => float_repr lexeme
  | JStr s => encode_basestring_ascii s
  | JList [] => str "[]"
  | JList l =>
      str "[" ++ newline_indent (S level)
      ++ join (item_separator (S level))
           (List.map (encode_json (S level)) l)
      ++ newline_indent level ++ str "]"
  | JDict [] => str "{}"
  | JDict d =>
      str "{" ++ newline_indent (S level)
      ++ join (item_separator (S level))
           (List.map (fun kv =>
                        match kv with
                        | (k, x) => encode_basestring_ascii k ++ str ": "
                                    ++ encode_json (S level) x
                        end) d)
      ++ newline_indent level ++ str "}"
  end.

End Encoder.

(** [json.dumps(v)] *)
Definition dumps_json (float_repr : text -> text) (v : json) : text :=
  encode_json float_repr None 0 v.

(** [json.dumps(v, indent=2)], the text [json.dump(v, f, indent=2)]
    writes *)
Definition dumps_indent2 (float_repr : text -> text) (v : json) : text :=
  encode_json float_repr (Some 2%nat) 0 v.

(** ** Version labels (lines 23-27, 79-84, 109 and 116) *)

(** Lines 23-27: [file] is the text of the label file, [None] when the file
    does not exist. *)
Definition load_labels (file : option text) : result json :=
  match file with
  | Some content => loads (translate_newlines content)
  | None => Ok (JDict [])
  end.

(** Lines 80-83: the label store after the upload and, when a label was
    entered, the text written to the label file. *)
Definition set_label (float_repr : text -> text) (version_labels : json)
    (filename version_label : text) : result (json * option text) :=
  if nonempty version_label then
    match version_labels with
    | JDict d =>
        let d' := dict_set filename (JStr version_label) d in
        Ok (JDict d', Some (dumps_indent2 float_repr (JDict d')))
    | _ => Raise TypeError
    end
  else Ok (version_labels, None).

(** A label store as the program builds it: distinct file names, every
    label a string, all of it Unicode text. *)
Definition label_store (d : list (text * json)) : Prop :=
  List.NoDup (List.map fst d)
  /\ List.Forall (fun kv => unicode_text (fst kv)
                            /\ exists l, snd kv = JStr l /\ unicode_text l) d.

(** The members of an indented dict of strings, from after the opening
    quote of the first key to the closing brace; [tail] is what follows. *)
Fixpoint members_text (ls : list (text * text)) (tail : text) : text :=
  match ls with
  | [] => tail
  | (k, v) :: rest =>
      flat_map escape_char k ++ quote :: 0x3A :: 0x20 :: quote
      :: flat_map escape_char v ++ quote
      :: match rest with
         | [] => newline :: 0x7D :: tail
         | _ :: _ =>
             0x2C :: newline :: 0x20 :: 0x20 :: quote :: members_text rest tail
         end
  end.

Definition labels_json (ls : list (text * text)) : list (text * json) :=
  List.map (fun kv => (fst kv, JStr (snd kv))) ls.

(** ** Export of the matches (lines 123-126) *)

(** [comparison_filename], line 125; [v[:10]] is the first ten characters,
    or all of them when there are fewer. *)
Definition comparison_filename (v1 v2 stamp : text) : text :=
  str "comparison_" ++ firstn 10 v1 ++ str "_vs_" ++ firstn 10 v2
  ++ str "_" ++ stamp ++ str ".jsonl".

(** [comparison_data], line 126 *)
Definition comparison_data (float_repr : text -> text)
    (combined : list json) : text :=
  join [newline] (List.map (dumps_json float_repr) combined).

(** Lines 123-127: the name and the content of the download offered after
    a comparison, [None] when no download is offered. *)
Definition export (float_repr : text -> text) (o : outcome)
    (v1 v2 stamp : text) : option (text * text) :=
  match o with
  | Compared _ _ _ _ _ ((_ :: _) as combined) =>
      Some (comparison_filename v1 v2 stamp,
            comparison_data float_repr combined)
  | _ => None
  end.

(** * Proofs *)

(** ** Segmenter: proofs *)

Section ListPairs.

Context {A : Type}.

(** Induction two elements at a time. *)
Lemma list_pair_ind (P : list A -> Prop) :
  P [] -> (forall x, P [x]) -> (forall x y l, P l -> P (x :: y :: l)) ->
  forall l, P l.
Proof.
  intros H0 H1 H2.
  assert (H : forall l, P l /\ forall x, P (x :: l)).
  { induction l as [|y l [IH1 IH2]]; split; auto. }
  intro l; apply H.
Qed.

Lemma getitem_nth (l : list A) (n : nat) (x : A) :
  nth_error l n = Some x -> getitem l (Z.of_nat n) = Ok x.
Proof.
  intro H. unfold getitem.
  destruct (Z.ltb_spec (Z.of_nat n) 0); [lia|].
  destruct (Z.ltb_spec (Z.of_nat n) 0); [lia|].
  now rewrite Nat2Z.id, H.
Qed.

Lemma skipn_two (l : list A) (a : nat) :
  (2 * a + 2 <= List.length l)%nat ->
  exists x y, nth_error l (2 * a) = Some x /\ nth_error l (2 * a + 1) = Some y
              /\ skipn (2 * a) l = x :: y :: skipn (2 * S a) l.
Proof.
  revert l. induction a as [|a IH]; intros l Hl.
  - destruct l as [|x [|y l]]; simpl in Hl; try lia. now exists x, y.
  - destruct l as [|x [|y l]]; simpl in Hl; try lia.
    destruct (IH l) as (u & v & Hu & Hv & Hs); [simpl; lia|].
    exists u, v.
    replace (2 * S a)%nat with (S (S (2 * a))) by lia.
    replace (2 * S (S a))%nat with (S (S (2 * S a))) by lia.
    replace (S (S (2 * a)) + 1)%nat with (S (S (2 * a + 1))) by lia.
    simpl nth_error. simpl skipn. auto.
Qed.

End ListPairs.

Lemma segment_loop_range (tg : text) (l : list text) (m a : nat)
    (acc : list Record_) :
  (2 * a + 2 * m <= List.length l)%nat ->
  segment_loop l tg
    (List.map (fun k => (0 + 2 * Z.of_nat k)%Z) (seq a m)) acc
  = Ok (acc ++ pair_up tg (firstn (2 * m) (skipn (2 * a) l))).
Proof.
  revert a acc. induction m as [|m IH]; intros a acc Hl.
  - simpl. now rewrite app_nil_r.
  - destruct (skipn_two l a) as (x & y & Hx & Hy & Hs); [lia|].
    cbn [seq List.map segment_loop].
    replace (0 + 2 * Z.of_nat a)%Z with (Z.of_nat (2 * a)) by lia.
    rewrite (getitem_nth _ _ _ Hx). cbn [bind].
    replace (Z.of_nat (2 * a) + 1)%Z with (Z.of_nat (2 * a + 1)) by lia.
    rewrite (getitem_nth _ _ _ Hy). cbn [bind].
    rewrite IH by lia. rewrite Hs.
    replace (2 * S m)%nat with (S (S (2 * m))) by lia.
    cbn [firstn pair_up]. now rewrite <- app_assoc.
Qed.

Lemma pair_up_firstn (tg : text) (l : list text) :
  pair_up tg (firstn (2 * (List.length l / 2)) l) = pair_up tg l.
Proof.
  induction l as [| x | x y l IH] using list_pair_ind; try reflexivity.
  cbn [List.length].
  replace (S (S (List.length l))) with (1 * 2 + List.length l)%nat by lia.
  rewrite Nat.div_add_l by lia.
  replace (2 * (1 + List.length l / 2))%nat
    with (S (S (2 * (List.length l / 2)))) by lia.
  cbn [firstn pair_up]. now rewrite IH.
Qed.

Lemma length_pair_up (tg : text) (l : list text) :
  List.length (pair_up tg l) = (List.length l / 2)%nat.
Proof.
  induction l as [| x | x y l IH] using list_pair_ind; try reflexivity.
  cbn [List.length pair_up]. rewrite IH.
  replace (S (S (List.length l))) with (1 * 2 + List.length l)%nat by lia.
  now rewrite Nat.div_add_l by lia.
Qed.

Lemma py_range_pairs (n : nat) :
  py_range 0 (Z.of_nat n - 1) 2
  = List.map (fun k => (0 + 2 * Z.of_nat k)%Z) (seq 0 (n / 2)).
Proof.
  unfold py_range. f_equal. f_equal.
  destruct (Z.leb_spec (Z.of_nat n - 1) 0) as [H|H].
  - assert (n = 0 \/ n = 1)%nat as [-> | ->] by lia; reflexivity.
  - replace (Z.of_nat n - 1 - 0 - 1)%Z with (Z.of_nat (n - 2)) by lia.
    change 2%Z with (Z.of_nat 2). rewrite <- Nat2Z.inj_div.
    change 1%Z with (Z.of_nat 1). rewrite <- Nat2Z.inj_add, Nat2Z.id.
    replace n with (1 * 2 + (n - 2))%nat at 2 by lia.
    rewrite Nat.div_add_l by lia. lia.
Qed.

(** The loop never raises and pairs the paragraphs consecutively. *)
Lemma segment_into_pairs_eq (t tg : text) :
  segment_into_pairs t tg = Ok (pair_up tg (paragraphs_of t)).
Proof.
  unfold segment_into_pairs. rewrite py_range_pairs.
  rewrite segment_loop_range.
  - cbn [skipn app]. now rewrite pair_up_firstn.
  - pose proof (Nat.div_mod_eq (List.length (paragraphs_of t)) 2). lia.
Qed.

Lemma pair_up_tag (tg : text) (l : list text) (r : Record_) :
  In r (pair_up tg l) -> tag r = tg.
Proof.
  induction l as [| x | x y l IH] using list_pair_ind; cbn [pair_up In];
    try tauto.
  intros [<- | H]; auto.
Qed.

Lemma pair_up_fields (tg : text) (l : list text) (r : Record_) :
  In r (pair_up tg l) -> In (prompt r) l /\ In (response r) l.
Proof.
  induction l as [| x | x y l IH] using list_pair_ind; cbn [pair_up];
    try (simpl; tauto).
  intros [<- | H]; simpl; [tauto|]. apply IH in H. tauto.
Qed.

Lemma lstrip_edge (s : text) : edge_space (lstrip s) = false.
Proof.
  induction s as [|c s IH]; [reflexivity|].
  simpl. destruct (py_isspace c) eqn:E; [exact IH | exact E].
Qed.

Lemma lstrip_snoc (l : text) (c : N) :
  py_isspace c = false -> exists v, lstrip (l ++ [c]) = v ++ [c].
Proof.
  intro Hc. induction l as [|x l [v IH]]; simpl.
  - rewrite Hc. now exists [].
  - destruct (py_isspace x); [now exists v | now exists (x :: l)].
Qed.

Lemma rstrip_edge (u : text) :
  edge_space u = false -> edge_space (rstrip u) = false.
Proof.
  unfold rstrip. destruct u as [|c r]; [reflexivity|]. simpl. intro Hc.
  destruct (lstrip_snoc (rev r) c Hc) as [v ->].
  now rewrite rev_app_distr.
Qed.

Lemma strip_trimmed (s : text) : trimmed (strip s).
Proof.
  split.
  - apply rstrip_edge, lstrip_edge.
  - unfold strip, rstrip. rewrite rev_involutive. apply lstrip_edge.
Qed.

Lemma text_eqb_eq (a b : text) : text_eqb a b = true <-> a = b.
Proof.
  revert b. induction a as [|x a IH]; destruct b as [|y b]; simpl;
    try (split; [discriminate | congruence]); [tauto|].
  rewrite andb_true_iff, N.eqb_eq, IH. split; [intros []|intros [=]]; subst; auto.
Qed.

Lemma paragraphs_of_kept (t : text) :
  paragraphs_of t = List.map strip (kept_lines t).
Proof. reflexivity. Qed.

Lemma In_paragraphs (t p : text) :
  In p (paragraphs_of t) ->
  (exists line, In line (split_on newline t) /\ p = strip line)
  /\ p <> [] /\ trimmed p.
Proof.
  unfold paragraphs_of. rewrite in_map_iff.
  intros (line & <- & Hin). apply List.filter_In in Hin as [Hin Hne].
  split; [now exists line|]. split; [|apply strip_trimmed].
  intro E. rewrite E in Hne. discriminate.
Qed.

(** C2 as worded fails: the kept lines are not paired as they stand.  On
    [" a\nb"] the specification's reading keeps the prompt [" a"], the code
    emits ["a"]. *)
Lemma segment_pairs_lines_verbatim_fails :
  segment_into_pairs (str " a" ++ [newline] ++ str "b") (str "t")
  <> Ok (segment_spec (str " a" ++ [newline] ++ str "b") (str "t")).
Proof. vm_compute. discriminate. Qed.

(** C2 (amended): [segment_into_pairs] splits the text at newlines, discards
    the lines that are empty after trimming, and pairs the remaining lines,
    each in its trimmed form, consecutively; an unpaired last line is
    dropped and every record carries the given tag.  Both ["a\nb\nc"] and
    ["a\n\nb\nc"] give the single record (a, b, tag). *)
Theorem segment_into_pairs_pairs_trimmed_lines (t tg : text) :
  segment_into_pairs t tg = Ok (pair_up tg (List.map strip (kept_lines t)))
  /\ (forall r, In r (pair_up tg (List.map strip (kept_lines t))) -> tag r = tg)
  /\ segment_into_pairs
       (str "a" ++ [newline] ++ str "b" ++ [newline] ++ str "c") tg
     = Ok [mkRecord (str "a") (str "b") tg]
  /\ segment_into_pairs
       (str "a" ++ [newline; newline] ++ str "b" ++ [newline] ++ str "c") tg
     = Ok [mkRecord (str "a") (str "b") tg].
Proof.
  split; [|split; [|split]].
  - rewrite segment_into_pairs_eq. reflexivity.
  - intros r. apply pair_up_tag.
  - rewrite segment_into_pairs_eq. reflexivity.
  - rewrite segment_into_pairs_eq. reflexivity.
Qed.

(** ** JSON: the decoder inverts the encoder *)

Ltac Zify.zify_post_hook ::= Z.to_euclidean_division_equations.

(** Boolean comparisons on [N] as propositions, for [lia]. *)
Ltac nbool :=
  repeat (rewrite ?orb_true_iff, ?andb_true_iff, ?orb_false_iff,
            ?andb_false_iff, ?N.ltb_lt, ?N.leb_le, ?N.ltb_ge, ?N.leb_gt,
            ?N.eqb_eq, ?N.eqb_neq in * ).

Lemma land_shiftl_small (a b n : N) :
  b < 2 ^ n -> N.land (N.shiftl a n) b = 0.
Proof.
  intro H. apply N.bits_inj_0. intro m.
  rewrite N.land_spec.
  destruct (N.lt_ge_cases m n) as [L|L].
  - now rewrite N.shiftl_spec_low.
  - rewrite (N.testbit_eqb b m), andb_comm.
    assert (2 ^ n <= 2 ^ m) by (apply N.pow_le_mono_r; lia).
    rewrite N.div_small by lia. reflexivity.
Qed.

Lemma lor_shiftl_add (a b n : N) :
  b < 2 ^ n -> N.lor (N.shiftl a n) b = a * 2 ^ n + b.
Proof.
  intro H. rewrite <- N.lxor_lor by now apply land_shiftl_small.
  rewrite <- N.add_nocarry_lxor by now apply land_shiftl_small.
  now rewrite N.shiftl_mul_pow2.
Qed.

Lemma hexval_hexdigit (n : N) : n < 16 -> hexval (hexdigit n) = Some n.
Proof.
  intro H. destruct n as [|p]; [reflexivity|].
  do 4 (destruct p as [p|p|]; try reflexivity); lia.
Qed.

Lemma hexval4_hex4 (n h1 h2 h3 h4 : N) :
  n < 0x10000 -> hex4 n = [h1; h2; h3; h4] -> hexval4 h1 h2 h3 h4 = Some n.
Proof.
  intros H [= <- <- <- <-]. unfold hexval4.
  rewrite !hexval_hexdigit by (apply N.mod_lt; lia).
  f_equal. lia.
Qed.

Lemma scanstring_u (h1 h2 h3 h4 uni : N) (s3 : text) :
  hexval4 h1 h2 h3 h4 = Some uni -> is_high_surrogate uni = false ->
  scanstring (backslash :: 0x75 :: h1 :: h2 :: h3 :: h4 :: s3)
  = cons_res uni (scanstring s3).
Proof.
  intros H1 H2. change (scanstring (backslash :: 0x75 :: h1 :: h2 :: h3 :: h4 :: s3))
    with (match hexval4 h1 h2 h3 h4 with
          | None => Raise JSONDecodeError
          | Some uni =>
              if is_high_surrogate uni then
                match s3 with
                | b :: u :: k1 :: k2 :: k3 :: k4 :: s4 =>
                    if (b =? backslash) && (u =? 0x75) then
                      match hexval4 k1 k2 k3 k4 with
                      | None => Raise JSONDecodeError
                      | Some uni2 =>
                          if is_low_surrogate uni2
                          then cons_res (join_surrogates uni uni2)
                                 (scanstring s4)
                          else cons_res uni (scanstring s3)
                      end
                    else cons_res uni (scanstring s3)
                | _ => cons_res uni (scanstring s3)
                end
              else cons_res uni (scanstring s3)
          end).
  now rewrite H1, H2.
Qed.

Lemma scanstring_uu (h1 h2 h3 h4 k1 k2 k3 k4 hi lo : N) (s4 : text) :
  hexval4 h1 h2 h3 h4 = Some hi -> is_high_surrogate hi = true ->
  hexval4 k1 k2 k3 k4 = Some lo -> is_low_surrogate lo = true ->
  scanstring (backslash :: 0x75 :: h1 :: h2 :: h3 :: h4
              :: backslash :: 0x75 :: k1 :: k2 :: k3 :: k4 :: s4)
  = cons_res (join_surrogates hi lo) (scanstring s4).
Proof.
  intros H1 H2 H3 H4.
  change (scanstring (backslash :: 0x75 :: h1 :: h2 :: h3 :: h4
              :: backslash :: 0x75 :: k1 :: k2 :: k3 :: k4 :: s4))
    with (match hexval4 h1 h2 h3 h4 with
          | None => Raise JSONDecodeError
          | Some uni =>
              if is_high_surrogate uni then
                match hexval4 k1 k2 k3 k4 with
                | None => Raise JSONDecodeError
                | Some uni2 =>
                    if is_low_surrogate uni2
                    then cons_res (join_surrogates uni uni2) (scanstring s4)
                    else cons_res uni
                           (scanstring (backslash :: 0x75 :: k1 :: k2 :: k3
                                        :: k4 :: s4))
                end
              else cons_res uni
                     (scanstring (backslash :: 0x75 :: k1 :: k2 :: k3
                                  :: k4 :: s4))
          end).
  now rewrite H1, H2, H3, H4.
Qed.

Lemma hex4_shape (n : N) : exists h1 h2 h3 h4, hex4 n = [h1; h2; h3; h4].
Proof. unfold hex4. eauto. Qed.

Lemma surrogate_split (c : N) :
  0x10000 <= c -> c < 0x110000 ->
  let n := c - 0x10000 in
  let hi := N.lor 0xD800 (N.land (N.shiftr n 10) 0x3FF) in
  let lo := N.lor 0xDC00 (N.land n 0x3FF) in
  hi = 0xD800 + n / 1024 /\ lo = 0xDC00 + n mod 1024 /\ n / 1024 < 1024
  /\ join_surrogates hi lo = c.
Proof.
  intros H1 H2 n hi lo.
  assert (Hn : n < 0x100000) by (unfold n; lia).
  assert (Hq : n / 1024 < 1024) by lia.
  assert (Hhi : hi = 0xD800 + n / 1024).
  { unfold hi. change 0x3FF with (N.ones 10). rewrite N.land_ones.
    rewrite N.shiftr_div_pow2. change (2 ^ 10) with 1024.
    rewrite N.mod_small by exact Hq.
    change 0xD800 with (N.shiftl 54 10) at 1.
    rewrite lor_shiftl_add by exact Hq. reflexivity. }
  assert (Hlo : lo = 0xDC00 + n mod 1024).
  { unfold lo. change 0x3FF with (N.ones 10). rewrite N.land_ones.
    change (2 ^ 10) with 1024.
    change 0xDC00 with (N.shiftl 55 10) at 1.
    rewrite lor_shiftl_add by (apply N.mod_lt; lia). reflexivity. }
  repeat split; auto.
  unfold join_surrogates. rewrite Hhi, Hlo.
  replace (0xD800 + n / 1024 - 0xD800) with (n / 1024) by lia.
  replace (0xDC00 + n mod 1024 - 0xDC00) with (n mod 1024) by lia.
  rewrite lor_shiftl_add by (apply N.mod_lt; lia).
  change (2 ^ 10) with 1024. unfold n. lia.
Qed.

Lemma scanstring_escape_char (c : N) (tail : text) :
  is_scalar_value c = true ->
  scanstring (escape_char c ++ tail) = cons_res c (scanstring tail).
Proof.
  intro Hc. unfold escape_char.
  repeat (match goal with
          | |- context [?x =? ?y] =>
              destruct (N.eqb_spec x y) as [->|?]; [reflexivity|]
          end).
  destruct ((0x20 <=? c) && (c <=? 0x7E)) eqn:H.
  - apply andb_true_iff in H as [H1 H2]. cbn [app scanstring].
    rewrite (proj2 (N.eqb_neq c quote)), (proj2 (N.eqb_neq c backslash)) by auto.
    apply N.leb_le in H1.
    now rewrite (proj2 (N.ltb_ge c 0x20)) by exact H1.
  - unfold is_scalar_value in Hc.
    destruct (N.ltb_spec c 0x10000) as [L|L].
    + destruct (hex4_shape c) as (h1 & h2 & h3 & h4 & E).
      unfold escape_u. rewrite E. cbn [app].
      apply scanstring_u; [now apply hexval4_hex4|].
      unfold is_high_surrogate. nbool. lia.
    + assert (Hlt : c < 0x110000) by (nbool; lia).
      destruct (surrogate_split c L Hlt) as (Hhi & Hlo & Hq & Hj).
      cbv zeta in Hhi, Hlo, Hj.
      set (hi := N.lor 0xD800 (N.land (N.shiftr (c - 0x10000) 10) 0x3FF)) in *.
      set (lo := N.lor 0xDC00 (N.land (c - 0x10000) 0x3FF)) in *.
      destruct (hex4_shape hi) as (h1 & h2 & h3 & h4 & E1).
      destruct (hex4_shape lo) as (k1 & k2 & k3 & k4 & E2).
      assert (Hm : (c - 0x10000) mod 1024 < 1024) by (apply N.mod_lt; lia).
      unfold escape_u. rewrite E1, E2. cbn [app]. rewrite <- Hj.
      apply scanstring_uu.
      * apply hexval4_hex4; [lia | exact E1].
      * unfold is_high_surrogate. nbool. lia.
      * apply hexval4_hex4; [lia | exact E2].
      * unfold is_low_surrogate. nbool. lia.
Qed.

Lemma scanstring_escape (s rest : text) :
  unicode_text s ->
  scanstring (flat_map escape_char s ++ quote :: rest) = Ok (s, rest).
Proof.
  unfold unicode_text. induction s as [|c s IH]; [reflexivity|].
  cbn [forallb flat_map]. rewrite andb_true_iff. intros [Hc Hs].
  rewrite <- app_assoc, scanstring_escape_char by exact Hc.
  now rewrite IH.
Qed.

Lemma dumps_shape (r : Record_) :
  dumps r
  = 0x7B :: quote :: flat_map escape_char (str "prompt")
    ++ quote :: 0x3A :: 0x20 :: quote :: flat_map escape_char (prompt r)
    ++ quote :: 0x2C :: 0x20 :: quote :: flat_map escape_char (str "response")
    ++ quote :: 0x3A :: 0x20 :: quote :: flat_map escape_char (response r)
    ++ quote :: 0x2C :: 0x20 :: quote :: flat_map escape_char (str "tag")
    ++ quote :: 0x3A :: 0x20 :: quote :: flat_map escape_char (tag r)
    ++ [quote; 0x7D].
Proof.
  unfold dumps, dumps_dict, record_items, encode_basestring_ascii.
  cbn [List.map join fst snd].
  change (str "{") with [0x7B]. change (str "}") with [0x7D].
  change (str ", ") with [0x2C; 0x20]. change (str ": ") with [0x3A; 0x20].
  repeat (progress (rewrite <- ?app_assoc; cbn [app])). reflexivity.
Qed.

Lemma parse_member_str (f : nat) (k v tail : text) (d : list (text * json)) :
  unicode_text k -> unicode_text v ->
  parse_members (S (S f))
    (flat_map escape_char k ++ quote :: 0x3A :: 0x20 :: quote
     :: flat_map escape_char v ++ quote :: tail) d
  = match skip_ws tail with
    | e :: s4 =>
        if e =? 0x7D then Ok (JDict (dict_set k (JStr v) d), s4)
        else if e =? 0x2C then
          match skip_ws s4 with
          | q :: s5 =>
              if q =? quote then parse_members (S f) s5 (dict_set k (JStr v) d)
              else Raise JSONDecodeError
          | [] => Raise JSONDecodeError
          end
        else Raise JSONDecodeError
    | [] => Raise JSONDecodeError
    end.
Proof.
  intros Hk Hv.
  cbn [parse_members]. rewrite scanstring_escape by exact Hk.
  change (skip_ws (0x3A :: 0x20 :: quote :: flat_map escape_char v ++ quote :: tail))
    with (0x3A :: 0x20 :: quote :: flat_map escape_char v ++ quote :: tail).
  change (0x3A =? 0x3A) with true. cbv iota.
  change (skip_ws (0x20 :: quote :: flat_map escape_char v ++ quote :: tail))
    with (quote :: flat_map escape_char v ++ quote :: tail).
  cbn [scan_once]. change (quote =? quote) with true. cbv iota.
  rewrite scanstring_escape by exact Hv. reflexivity.
Qed.

Lemma parse_member_next (f : nat) (k v s5 : text) (d : list (text * json)) :
  unicode_text k -> unicode_text v ->
  parse_members (S (S f))
    (flat_map escape_char k ++ quote :: 0x3A :: 0x20 :: quote
     :: flat_map escape_char v ++ quote :: 0x2C :: 0x20 :: quote :: s5) d
  = parse_members (S f) s5 (dict_set k (JStr v) d).
Proof. intros Hk Hv. now rewrite parse_member_str. Qed.

Lemma parse_member_last (f : nat) (k v rest : text) (d : list (text * json)) :
  unicode_text k -> unicode_text v ->
  parse_members (S (S f))
    (flat_map escape_char k ++ quote :: 0x3A :: 0x20 :: quote
     :: flat_map escape_char v ++ quote :: 0x7D :: rest) d
  = Ok (JDict (dict_set k (JStr v) d), rest).
Proof. intros Hk Hv. now rewrite parse_member_str. Qed.

Lemma scan_once_dumps (r : Record_) (f : nat) (rest : text) :
  unicode_record r ->
  scan_once (5 + f) (dumps r ++ rest) = Ok (to_json r, rest).
Proof.
  intros (Hp & Hr & Ht). rewrite dumps_shape.
  repeat (progress (rewrite <- ?app_assoc; cbn [app])).
  change (scan_once (5 + f) (0x7B :: quote :: ?s))
    with (parse_members (4 + f) s []).
  change (4 + f)%nat with (S (S (2 + f))).
  rewrite parse_member_next by (reflexivity || assumption).
  change (S (2 + f))%nat with (S (S (1 + f))).
  rewrite parse_member_next by (reflexivity || assumption).
  change (S (1 + f))%nat with (S (S f)).
  rewrite parse_member_last by (reflexivity || assumption).
  reflexivity.
Qed.

Lemma dumps_length (r : Record_) (rest : text) :
  exists f, S (2 * List.length (dumps r ++ rest)) = (5 + f)%nat.
Proof.
  exists (2 * List.length (dumps r ++ rest) - 4)%nat.
  rewrite dumps_shape. cbn [app List.length].
  rewrite !length_app. cbn [List.length]. lia.
Qed.

Lemma loads_dumps (r : Record_) (ws : text) :
  unicode_record r -> skip_ws ws = [] ->
  loads (dumps r ++ ws) = Ok (to_json r).
Proof.
  intros Hr Hws. unfold loads.
  destruct (dumps_length r ws) as [f ->].
  replace (skip_ws (dumps r ++ ws)) with (dumps r ++ ws)
    by (now rewrite dumps_shape).
  rewrite scan_once_dumps by exact Hr. now rewrite Hws.
Qed.

(** *** Lines of a saved file *)

Lemma hexdigit_printable (n : N) : n < 16 -> printable (hexdigit n) = true.
Proof. unfold printable, hexdigit. destruct (N.ltb_spec n 10); nbool; lia. Qed.

Lemma escape_u_printable (n : N) : forallb printable (escape_u n) = true.
Proof.
  unfold escape_u, hex4. cbn [forallb].
  rewrite !hexdigit_printable by (apply N.mod_lt; lia). reflexivity.
Qed.

Lemma escape_char_printable (c : N) : forallb printable (escape_char c) = true.
Proof.
  unfold escape_char.
  repeat (match goal with
          | |- context [?x =? ?y] =>
              destruct (N.eqb_spec x y) as [->|?]; [reflexivity|]
          end).
  destruct ((0x20 <=? c) && (c <=? 0x7E)) eqn:H.
  - cbn [forallb]. unfold printable. now rewrite H.
  - destruct (c <? 0x10000); [apply escape_u_printable|].
    rewrite forallb_app, !escape_u_printable. reflexivity.
Qed.

Lemma encode_printable (s : text) :
  forallb printable (flat_map escape_char s) = true.
Proof.
  induction s as [|c s IH]; [reflexivity|].
  cbn [flat_map]. now rewrite forallb_app, escape_char_printable, IH.
Qed.

Lemma dumps_printable (r : Record_) : forallb printable (dumps r) = true.
Proof.
  rewrite dumps_shape. cbn [forallb].
  repeat (rewrite forallb_app, encode_printable; cbn [forallb]).
  reflexivity.
Qed.

Lemma dumps_nonempty (r : Record_) : dumps r <> [].
Proof. rewrite dumps_shape. discriminate. Qed.

Lemma translate_newlines_id (s : text) :
  forallb (fun c => printable c || (c =? newline)) s = true ->
  translate_newlines s = s.
Proof.
  induction s as [|c s IH]; [reflexivity|].
  cbn [forallb translate_newlines]. rewrite andb_true_iff. intros [Hc Hs].
  destruct (N.eqb_spec c 0x0D) as [->|_]; [discriminate|].
  now rewrite IH.
Qed.

Lemma split_keepends_line (x rest : text) :
  forallb printable x = true ->
  split_keepends (x ++ newline :: rest) = (x ++ [newline]) :: split_keepends rest.
Proof.
  induction x as [|c x IH]; [reflexivity|].
  cbn [forallb app split_keepends]. rewrite andb_true_iff. intros [Hc Hx].
  destruct (N.eqb_spec c newline) as [->|_]; [discriminate|].
  now rewrite IH.
Qed.

Lemma split_keepends_last (x : text) :
  forallb printable x = true -> x <> [] -> split_keepends x = [x].
Proof.
  induction x as [|c x IH]; [congruence|]. intros H _.
  cbn [forallb split_keepends] in *. apply andb_true_iff in H as [Hc Hx].
  destruct (N.eqb_spec c newline) as [->|_]; [discriminate|].
  destruct x as [|c' x]; [reflexivity|].
  now rewrite IH.
Qed.

Lemma jsonl_data_chars (pairs : list Record_) :
  forallb (fun c => printable c || (c =? newline)) (jsonl_data pairs) = true.
Proof.
  assert (P : forall r, forallb (fun c => printable c || (c =? newline))
                          (dumps r) = true).
  { intro r. pose proof (dumps_printable r) as H.
    rewrite forallb_forall in *. intros c Hc. now rewrite H. }
  unfold jsonl_data. induction pairs as [|r [|r' l] IH]; [reflexivity| |].
  - apply P.
  - cbn [List.map join] in *. rewrite !forallb_app, P, IH. reflexivity.
Qed.

Lemma mapM_loads_lines (pairs : list Record_) :
  Forall unicode_record pairs ->
  mapM loads (split_keepends (jsonl_data pairs)) = Ok (List.map to_json pairs).
Proof.
  unfold jsonl_data.
  induction pairs as [|r [|r' l] IH]; intro H; [reflexivity| |].
  - cbn [List.map join]. inversion_clear H as [|? ? Hr _].
    rewrite split_keepends_last by (apply dumps_printable || apply dumps_nonempty).
    cbn [mapM]. rewrite <- (app_nil_r (dumps r)) at 1.
    now rewrite loads_dumps.
  - inversion_clear H as [|? ? Hr Hl].
    change (join [newline] (List.map dumps (r :: r' :: l)))
      with (dumps r ++ newline :: join [newline] (List.map dumps (r' :: l))).
    rewrite split_keepends_line by apply dumps_printable.
    cbn [mapM]. rewrite loads_dumps by (auto || reflexivity).
    cbn [bind]. rewrite IH by exact Hl. reflexivity.
Qed.

Lemma load_jsonl (pairs : list Record_) :
  Forall unicode_record pairs ->
  mapM loads (readlines (jsonl_data pairs)) = Ok (List.map to_json pairs).
Proof.
  intro H. unfold readlines.
  rewrite translate_newlines_id by apply jsonl_data_chars.
  now apply mapM_loads_lines.
Qed.

Lemma record_of_to_json (r : Record_) : record_of (to_json r) = Ok r.
Proof. now destruct r. Qed.

Lemma mapM_record_of (pairs : list Record_) :
  mapM record_of (List.map to_json pairs) = Ok pairs.
Proof.
  induction pairs as [|r l IH]; [reflexivity|].
  cbn [List.map mapM]. now rewrite record_of_to_json, IH.
Qed.

(** Why texts are taken to be Unicode text: a Python [str] may also hold
    surrogate code points, and the decoder joins a high surrogate followed
    by a low one into the code point they encode.  Decoded UTF-8 never holds
    such code points. *)
Remark surrogate_pair_is_joined :
  loads (dumps (mkRecord [0xD83D; 0xDE00] [] []))
  = Ok (to_json (mkRecord [0x1F600] [] [])).
Proof. reflexivity. Qed.

(** ** Comparator: proofs *)

Lemma is_prefix_spec (a b : text) :
  is_prefix a b = true <-> exists post, b = a ++ post.
Proof.
  revert b. induction a as [|x a IH]; intro b.
  - simpl. split; [now exists b | auto].
  - destruct b as [|y b]; simpl.
    + split; [discriminate | intros [post [=]]].
    + rewrite andb_true_iff, N.eqb_eq, IH. split.
      * intros [-> [post ->]]. now exists post.
      * intros [post [= -> ->]]. split; [auto | now exists post].
Qed.

Lemma contains_spec (needle hay : text) :
  contains needle hay = true <-> occurs_in needle hay.
Proof.
  unfold occurs_in. induction hay as [|c hay IH].
  - simpl. rewrite orb_false_r, is_prefix_spec. split.
    + intros [post ->]. now exists [], post.
    + intros (pre & post & H). destruct pre; [now exists post|discriminate].
  - cbn [contains]. rewrite orb_true_iff, is_prefix_spec, IH. split.
    + intros [[post ->] | (pre & post & ->)].
      * now exists [], post.
      * now exists (c :: pre), post.
    + intros (pre & post & H). destruct pre as [|x pre].
      * left. now exists post.
      * right. injection H as -> ->. now exists pre, post.
Qed.

Section ComparatorProofs.

Context (U : UnicodeData).

Lemma entry_matches_record (keyword tag_filter : text) (r : Record_) :
  entry_matches U keyword tag_filter (to_json r)
  = Ok (keeps U keyword tag_filter r).
Proof.
  unfold entry_matches, keeps, field_has.
  change (subscript (to_json r) (str "prompt")) with (Ok (JStr (prompt r))).
  change (subscript (to_json r) (str "response")) with (Ok (JStr (response r))).
  change (subscript (to_json r) (str "tag")) with (Ok (JStr (tag r))).
  cbn [bind lower_of].
  destruct (contains keyword (lower U (prompt r))); cbn [bind orb andb].
  - now destruct (nonempty tag_filter).
  - destruct (contains keyword (lower U (response r))); cbn [bind orb andb];
      [now destruct (nonempty tag_filter)|reflexivity].
Qed.

Lemma filterM_records (keyword tag_filter : text) (rs : list Record_) :
  filterM (entry_matches U keyword tag_filter) (List.map to_json rs)
  = Ok (List.map to_json (List.filter (keeps U keyword tag_filter) rs)).
Proof.
  induction rs as [|r rs IH]; [reflexivity|].
  cbn [List.map filterM List.filter].
  rewrite entry_matches_record, IH. cbn [bind].
  now destruct (keeps U keyword tag_filter r).
Qed.

End ComparatorProofs.

Lemma load_ok_inv (d : Disk) (v : text) (data : list json) :
  load d v = Ok data ->
  exists c, versioned_datasets d !! v = Some c
            /\ mapM loads (readlines c) = Ok data.
Proof.
  unfold load. destruct (versioned_datasets d !! v) as [c|]; [|discriminate].
  intro H. now exists c.
Qed.

Lemma highlight_value_str (s word : text) :
  highlight_value (JStr s) word = Ok (JStr (highlight s word)).
Proof. now destruct word. Qed.

Lemma shown_record (keyword : text) (r : Record_) :
  shown keyword (to_json r)
  = Ok (JStr (highlight (prompt r) keyword),
        JStr (highlight (response r) keyword), JStr (tag r)).
Proof.
  unfold shown.
  change (subscript (to_json r) (str "prompt")) with (Ok (JStr (prompt r))).
  change (subscript (to_json r) (str "response")) with (Ok (JStr (response r))).
  change (subscript (to_json r) (str "tag")) with (Ok (JStr (tag r))).
  cbn [bind]. rewrite !highlight_value_str. reflexivity.
Qed.

Lemma show_file_records (labels : list (text * json)) (v keyword : text)
    (rs : list Record_) :
  exists x, show_file (JDict labels) v keyword (List.map to_json rs) = Ok x.
Proof.
  unfold show_file. cbn [label_of bind].
  assert (H : exists rows, mapM (shown keyword) (List.map to_json rs) = Ok rows).
  { induction rs as [|r rs (rows & IH)]; [now exists []|].
    cbn [List.map mapM]. rewrite shown_record, IH. cbn [bind]. eauto. }
  destruct H as (rows & ->). cbn [bind]. eauto.
Qed.

(** On two sequences of records and with a label store that is a dict,
    nothing raises: the outcome is the two filtered sequences. *)
Lemma compare_loaded_records (U : UnicodeData) (labels : list (text * json))
    (v1 v2 keyword tag_filter : text) (rs1 rs2 : list Record_) :
  compare_loaded U (JDict labels) v1 v2 keyword tag_filter
    (List.map to_json rs1) (List.map to_json rs2)
  = Compared
      (List.map to_json (List.filter (keeps U keyword tag_filter) rs1))
      (List.map to_json (List.filter (keeps U keyword tag_filter) rs2))
      (List.length (List.filter (keeps U keyword tag_filter) rs1))
      (List.length (List.filter (keeps U keyword tag_filter) rs2))
      (List.length (List.filter (keeps U keyword tag_filter) rs1)
       + List.length (List.filter (keeps U keyword tag_filter) rs2))
      (List.map to_json
         (List.filter (keeps U keyword tag_filter) rs1
          ++ List.filter (keeps U keyword tag_filter) rs2)).
Proof.
  unfold compare_loaded. rewrite !filterM_records.
  destruct (show_file_records labels v1 keyword
              (List.filter (keeps U keyword tag_filter) rs1)) as [x1 ->].
  destruct (show_file_records labels v2 keyword
              (List.filter (keeps U keyword tag_filter) rs2)) as [x2 ->].
  now rewrite !length_map, map_app.
Qed.

(** When the guard of line 96 holds and both files load, the comparison is
    the one of the two loaded sequences. *)
Lemma compare_performed (U : UnicodeData) (d : Disk) (version_labels : json)
    (v1 v2 keyword_input tag_filter_input : text) (data1 data2 : list json) :
  (2 <= size (versioned_datasets d))%nat ->
  v1 <> v2 -> lower U keyword_input <> [] ->
  load d v1 = Ok data1 -> load d v2 = Ok data2 ->
  compare U d version_labels v1 v2 keyword_input tag_filter_input
  = compare_loaded U version_labels v1 v2
      (lower U keyword_input) (lower U tag_filter_input) data1 data2.
Proof.
  intros Hsize Hv Hk H1 H2.
  apply load_ok_inv in H1 as (c1 & L1 & M1).
  apply load_ok_inv in H2 as (c2 & L2 & M2).
  unfold compare.
  destruct (Nat.ltb_spec (size (versioned_datasets d)) 2) as [L|_]; [lia|].
  destruct (text_eqb v1 v2) eqn:E; [now apply text_eqb_eq in E|].
  destruct (lower U keyword_input) as [|c k] eqn:Ek; [congruence|].
  cbn [negb andb nonempty]. now rewrite L1, L2, M1, M2.
Qed.

(** *** Case-insensitive occurrence and [str.lower] *)

Lemma ascii_lower_same_letter (a b : N) :
  ascii_lower a = ascii_lower b <-> same_letter a b.
Proof.
  unfold ascii_lower, ascii_isupper, same_letter.
  destruct ((0x41 <=? a) && (a <=? 0x5A)) eqn:Ha;
    destruct ((0x41 <=? b) && (b <=? 0x5A)) eqn:Hb; nbool; lia.
Qed.

Lemma map_lower_same_letters (n m : text) :
  List.map ascii_lower n = List.map ascii_lower m <-> Forall2 same_letter n m.
Proof.
  revert m. induction n as [|a n IH]; intros [|b m]; cbn [List.map].
  - split; [constructor | reflexivity].
  - split; [discriminate | intro H; inversion H].
  - split; [discriminate | intro H; inversion H].
  - split.
    + intros [= H1 H2]. constructor; [now apply ascii_lower_same_letter|].
      now apply IH.
    + intro H. inversion H as [|? ? ? ? H1 H2]; subst.
      apply ascii_lower_same_letter in H1. apply IH in H2. congruence.
Qed.

Lemma contains_lower_ci (needle hay : text) :
  contains (List.map ascii_lower needle) (List.map ascii_lower hay) = true
  <-> ci_occurs needle hay.
Proof.
  rewrite contains_spec. unfold occurs_in, ci_occurs. split.
  - intros (pre & post & E).
    apply map_eq_app in E as (p & rest & -> & <- & E).
    apply map_eq_app in E as (m & q & -> & E & <-).
    exists p, m, q. split; [reflexivity|].
    apply map_lower_same_letters. now symmetry.
  - intros (pre & m & post & -> & H).
    apply map_lower_same_letters in H.
    exists (List.map ascii_lower pre), (List.map ascii_lower post).
    now rewrite !List.map_app, H.
Qed.

Lemma lower_ascii (U : UnicodeData) (s : text) :
  ascii_text s -> lower U s = List.map ascii_lower s.
Proof. unfold ascii_text, lower. now intros ->. Qed.

Lemma keeps_ascii_spec (U : UnicodeData) (keyword_input tag_filter_input : text)
    (r : Record_) :
  ascii_text keyword_input -> ascii_text tag_filter_input -> ascii_record r ->
  (keeps U (lower U keyword_input) (lower U tag_filter_input) r = true
   <-> keeps_spec keyword_input tag_filter_input r).
Proof.
  intros Hk Ht (Hp & Hq & Hg). unfold keeps, keeps_spec.
  rewrite !lower_ascii by assumption.
  rewrite andb_true_iff, orb_true_iff, !contains_lower_ci.
  apply and_iff_compat_l.
  destruct tag_filter_input as [|c l]; cbn [List.map nonempty].
  - split; [intros _ H; congruence | reflexivity].
  - rewrite (contains_lower_ci (c :: l)). split; [auto|].
    intro H. apply H. discriminate.
Qed.

Lemma keeps_occurs (U : UnicodeData) (keyword tag_filter : text) (r : Record_) :
  keeps U keyword tag_filter r = true
  <-> (occurs_in keyword (lower U (prompt r))
       \/ occurs_in keyword (lower U (response r)))
      /\ (tag_filter <> [] -> occurs_in tag_filter (lower U (tag r))).
Proof.
  unfold keeps. rewrite andb_true_iff, orb_true_iff, !contains_spec.
  apply and_iff_compat_l.
  destruct tag_filter as [|c l]; cbn [nonempty].
  - split; [intros _ H; congruence | reflexivity].
  - rewrite contains_spec. split; [auto|]. intro H. apply H. discriminate.
Qed.

(** C9 as worded fails beyond ASCII: the keyword is searched after
    [str.lower] on both sides, and lower-casing depends on the
    neighbours.  The keyword capital sigma occurs, as it stands, in the
    prompt omicron-delta-omicron-sigma, but the record is dropped: in the
    prompt the sigma is lower-cased to the final sigma, in the keyword to
    the ordinary one. *)
Lemma lower_case_search_misses_final_sigma :
  let r := mkRecord [0x39F; 0x394; 0x39F; 0x3A3] (str "x") (str "t") in
  occurs_in [0x3A3] (prompt r)
  /\ keeps_spec [0x3A3] [] r
  /\ lower greek (prompt r) = [0x3BF; 0x3B4; 0x3BF; 0x3C2]
  /\ lower greek [0x3A3] = [0x3C3]
  /\ keeps greek (lower greek [0x3A3]) (lower greek []) r = false
  /\ compare_loaded greek (JDict []) (str "a") (str "b")
       (lower greek [0x3A3]) (lower greek []) [to_json r] []
     = Compared [] [] 0 0 0 [].
Proof.
  intro r.
  assert (O : occurs_in [0x3A3] (prompt r))
    by (now exists [0x39F; 0x394; 0x39F], []).
  split; [exact O|]. split; [|repeat split; reflexivity].
  split; [|congruence]. left.
  exists [0x39F; 0x394; 0x39F], [0x3A3], []. split; [reflexivity|].
  constructor; [now left | constructor].
Qed.

(** C9 (amended): each loaded sequence is filtered on its own, a record
    being kept exactly when the lower-cased keyword occurs in its
    lower-cased prompt or response and, if the lower-cased tag filter is not
    empty, that filter occurs in its lower-cased tag.  For a keyword, a
    filter and fields of ASCII characters this is case-insensitive
    occurrence: some substring is the keyword up to the case of its
    letters.  The counts are the lengths of the two filtered sequences and
    the combined sequence is the first file's matches followed by the
    second's; this is the outcome of [compare] whenever its guard holds
    and the two files load to the two sequences.  A prompt ["Hello World"]
    matches the keyword ["hello"]. *)
Theorem compare_filters_case_insensitively (U : UnicodeData)
    (labels : list (text * json))
    (v1 v2 keyword_input tag_filter_input : text) (rs1 rs2 : list Record_) :
  exists keep : Record_ -> bool,
    let expected :=
      Compared (List.map to_json (List.filter keep rs1))
        (List.map to_json (List.filter keep rs2))
        (List.length (List.filter keep rs1))
        (List.length (List.filter keep rs2))
        (List.length (List.filter keep rs1)
         + List.length (List.filter keep rs2))
        (List.map to_json (List.filter keep rs1 ++ List.filter keep rs2)) in
    (forall r,
       keep r = true
       <-> (occurs_in (lower U keyword_input) (lower U (prompt r))
            \/ occurs_in (lower U keyword_input) (lower U (response r)))
           /\ (lower U tag_filter_input <> [] ->
               occurs_in (lower U tag_filter_input) (lower U (tag r))))
    /\ (ascii_text keyword_input -> ascii_text tag_filter_input ->
        forall r, ascii_record r ->
                  (keep r = true
                   <-> keeps_spec keyword_input tag_filter_input r))
    /\ compare_loaded U (JDict labels) v1 v2
         (lower U keyword_input) (lower U tag_filter_input)
         (List.map to_json rs1) (List.map to_json rs2)
       = expected
    /\ (forall d,
          (2 <= size (versioned_datasets d))%nat ->
          v1 <> v2 -> lower U keyword_input <> [] ->
          load d v1 = Ok (List.map to_json rs1) ->
          load d v2 = Ok (List.map to_json rs2) ->
          compare U d (JDict labels) v1 v2 keyword_input tag_filter_input
          = expected)
    /\ (forall resp tg, ascii_text resp -> ascii_text tg ->
          keeps_spec (str "hello") []
            (mkRecord (str "Hello World") resp tg))
    /\ (forall resp tg,
          entry_matches U (lower U (str "hello")) (lower U [])
            (to_json (mkRecord (str "Hello World") resp tg)) = Ok true).
Proof.
  exists (keeps U (lower U keyword_input) (lower U tag_filter_input)).
  cbv zeta. split; [intro r; apply keeps_occurs|].
  split; [intros Hk Ht r Hr; now apply keeps_ascii_spec|].
  split; [apply compare_loaded_records|]. split; [|split].
  - intros d Hsize Hv Hk H1 H2.
    rewrite <- (compare_loaded_records U labels v1 v2).
    now apply compare_performed.
  - intros resp tg _ _. split; [|congruence]. left.
    exists [], (str "Hello"), (str " World"). split; [reflexivity|].
    change (str "hello") with [0x68; 0x65; 0x6C; 0x6C; 0x6F].
    change (str "Hello") with [0x48; 0x65; 0x6C; 0x6C; 0x6F].
    constructor; [right; right; split; [lia | reflexivity]|].
    repeat (constructor; [now left|]). constructor.
  - intros resp tg. rewrite entry_matches_record. reflexivity.
Qed.

Lemma compare_filters_case_insensitively_witness :
  let r1 := mkRecord (str "Hello World") (str "y") (str "t") in
  let r2 := mkRecord (str "x") (str "say hello") (str "t") in
  let r3 := mkRecord (str "x") (str "y") (str "t") in
  let d := mkDisk ∅ (<[str "b.jsonl" := jsonl_data [r2; r3]]>
                       (<[str "a.jsonl" := jsonl_data [r1]]> ∅)) in
  ((2 <= size (versioned_datasets d))%nat
   /\ str "a.jsonl" <> str "b.jsonl"
   /\ lower ascii_only (str "Hello") <> []
   /\ load d (str "a.jsonl") = Ok (List.map to_json [r1])
   /\ load d (str "b.jsonl") = Ok (List.map to_json [r2; r3]))
  /\ compare ascii_only d (JDict []) (str "a.jsonl") (str "b.jsonl")
       (str "Hello") []
     = Compared [to_json r1] [to_json r2] 1 1 2 [to_json r1; to_json r2].
Proof.
  intros r1 r2 r3 d.
  assert (H1 : (2 <= size (versioned_datasets d))%nat)
    by (vm_compute; lia).
  assert (H2 : str "a.jsonl" <> str "b.jsonl") by discriminate.
  assert (H3 : lower ascii_only (str "Hello") <> []) by discriminate.
  assert (H4 : load d (str "a.jsonl") = Ok (List.map to_json [r1]))
    by (vm_compute; reflexivity).
  assert (H5 : load d (str "b.jsonl") = Ok (List.map to_json [r2; r3]))
    by (vm_compute; reflexivity).
  split; [tauto|].
  destruct (compare_filters_case_insensitively ascii_only [] (str "a.jsonl")
              (str "b.jsonl") (str "Hello") [] [r1] [r2; r3])
    as (keep & _ & _ & E & Hc & _).
  rewrite (Hc d H1 H2 H3 H4 H5), <- E. reflexivity.
Defined.

(** C8: with the same file name selected twice no comparison is performed
    and nothing is returned; a comparison is performed only for two
    distinct file names. *)
Theorem compare_same_file_not_performed (U : UnicodeData) (d : Disk)
    (version_labels : json) (v1 v2 keyword_input tag_filter_input : text) :
  performed (compare U d version_labels v1 v1 keyword_input tag_filter_input)
  = false
  /\ (performed
        (compare U d version_labels v1 v2 keyword_input tag_filter_input)
      = true ->
      v1 <> v2).
Proof.
  split.
  - unfold compare.
    destruct (size (versioned_datasets d) <? 2)%nat; [reflexivity|].
    replace (text_eqb v1 v1) with true
      by (symmetry; now apply text_eqb_eq).
    reflexivity.
  - intros H ->. revert H. unfold compare.
    destruct (size (versioned_datasets d) <? 2)%nat; [discriminate|].
    replace (text_eqb v2 v2) with true
      by (symmetry; now apply text_eqb_eq).
    discriminate.
Qed.

Lemma compare_same_file_not_performed_witness :
  let d := mkDisk ∅ (<[str "b.jsonl" := dumps (mkRecord (str "x") (str "y") (str "t"))]>
                       (<[str "a.jsonl" := dumps (mkRecord (str "Hello") (str "y") (str "t"))]> ∅)) in
  performed (compare ascii_only d (JDict []) (str "a.jsonl") (str "b.jsonl")
               (str "hello") []) = true
  /\ str "a.jsonl" <> str "b.jsonl".
Proof.
  intro d.
  assert (H : performed (compare ascii_only d (JDict []) (str "a.jsonl")
                           (str "b.jsonl") (str "hello") []) = true)
    by (vm_compute; reflexivity).
  split; [exact H|].
  exact (proj2 (compare_same_file_not_performed ascii_only d (JDict [])
                  (str "a.jsonl") (str "b.jsonl") (str "hello") []) H).
Defined.

(** ** JSON: the decoder never runs out of fuel *)

Lemma shrinks_le {A} (r : result (A * text)) (s s' : text) :
  shrinks r s' -> (List.length s' <= List.length s)%nat -> shrinks r s.
Proof. destruct r as [[v rest]|e]; simpl; [lia|auto]. Qed.

Lemma shrinks_cons_res (c : N) (s s' : text) :
  shrinks (scanstring s') s' -> (List.length s' <= List.length s)%nat ->
  shrinks (cons_res c (scanstring s')) s.
Proof. destruct (scanstring s') as [[t rest]|e]; simpl; [lia|auto]. Qed.

Lemma skip_ws_length (s : text) :
  (List.length (skip_ws s) <= List.length s)%nat.
Proof.
  induction s as [|c s IH]; simpl; [lia|].
  destruct (is_json_ws c); simpl; lia.
Qed.

Lemma scanstring_shrinks (s : text) : shrinks (scanstring s) s.
Proof.
  assert (H : forall n s, (List.length s <= n)%nat -> shrinks (scanstring s) s).
  { clear s. induction n as [|n IH]; intros s Hn.
    - destruct s; [reflexivity | simpl in Hn; lia].
    - destruct s as [|c s1]; [reflexivity|]. cbn [scanstring].
      repeat (match goal with
              | |- shrinks (if ?b then _ else _) _ => destruct b
              | |- shrinks (match ?x with [] => _ | _ :: _ => _ end) _ =>
                  destruct x
              | |- shrinks (match ?x with Some _ => _ | None => _ end) _ =>
                  destruct x
              | |- shrinks (Raise _) _ => reflexivity
              | |- shrinks (Ok _) _ => simpl; lia
              | |- shrinks (cons_res _ _) _ =>
                  apply shrinks_cons_res; [apply IH|]; simpl in *; lia
              end). }
  now apply (H (List.length s)).
Qed.

Lemma strip_prefix_length (lit s r : text) :
  strip_prefix lit s = Some r ->
  List.length s = (List.length lit + List.length r)%nat.
Proof.
  revert s. induction lit as [|a lit IH]; intros s; simpl.
  - now intros [= ->].
  - destruct s as [|b s]; [discriminate|].
    destruct (a =? b); [|discriminate]. intro H. apply IH in H. simpl. lia.
Qed.

Lemma match_constant_shrinks (s : text) (v : json) (r : text) :
  match_constant s = Some (v, r) -> (List.length r < List.length s)%nat.
Proof.
  unfold match_constant.
  repeat (match goal with
          | |- context [strip_prefix ?l s] =>
              let E := fresh "E" in
              destruct (strip_prefix l s) eqn:E;
              [apply strip_prefix_length in E; intros [= _ <-];
               rewrite E; simpl; lia|]
          end).
  discriminate.
Qed.

Lemma span_digits_length (s d r : text) :
  span_digits s = (d, r) -> (List.length r <= List.length s)%nat.
Proof.
  revert d r. induction s as [|c s IH]; intros d r; simpl.
  - intros [= _ <-]. simpl. lia.
  - destruct (ascii_isdigit c).
    + destruct (span_digits s) as [d' r'] eqn:E. intros [= _ <-].
      specialize (IH _ _ eq_refl). lia.
    + intros [= _ <-]. simpl. lia.
Qed.

Lemma match_int_shrinks (s ip r : text) :
  match_int s = Some (ip, r) -> (List.length r < List.length s)%nat.
Proof.
  unfold match_int. destruct s as [|c s]; [discriminate|].
  destruct (c =? 0x30); [intros [= _ <-]; simpl; lia|].
  destruct (ascii_isdigit c); [|discriminate].
  destruct (span_digits s) as [d' r'] eqn:E. intros [= _ <-].
  apply span_digits_length in E. simpl. lia.
Qed.

Lemma match_frac_length (s fp r : text) :
  match_frac s = (fp, r) -> (List.length r <= List.length s)%nat.
Proof.
  unfold match_frac. destruct s as [|c s]; [intros [= _ <-]; lia|].
  destruct (c =? 0x2E); [|intros [= _ <-]; lia].
  destruct (span_digits s) as [[|x d'] r'] eqn:E; intros [= _ <-];
    [lia|]. apply span_digits_length in E. simpl. lia.
Qed.

Lemma match_exp_length (s ep r : text) :
  match_exp s = (ep, r) -> (List.length r <= List.length s)%nat.
Proof.
  unfold match_exp. destruct s as [|c s]; [intros [= _ <-]; lia|].
  destruct ((c =? 0x65) || (c =? 0x45)); [|intros [= _ <-]; lia].
  assert (H : forall sign s'',
             (List.length s'' <= List.length s)%nat ->
             (let (d, r0) := span_digits s'' in
              match d with
              | [] => ([], c :: s)
              | _ :: _ => (c :: sign ++ d, r0)
              end) = (ep, r) -> (List.length r <= List.length (c :: s))%nat).
  { intros sign s'' Hl.
    destruct (span_digits s'') as [[|x d'] r'] eqn:E; intros [= _ <-];
      [lia|]. apply span_digits_length in E. simpl. lia. }
  destruct s as [|g t]; [apply (H [] []); simpl; lia|].
  destruct ((g =? 0x2D) || (g =? 0x2B));
    [apply (H [g] t) | apply (H [] (g :: t))]; simpl; lia.
Qed.

Lemma match_number_shrinks (s : text) (v : json) (r : text) :
  match_number s = Some (v, r) -> (List.length r < List.length s)%nat.
Proof.
  unfold match_number.
  assert (H : forall neg s0,
            (List.length s0 <= List.length s)%nat ->
            match match_int s0 with
            | Some (ip, s1) =>
                let (fp, s2) := match_frac s1 in
                let (ep, s3) := match_exp s2 in
                match fp with
                | [] =>
                    match ep with
                    | [] =>
                        let v := digits_value 0 ip in
                        Some (JInt (if neg : bool then (- v)%Z else v), s3)
                    | _ :: _ =>
                        Some (JFloat ((if neg then [45] else []) ++ ip ++ fp ++ ep), s3)
                    end
                | _ :: _ =>
                    Some (JFloat ((if neg then [45] else []) ++ ip ++ fp ++ ep), s3)
                end
            | None => None
            end = Some (v, r) -> (List.length r < List.length s)%nat).
  { intros neg s0 Hl.
    destruct (match_int s0) as [[ip s1]|] eqn:E1; [|discriminate].
    destruct (match_frac s1) as [fp s2] eqn:E2.
    destruct (match_exp s2) as [ep s3] eqn:E3.
    apply match_int_shrinks in E1. apply match_frac_length in E2.
    apply match_exp_length in E3.
    destruct fp, ep; intros [= _ <-]; lia. }
  destruct s as [|c s']; [apply (H false []); simpl; lia|].
  destruct (c =? 0x2D); [apply (H true s') | apply (H false (c :: s'))];
    simpl; lia.
Qed.

Lemma scan_fuel_enough (f : nat) :
  (forall s, (2 * List.length s < f)%nat -> shrinks (scan_once f s) s)
  /\ (forall s d, (2 * List.length s + 2 <= f)%nat ->
                  shrinks (parse_members f s d) s)
  /\ (forall s acc, (2 * List.length s + 2 <= f)%nat ->
                    shrinks (parse_elements f s acc) s).
Proof.
  induction f as [|f (IH1 & IH2 & IH3)].
  - repeat split; intros; lia.
  - split; [|split].
    + intros s Hf. destruct s as [|c s']; [reflexivity|]. cbn [scan_once].
      destruct (c =? quote).
      { pose proof (scanstring_shrinks s') as H.
        destruct (scanstring s') as [[t rest]|e]; simpl in *; [lia|auto]. }
      destruct (c =? 0x7B).
      { pose proof (skip_ws_length s') as H.
        destruct (skip_ws s') as [|d0 s'']; [reflexivity|]. simpl in H, Hf.
        destruct (d0 =? 0x7D); [simpl; lia|].
        destruct (d0 =? quote); [|reflexivity].
        eapply shrinks_le; [apply IH2|]; simpl; lia. }
      destruct (c =? 0x5B).
      { pose proof (skip_ws_length s') as H.
        destruct (skip_ws s') as [|d0 s'']; [reflexivity|]. simpl in H, Hf.
        destruct (d0 =? 0x5D); [simpl; lia|].
        eapply shrinks_le; [apply IH3|]; simpl; lia. }
      destruct (match_constant (c :: s')) as [[v r]|] eqn:E.
      { apply match_constant_shrinks in E. exact E. }
      destruct (match_number (c :: s')) as [[v r]|] eqn:E'; [|reflexivity].
      apply match_number_shrinks in E'. exact E'.
    + intros s d Hf. cbn [parse_members].
      pose proof (scanstring_shrinks s) as H.
      destruct (scanstring s) as [[key s1]|e]; [|exact H]. simpl in H.
      pose proof (skip_ws_length s1) as H1.
      destruct (skip_ws s1) as [|c s2]; [reflexivity|]. simpl in H1.
      destruct (c =? 0x3A); [|reflexivity].
      pose proof (skip_ws_length s2) as H2.
      assert (H3 : shrinks (scan_once f (skip_ws s2)) (skip_ws s2))
        by (apply IH1; lia).
      destruct (scan_once f (skip_ws s2)) as [[v s3]|e]; [|exact H3].
      simpl in H3.
      pose proof (skip_ws_length s3) as H4.
      destruct (skip_ws s3) as [|e s4]; [reflexivity|]. simpl in H4.
      destruct (e =? 0x7D); [simpl; lia|].
      destruct (e =? 0x2C); [|reflexivity].
      pose proof (skip_ws_length s4) as H5.
      destruct (skip_ws s4) as [|q s5]; [reflexivity|]. simpl in H5.
      destruct (q =? quote); [|reflexivity].
      eapply shrinks_le; [apply IH2|]; lia.
    + intros s acc Hf. cbn [parse_elements].
      assert (H : shrinks (scan_once f s) s) by (apply IH1; lia).
      destruct (scan_once f s) as [[v s1]|e]; [|exact H]. simpl in H.
      pose proof (skip_ws_length s1) as H1.
      destruct (skip_ws s1) as [|e s2]; [reflexivity|]. simpl in H1.
      destruct (e =? 0x5D); [simpl; lia|].
      destruct (e =? 0x2C); [|reflexivity].
      pose proof (skip_ws_length s2) as H2.
      eapply shrinks_le; [apply IH3|]; lia.
Qed.

(** [json.loads] in the model raises nothing but a decode error. *)
Lemma loads_raises (s : text) (e : exn) :
  loads s = Raise e -> e = JSONDecodeError.
Proof.
  unfold loads.
  pose proof (skip_ws_length s) as H.
  assert (H' : shrinks (scan_once (S (2 * List.length s)) (skip_ws s))
                 (skip_ws s))
    by (apply scan_fuel_enough; lia).
  destruct (scan_once (S (2 * List.length s)) (skip_ws s)) as [[v rest]|e'].
  - destruct (skip_ws rest); [discriminate|now intros [= <-]].
  - simpl in H'. now intros [= <-].
Qed.

(** ** DatasetStore: loading *)

Section MapM.

Context {A B : Type} (f : A -> result B).

Lemma mapM_raise (l : list A) (e : exn) :
  mapM f l = Raise e -> exists x, In x l /\ f x = Raise e.
Proof.
  induction l as [|x l IH]; [discriminate|]. cbn [mapM].
  destruct (f x) as [y|e'] eqn:E; cbn [bind].
  - destruct (mapM f l) as [ys|e'']; cbn [bind]; [discriminate|].
    intros [= ->]. destruct (IH eq_refl) as (x' & Hin & Hx).
    exists x'. split; [now right | exact Hx].
  - intros [= ->]. exists x. split; [now left | exact E].
Qed.

Lemma mapM_ok (l : list A) :
  (forall x, In x l -> exists y, f x = Ok y) ->
  exists ys, mapM f l = Ok ys /\ Forall2 (fun x y => f x = Ok y) l ys.
Proof.
  induction l as [|x l IH]; intro H.
  - exists []. split; [reflexivity | constructor].
  - destruct (H x) as [y Hy]; [now left|].
    destruct IH as (ys & Hys & HF); [intros; apply H; now right|].
    exists (y :: ys). cbn [mapM]. rewrite Hy, Hys. split; [reflexivity|].
    now constructor.
Qed.

Lemma mapM_in_raise (l : list A) (x : A) (e : exn) :
  In x l -> f x = Raise e -> exists e', mapM f l = Raise e'.
Proof.
  induction l as [|y l IH]; [intros []|]. intros [->|Hin] Hx; cbn [mapM].
  - rewrite Hx. now exists e.
  - destruct (f y) as [z|e']; cbn [bind]; [|now exists e'].
    destruct (IH Hin Hx) as [e' ->]. now exists e'.
Qed.

End MapM.

Lemma load_raises (d : Disk) (v content : text) (e : exn) :
  versioned_datasets d !! v = Some content ->
  load d v = Raise e -> e = JSONDecodeError.
Proof.
  unfold load. intros -> H. apply mapM_raise in H as (line & _ & H).
  now apply loads_raises in H.
Qed.




(** ** Scrubber: the worked example *)

(** C3: on the example sentence the output contains each of the four
    placeholders exactly once, the name first, then the phone number, the
    e-mail address and the date. *)
Theorem scrub_text_example (U : UnicodeData) :
  let out :=
    scrub_text U
      (str "Call John Smith at 555-123-4567 or john@example.com on 4/5/2023") in
  out = str "[REDACTED_NAME] Smith at [REDACTED_PHONE] or [REDACTED_EMAIL] on [REDACTED_DATE]"
  /\ occurrences REDACTED_NAME out = 1%nat
  /\ occurrences REDACTED_PHONE out = 1%nat
  /\ occurrences REDACTED_EMAIL out = 1%nat
  /\ occurrences REDACTED_DATE out = 1%nat
  /\ exists i j k l,
       find REDACTED_NAME out = Some i /\ find REDACTED_PHONE out = Some j
       /\ find REDACTED_EMAIL out = Some k /\ find REDACTED_DATE out = Some l
       /\ (i < j < k)%nat /\ (k < l)%nat.
Proof.
  assert (E : scrub_text U
      (str "Call John Smith at 555-123-4567 or john@example.com on 4/5/2023")
    = str "[REDACTED_NAME] Smith at [REDACTED_PHONE] or [REDACTED_EMAIL] on [REDACTED_DATE]")
    by (vm_compute; reflexivity).
  cbv zeta. rewrite E.
  repeat (split; [vm_compute; reflexivity|]).
  exists 0%nat, 25%nat, 45%nat, 65%nat. vm_compute. repeat split; lia.
Qed.

(** ** Regular expressions: the engine against the language *)

Section Engine.

Context (U : UnicodeData).

Lemma within_count_run (cls : cclass) (hi : option nat) (s : text) :
  within hi (count_run U cls hi s)
  /\ (count_run U cls hi s <= List.length s)%nat
  /\ forallb (class_mem U cls) (firstn (count_run U cls hi s) s) = true.
Proof.
  revert hi. induction s as [|c s IH]; intro hi.
  - destruct hi; simpl; repeat split; lia.
  - cbn [count_run]. destruct (class_mem U cls c) eqn:E.
    + destruct hi as [[|h]|].
      * simpl. repeat split; lia.
      * destruct (IH (Some h)) as (H1 & H2 & H3).
        cbn [within List.length firstn forallb] in *. rewrite E, H3.
        repeat split; lia.
      * destruct (IH None) as (H1 & H2 & H3).
        cbn [within List.length firstn forallb] in *. rewrite E, H3.
        repeat split; lia.
    + destruct hi; simpl; repeat split; lia.
Qed.

Lemma count_run_max (cls : cclass) (hi : option nat) (s : text) (k : nat) :
  within hi k -> (k <= List.length s)%nat ->
  forallb (class_mem U cls) (firstn k s) = true ->
  (k <= count_run U cls hi s)%nat.
Proof.
  revert hi k. induction s as [|c s IH]; intros hi k Hw Hl Hf.
  - simpl in Hl. lia.
  - destruct k as [|k]; [lia|].
    cbn [firstn forallb List.length] in *.
    apply andb_true_iff in Hf as [Hc Hf]. cbn [count_run]. rewrite Hc.
    destruct hi as [[|h]|]; cbn [within] in Hw; [lia| |].
    + apply le_n_S, IH; [simpl; lia | lia | exact Hf].
    + apply le_n_S, IH; [exact I | lia | exact Hf].
Qed.

Lemma forallb_firstn_le {A} (f : A -> bool) (s : list A) (k r : nat) :
  (k <= r)%nat -> forallb f (firstn r s) = true ->
  forallb f (firstn k s) = true.
Proof.
  revert k r. induction s as [|c s IH]; intros k r Hk H.
  - now rewrite firstn_nil.
  - destruct k as [|k]; [reflexivity|]. destruct r as [|r]; [lia|].
    cbn [firstn forallb] in *. apply andb_true_iff in H as [-> H].
    apply (IH k r); [lia | exact H].
Qed.

Lemma backtrack_some (k lo : nat) (try : nat -> option nat) (n : nat) :
  (lo <= k)%nat -> backtrack k lo try = Some n ->
  exists j, (lo <= j <= k)%nat /\ try j = Some n.
Proof.
  induction k as [|k IH]; intro Hk; cbn [backtrack].
  - destruct (try 0%nat) eqn:E; [|discriminate].
    intros [= <-]. exists 0%nat. split; [lia | exact E].
  - destruct (try (S k)) eqn:E.
    + intros [= <-]. exists (S k). split; [lia | exact E].
    + destruct (Nat.leb_spec lo k) as [L|L]; [|discriminate].
      intro H. destruct (IH L H) as (j & Hj & Hj'). exists j. split; [lia|auto].
Qed.

Lemma backtrack_complete (k lo : nat) (try : nat -> option nat) (j n : nat) :
  (lo <= j <= k)%nat -> try j = Some n ->
  exists n', backtrack k lo try = Some n'.
Proof.
  induction k as [|k IH]; intros Hj E; cbn [backtrack].
  - replace j with 0%nat in E by lia. rewrite E. eauto.
  - destruct (try (S k)) eqn:E'; [eauto|].
    destruct (Nat.eq_dec j (S k)) as [->|Hne]; [congruence|].
    destruct (Nat.leb_spec lo k) as [L|L]; [|lia].
    apply IH; [lia | exact E].
Qed.

(** Whatever the engine returns is a match. *)
Lemma match_here_sound (p : regex) (prev : option N) (s : text) (n : nat) :
  match_here U p prev s = Some n -> matches U p prev s n.
Proof.
  revert prev s n. induction p as [|[|cls lo hi] p IH]; intros prev s n;
    cbn [match_here].
  - intros [= <-]. constructor.
  - destruct (at_boundary U prev s) eqn:E; [|discriminate].
    intro H. constructor; auto.
  - destruct (within_count_run cls hi s) as (Hw & Hl & Hf).
    destruct (Nat.ltb_spec (count_run U cls hi s) lo) as [L|L]; [discriminate|].
    intro H. apply backtrack_some in H as (j & Hj & H); [|exact L].
    destruct (match_here U p (prev_after prev s j) (skipn j s)) as [m|] eqn:E;
      [|discriminate].
    injection H as <-. apply IH in E.
    constructor; auto; try lia.
    + destruct hi; cbn [within] in *; lia.
    + now apply (forallb_firstn_le _ _ j (count_run U cls hi s)).
Qed.

(** Where there is a match the engine finds one. *)
Lemma match_here_complete (p : regex) (prev : option N) (s : text) (n : nat) :
  matches U p prev s n -> exists n', match_here U p prev s = Some n'.
Proof.
  induction 1 as [prev s | p prev s n Hb _ IH
                 | cls lo hi p prev s k n Hlo Hhi Hlen Hf _ IH];
    cbn [match_here].
  - eauto.
  - now rewrite Hb.
  - pose proof (count_run_max cls hi s k Hhi Hlen Hf) as Hmax.
    destruct (Nat.ltb_spec (count_run U cls hi s) lo) as [L|L]; [lia|].
    destruct IH as [n' IH].
    apply (backtrack_complete _ _ _ k (k + n')); [lia|].
    now rewrite IH.
Qed.

Lemma matches_length (p : regex) (prev : option N) (s : text) (n : nat) :
  matches U p prev s n -> (min_len p <= n <= List.length s)%nat.
Proof.
  induction 1 as [prev s | p prev s n Hb _ IH
                 | cls lo hi p prev s k n Hlo Hhi Hlen Hf _ IH];
    cbn [min_len]; try lia.
  rewrite length_skipn in IH. lia.
Qed.

Lemma match_here_none (p : regex) (prev : option N) (s : text) :
  match_here U p prev s = None <-> forall n, ~ matches U p prev s n.
Proof.
  split.
  - intros H n Hm. apply match_here_complete in Hm as [n' Hm]. congruence.
  - intro H. destruct (match_here U p prev s) as [n|] eqn:E; [|reflexivity].
    apply match_here_sound in E. now apply H in E.
Qed.

(** *** Substitution *)

Lemma prev_after_cons (prev : option N) (c : N) (s : text) (k : nat) :
  prev_after prev (c :: s) (S k) = prev_after (Some c) s k.
Proof. destruct k; reflexivity. Qed.

Lemma sub_from_skip (p : regex) (repl : text) (prev : option N) (s : text)
    (k : nat) :
  (k <= List.length s)%nat ->
  sub_from U p repl prev s k
  = sub_from U p repl (prev_after prev s k) (skipn k s) 0.
Proof.
  revert prev s. induction k as [|k IH]; intros prev s Hk; [reflexivity|].
  destruct s as [|c s]; [simpl in Hk; lia|].
  cbn [sub_from skipn]. rewrite IH by (simpl in Hk; lia).
  now rewrite prev_after_cons.
Qed.

Lemma sub_from_hit (p : regex) (repl : text) (prev : option N) (s : text)
    (n : nat) :
  match_here U p prev s = Some (S n) ->
  sub_from U p repl prev s 0
  = repl ++ sub_from U p repl (prev_after prev s (S n)) (skipn (S n) s) 0.
Proof.
  intro H. pose proof (match_here_sound _ _ _ _ H) as Hm.
  apply matches_length in Hm as [_ Hl].
  destruct s as [|c s]; [simpl in Hl; lia|].
  cbn [sub_from]. rewrite H. f_equal.
  rewrite sub_from_skip by (simpl in Hl; lia).
  now rewrite prev_after_cons.
Qed.

Lemma sub_from_miss (p : regex) (repl : text) (prev : option N) (c : N)
    (s : text) :
  match_here U p prev (c :: s) = None ->
  sub_from U p repl prev (c :: s) 0 = c :: sub_from U p repl (Some c) s 0.
Proof. intro H. cbn [sub_from]. now rewrite H. Qed.

(** [re.sub] replaces the leftmost non-overlapping matches. *)
Lemma sub_from_replaced (p : regex) (repl : text) :
  (0 < min_len p)%nat ->
  forall s prev, replaced U p repl prev s (sub_from U p repl prev s 0).
Proof.
  intro Hmin.
  assert (H : forall m s prev, (List.length s <= m)%nat ->
                replaced U p repl prev s (sub_from U p repl prev s 0)).
  { induction m as [|m IH]; intros s prev Hm.
    - destruct s; [|simpl in Hm; lia]. cbn [sub_from].
      destruct (match_here U p prev []) as [n|] eqn:E.
      + apply match_here_sound, matches_length in E. simpl in E. lia.
      + constructor. now apply match_here_none.
    - destruct (match_here U p prev s) as [[|n]|] eqn:E.
      + apply match_here_sound, matches_length in E. lia.
      + rewrite (sub_from_hit _ _ _ _ _ E).
        pose proof (match_here_sound _ _ _ _ E) as Hs.
        apply (replaced_hit _ _ _ _ _ n); [exact Hs|].
        apply IH. apply matches_length in Hs. rewrite length_skipn. lia.
      + destruct s as [|c s].
        * cbn [sub_from]. rewrite E. constructor. now apply match_here_none.
        * rewrite sub_from_miss by exact E.
          constructor; [now apply match_here_none|].
          apply IH. simpl in Hm. lia. }
  intros s prev. now apply (H (List.length s)).
Qed.

Lemma last_of_cons (prev : option N) (c : N) (pre : text) :
  last_of prev (c :: pre) = last_of (Some c) pre.
Proof. unfold last_of. cbn [List.length]. apply prev_after_cons. Qed.

(** A text in which nothing matches is left as it is. *)
Lemma sub_from_no_match (p : regex) (repl : text) (s : text) (prev : option N) :
  (forall pre s2 n, s = pre ++ s2 -> ~ matches U p (last_of prev pre) s2 n) ->
  sub_from U p repl prev s 0 = s.
Proof.
  revert prev. induction s as [|c s IH]; intros prev H.
  - cbn [sub_from].
    replace (match_here U p prev []) with (@None nat); [reflexivity|].
    symmetry. apply match_here_none. intro n. now apply (H [] [] n).
  - rewrite sub_from_miss.
    + f_equal. apply IH. intros pre s2 n ->.
      rewrite <- (last_of_cons prev). now apply H.
    + apply match_here_none. intro n. now apply (H [] (c :: s) n).
Qed.

Lemma re_sub_no_match (p : regex) (repl t : text) :
  no_match U p t -> re_sub U p repl t = t.
Proof. intro H. now apply sub_from_no_match. Qed.

Lemma scan_none_no_match (p : regex) (t : text) (prev : option N) :
  scan_none U p prev t = true ->
  forall pre s n, t = pre ++ s -> ~ matches U p (last_of prev pre) s n.
Proof.
  revert prev. induction t as [|c t IH]; intros prev H pre s n E;
    cbn [scan_none] in H.
  - destruct pre; [|discriminate]. simpl in E. subst s.
    destruct (match_here U p prev []) eqn:E'; [discriminate|].
    now apply match_here_none.
  - destruct (match_here U p prev (c :: t)) eqn:E'; [discriminate|].
    destruct pre as [|x pre].
    + simpl in E. subst s. now apply match_here_none.
    + injection E as <- ->. rewrite last_of_cons. now apply (IH (Some c)).
Qed.

End Engine.

(** *** Patterns without assertions *)

Section CtxFree.

Context (U : UnicodeData).

Lemma firstn_add_eq {A} (k n : nat) (s s' : list A) :
  firstn (k + n) s = firstn (k + n) s' ->
  firstn k s = firstn k s' /\ firstn n (skipn k s) = firstn n (skipn k s').
Proof.
  intro H. split.
  - assert (F : forall x : list A, firstn k x = firstn k (firstn (k + n) x)).
    { intro x. rewrite firstn_firstn. f_equal. lia. }
    now rewrite (F s), (F s'), H.
  - rewrite !firstn_skipn_comm. now rewrite H.
Qed.

(** Only the matched characters count. *)
Lemma matches_local (p : regex) (prev : option N) (s : text) (n : nat) :
  ctx_free p = true -> matches U p prev s n ->
  forall prev' s', firstn n s = firstn n s' -> matches U p prev' s' n.
Proof.
  intros Hp Hm. induction Hm as [prev s | p prev s n Hb _ IH
                 | cls lo hi p prev s k n Hlo Hhi Hlen Hf Hm IH];
    intros prev' s' E.
  - constructor.
  - discriminate.
  - cbn [ctx_free forallb] in Hp.
    apply firstn_add_eq in E as [E1 E2].
    pose proof (matches_length U _ _ _ _ Hm) as [_ Hn].
    rewrite length_skipn in Hn.
    assert (Hk : (k <= List.length s')%nat).
    { apply (f_equal (@List.length N)) in E1. rewrite !length_firstn in E1. lia. }
    constructor; auto.
    now rewrite <- E1.
Qed.

Lemma matches_alphabet (p : regex) (prev : option N) (s : text) (n : nat) :
  matches U p prev s n -> forallb (in_alphabet U p) (firstn n s) = true.
Proof.
  induction 1 as [prev s | p prev s n Hb _ IH
                 | cls lo hi p prev s k n Hlo Hhi Hlen Hf Hm IH].
  - reflexivity.
  - exact IH.
  - rewrite <- (firstn_skipn k s) at 1.
    rewrite firstn_app, length_firstn, Nat.min_l by exact Hlen.
    replace (k + n - k)%nat with n by lia.
    rewrite firstn_firstn, Nat.min_r by lia.
    rewrite forallb_app. apply andb_true_iff. split.
    + rewrite forallb_forall in *. intros c Hc. cbn [in_alphabet existsb].
      now rewrite (Hf c Hc).
    + rewrite forallb_forall in *. intros c Hc. cbn [in_alphabet existsb].
      unfold in_alphabet in IH. rewrite (IH c Hc). apply orb_true_r.
Qed.

End CtxFree.

(** *** Nothing is left to replace

    For a pattern without assertions and a replacement whose first and last
    characters cannot occur in a match and which holds no match itself, the
    output of [re.sub] holds no match. *)

Section NoResidual.

Context (U : UnicodeData) (p : regex) (repl : text) (z0 z1 : N) (mid : text).

Hypothesis Hctx : ctx_free p = true.
Hypothesis Hmin : (0 < min_len p)%nat.
Hypothesis Hrepl : repl = z0 :: mid ++ [z1].
Hypothesis Hz0 : in_alphabet U p z0 = false.
Hypothesis Hz1 : in_alphabet U p z1 = false.
Hypothesis Hin : scan_none U p None repl = true.

Lemma match_here_nonempty (prev : option N) (s : text) :
  match_here U p prev s <> Some 0%nat.
Proof.
  intro E. apply match_here_sound, matches_length in E. lia.
Qed.

(** Up to the first replacement the output is the input. *)
Lemma sub_from_prefix (s : text) :
  forall prev m r,
    forallb (in_alphabet U p) m = true ->
    sub_from U p repl prev s 0 = m ++ r -> exists r', s = m ++ r'.
Proof.
  induction s as [|c s IH]; intros prev m r Hm E.
  - cbn [sub_from] in E.
    destruct (match_here U p prev []) as [[|n]|] eqn:E'.
    + now apply match_here_nonempty in E'.
    + apply match_here_sound, matches_length in E'. simpl in E'. lia.
    + destruct m; [now exists [] | discriminate].
  - destruct (match_here U p prev (c :: s)) as [[|n]|] eqn:E'.
    + now apply match_here_nonempty in E'.
    + rewrite (sub_from_hit _ _ _ _ _ _ E'), Hrepl in E.
      destruct m as [|x m]; [now exists (c :: s)|].
      cbn [app forallb] in *. injection E as <- _.
      rewrite Hz0 in Hm. discriminate.
    + rewrite sub_from_miss in E by exact E'.
      destruct m as [|x m]; [now exists (c :: s)|].
      cbn [app forallb] in *. injection E as <- E.
      apply andb_true_iff in Hm as [_ Hm].
      destruct (IH _ _ _ Hm E) as [r' ->]. now exists r'.
Qed.

Lemma repl_suffix (pre r1 : text) :
  repl = pre ++ r1 -> r1 <> [] -> exists r0, r1 = r0 ++ [z1].
Proof.
  intros E Hr. destruct (exists_last Hr) as (r0 & z & ->).
  exists r0. rewrite Hrepl, app_assoc in E.
  change (z0 :: mid ++ [z1]) with ((z0 :: mid) ++ [z1]) in E.
  apply app_inj_tail in E as [_ ->]. reflexivity.
Qed.

Lemma sub_from_no_residual (s : text) :
  forall prev pre rest n prev',
    sub_from U p repl prev s 0 = pre ++ rest -> ~ matches U p prev' rest n.
Proof.
  assert (H : forall k s, (List.length s <= k)%nat ->
            forall prev pre rest n prev',
              sub_from U p repl prev s 0 = pre ++ rest ->
              ~ matches U p prev' rest n).
  { clear s. induction k as [|k IH]; intros s Hk prev pre rest n prev' E Hm.
    - destruct s; [|simpl in Hk; lia]. cbn [sub_from] in E.
      destruct (match_here U p prev []) as [[|n0]|] eqn:E'.
      + now apply match_here_nonempty in E'.
      + apply match_here_sound, matches_length in E'. simpl in E'. lia.
      + destruct pre, rest; try discriminate.
        apply matches_length in Hm. simpl in Hm. lia.
    - destruct (match_here U p prev s) as [[|n0]|] eqn:E'.
      + now apply match_here_nonempty in E'.
      + (* a replacement comes first *)
        rewrite (sub_from_hit _ _ _ _ _ _ E') in E.
        pose proof (match_here_sound _ _ _ _ _ E') as Hs.
        apply matches_length in Hs.
        apply app_eq_app in E as [l [[E1 E2]|[E1 E2]]].
        * (* the candidate starts inside the replacement *)
          destruct l as [|x l].
          { rewrite app_nil_r in E1. subst pre. simpl in E2. symmetry in E2.
            apply (IH (skipn (S n0) s)) with (pre := []) (prev' := prev')
              (n := n) in E2; [auto | rewrite length_skipn; lia]. }
          destruct (repl_suffix pre (x :: l) E1) as [r0 Hr0]; [discriminate|].
          rewrite Hr0 in *. subst rest.
          pose proof (matches_alphabet U _ _ _ _ Hm) as Ha.
          pose proof (matches_length U _ _ _ _ Hm) as [_ Hl].
          destruct (Nat.le_gt_cases n (List.length r0)) as [L|L].
          -- assert (Hloc : matches U p (last_of None pre) (r0 ++ [z1]) n).
             { apply (matches_local U _ _ _ _ Hctx Hm).
               rewrite <- !app_assoc, !firstn_app.
               replace (n - List.length r0)%nat with 0%nat by lia.
               reflexivity. }
             revert Hloc. now apply (scan_none_no_match U p repl None Hin pre).
          -- rewrite <- app_assoc, firstn_app, forallb_app in Ha.
             apply andb_true_iff in Ha as [_ Ha].
             replace (n - List.length r0)%nat with (S (n - S (List.length r0)))
               in Ha by lia.
             cbn [app firstn forallb] in Ha. rewrite Hz1 in Ha. discriminate.
        * (* the candidate starts after the replacement *)
          apply (IH (skipn (S n0) s)) with (prev' := prev') (n := n) in E2;
            [auto | rewrite length_skipn; lia].
      + destruct s as [|c s].
        * cbn [sub_from] in E. rewrite E' in E.
          destruct pre, rest; try discriminate.
          apply matches_length in Hm. simpl in Hm. lia.
        * pose proof E as E0.
          rewrite sub_from_miss in E by exact E'.
          destruct pre as [|x pre].
          -- (* the candidate starts at a kept character *)
             pose proof (matches_alphabet U _ _ _ _ Hm) as Ha.
             pose proof (matches_length U _ _ _ _ Hm) as [_ Hl].
             cbn [app] in E0.
             rewrite <- (firstn_skipn n rest) in E0.
             destruct (sub_from_prefix _ _ _ _ Ha E0) as [r' Hr'].
             assert (Hloc : matches U p prev (c :: s) n).
             { apply (matches_local U _ _ _ _ Hctx Hm).
               rewrite Hr', firstn_app, firstn_firstn, length_firstn.
               replace (n - Init.Nat.min n (List.length rest))%nat with 0%nat
                 by lia.
               now rewrite Nat.min_id, firstn_O, app_nil_r. }
             apply match_here_complete in Hloc as [n' Hloc]. congruence.
          -- injection E as <- E.
             apply (IH s) with (prev' := prev') (n := n) in E;
               [auto | simpl in Hk; lia]. }
  now apply (H (List.length s)).
Qed.

End NoResidual.

(** ** Scrubber: the rules one by one *)

Section Rules.

Context (U : UnicodeData).

Lemma backtrack_ext (try try' : nat -> option nat) (k lo : nat) :
  (forall j, try j = try' j) -> backtrack k lo try = backtrack k lo try'.
Proof.
  intro H. induction k as [|k IH]; cbn [backtrack]; rewrite H;
    [reflexivity|]. now rewrite IH.
Qed.

Lemma match_here_ctx_free (p : regex) (prev prev' : option N) (s : text) :
  ctx_free p = true -> match_here U p prev s = match_here U p prev' s.
Proof.
  revert prev prev' s. induction p as [|[|cls lo hi] p IH];
    intros prev prev' s Hp; [reflexivity|discriminate|].
  cbn [match_here]. destruct (count_run U cls hi s <? lo)%nat; [reflexivity|].
  apply backtrack_ext. intro k. f_equal. now apply IH.
Qed.

Lemma count_run_exact (cls : cclass) (hi : option nat) (a b : text) :
  forallb (class_mem U cls) a = true -> within hi (List.length a) ->
  hi = Some (List.length a) \/ hd_error b = None
  \/ (exists c, hd_error b = Some c /\ class_mem U cls c = false) ->
  count_run U cls hi (a ++ b) = List.length a.
Proof.
  revert hi. induction a as [|x a IH]; intros hi Ha Hw Hstop.
  - cbn [app List.length] in *.
    destruct Hstop as [-> | [Hb | (c & Hb & Hc)]].
    + destruct b as [|y b]; [reflexivity|]. cbn [count_run].
      now destruct (class_mem U cls y).
    + now destruct b.
    + destruct b as [|y b]; [reflexivity|]. injection Hb as ->.
      cbn [count_run]. now rewrite Hc.
  - cbn [forallb app List.length count_run] in *.
    apply andb_true_iff in Ha as [-> Ha].
    destruct hi as [[|h]|]; cbn [within] in Hw; [lia| |].
    + f_equal. apply IH; [exact Ha | simpl; lia |].
      destruct Hstop as [[= ->] | H]; [now left | now right].
    + f_equal. apply IH; [exact Ha | exact I |].
      destruct Hstop as [[=] | H]. now right.
Qed.

Lemma backtrack_first (k lo : nat) (try : nat -> option nat) (n : nat) :
  try k = Some n -> backtrack k lo try = Some n.
Proof. intro H. destruct k; cbn [backtrack]; now rewrite H. Qed.

(** A greedy repetition that can take the whole run and go on. *)
Lemma match_here_rep_exact (cls : cclass) (lo : nat) (hi : option nat)
    (p : regex) (prev : option N) (a b : text) (n : nat) :
  ctx_free p = true ->
  forallb (class_mem U cls) a = true ->
  (lo <= List.length a)%nat -> within hi (List.length a) ->
  hi = Some (List.length a) \/ hd_error b = None
  \/ (exists c, hd_error b = Some c /\ class_mem U cls c = false) ->
  match_here U p None b = Some n ->
  match_here U (Rep cls lo hi :: p) prev (a ++ b)
  = Some (List.length a + n)%nat.
Proof.
  intros Hp Ha Hlo Hhi Hstop Hb. cbn [match_here].
  rewrite count_run_exact by assumption.
  destruct (Nat.ltb_spec (List.length a) lo) as [L|_]; [lia|].
  apply backtrack_first.
  rewrite skipn_app, skipn_all, Nat.sub_diag, skipn_O. cbn [app].
  rewrite (match_here_ctx_free p _ None) by exact Hp.
  now rewrite Hb.
Qed.

(** A text that is one match is replaced as a whole. *)
Lemma re_sub_whole (p : regex) (repl m : text) :
  (0 < min_len p)%nat ->
  match_here U p None m = Some (List.length m) -> re_sub U p repl m = repl.
Proof.
  intros Hmin H. unfold re_sub.
  pose proof (match_here_sound _ _ _ _ _ H) as Hm.
  apply matches_length in Hm as [Hl _].
  destruct (List.length m) as [|n] eqn:E; [lia|].
  rewrite (sub_from_hit _ _ _ _ _ _ H).
  rewrite <- E, skipn_all. cbn [sub_from].
  destruct (match_here U p (prev_after None m (List.length m)) []) as [k|] eqn:E'.
  - apply match_here_sound, matches_length in E'. simpl in E'. lia.
  - apply app_nil_r.
Qed.

Lemma matches_rep_split (cls : cclass) (lo : nat) (hi : option nat)
    (p : regex) (prev : option N) (s : text) (n : nat) :
  ctx_free p = true ->
  matches U (Rep cls lo hi :: p) prev s n ->
  exists a b n',
    s = a ++ b /\ n = (List.length a + n')%nat
    /\ (lo <= List.length a)%nat /\ within hi (List.length a)
    /\ forallb (class_mem U cls) a = true /\ matches U p None b n'.
Proof.
  intros Hp H. inversion H as [| |? ? ? ? ? ? k n' Hlo Hhi Hlen Hf Hm]; subst.
  exists (firstn k s), (skipn k s), n'.
  rewrite length_firstn, Nat.min_l by exact Hlen.
  repeat split; auto.
  - symmetry. apply firstn_skipn.
  - now apply (matches_local U _ _ _ _ Hp Hm).
Qed.

Lemma matches_rep_join (cls : cclass) (lo : nat) (hi : option nat)
    (p : regex) (prev : option N) (a b : text) (n : nat) :
  ctx_free p = true ->
  (lo <= List.length a)%nat -> within hi (List.length a) ->
  forallb (class_mem U cls) a = true -> matches U p None b n ->
  matches U (Rep cls lo hi :: p) prev (a ++ b) (List.length a + n).
Proof.
  intros Hp Hlo Hhi Ha Hm. constructor; auto.
  - rewrite length_app. lia.
  - now rewrite firstn_app, firstn_all, Nat.sub_diag, firstn_O, app_nil_r.
  - rewrite skipn_app, skipn_all, Nat.sub_diag, skipn_O. cbn [app].
    now apply (matches_local U _ _ _ _ Hp Hm).
Qed.

Lemma one_char (c0 : N) (a : text) :
  (1 <= List.length a)%nat -> within (Some 1%nat) (List.length a) ->
  forallb (class_mem U [CChar c0]) a = true -> a = [c0].
Proof.
  destruct a as [|x [|y a]]; cbn [List.length within]; try lia.
  intros _ _. cbn [forallb class_mem existsb citem_mem].
  rewrite orb_false_r, andb_true_r. now intros ->%N.eqb_eq.
Qed.

End Rules.

Section RuleProofs.

Context (U : UnicodeData).

Lemma forallb_digit (d : text) :
  forallb (class_mem U [CDigit]) d = forallb (uni_isdecimal U) d.
Proof.
  induction d as [|c d IH]; [reflexivity|]. cbn [forallb]. rewrite IH.
  f_equal. cbn [class_mem existsb citem_mem]. apply orb_false_r.
Qed.

Lemma forallb_mail (d : text) :
  forallb (class_mem U c_mail) d = forallb (mail_char U) d.
Proof.
  induction d as [|c d IH]; [reflexivity|]. cbn [forallb]. rewrite IH.
  f_equal. unfold mail_char. cbn [class_mem c_mail existsb citem_mem].
  now rewrite orb_false_r, orb_assoc.
Qed.

Lemma matches_nil_inv (prev : option N) (s : text) (n : nat) :
  matches U [] prev s n -> n = 0%nat.
Proof. now inversion 1. Qed.

Lemma date_like_matches (m : text) :
  date_like U m <-> matches U DATE_RE None m (List.length m).
Proof.
  split.
  - intros (dd & mm & yy & -> & Hd & Hm & Hy & Ld & Lm & Ly).
    replace (List.length (dd ++ [0x2F] ++ mm ++ [0x2F] ++ yy))
      with (List.length dd + (List.length [0x2F] + (List.length mm
              + (List.length [0x2F] + (List.length yy + 0)))))%nat
      by (rewrite !length_app; simpl; lia).
    rewrite <- (app_nil_r yy) at 1.
    apply matches_rep_join; [reflexivity | lia | simpl; lia
                             | now rewrite forallb_digit |].
    apply matches_rep_join; [reflexivity | simpl; lia | simpl; lia
                             | reflexivity |].
    apply matches_rep_join; [reflexivity | lia | simpl; lia
                             | now rewrite forallb_digit |].
    apply matches_rep_join; [reflexivity | simpl; lia | simpl; lia
                             | reflexivity |].
    apply matches_rep_join; [reflexivity | lia | simpl; lia
                             | now rewrite forallb_digit |].
    constructor.
  - intro H. unfold DATE_RE, one in H.
    apply matches_rep_split in H
      as (dd & s1 & n1 & -> & E1 & Ld & Ld' & Hd & H); [|reflexivity].
    apply matches_rep_split in H
      as (c1 & s2 & n2 & -> & E2 & Lc1 & Lc1' & Hc1 & H); [|reflexivity].
    apply matches_rep_split in H
      as (mm & s3 & n3 & -> & E3 & Lm & Lm' & Hm & H); [|reflexivity].
    apply matches_rep_split in H
      as (c2 & s4 & n4 & -> & E4 & Lc2 & Lc2' & Hc2 & H); [|reflexivity].
    apply matches_rep_split in H
      as (yy & s5 & n5 & -> & E5 & Ly & Ly' & Hy & H); [|reflexivity].
    apply matches_nil_inv in H. subst.
    rewrite !length_app in E1.
    assert (s5 = []) as -> by (destruct s5; [reflexivity | simpl in E1; lia]).
    apply one_char in Hc1 as ->; [|assumption..].
    apply one_char in Hc2 as ->; [|assumption..].
    rewrite forallb_digit in Hd, Hm, Hy. cbn [within] in *.
    exists dd, mm, yy. rewrite app_nil_r. repeat split; auto; lia.
Qed.

Lemma match_here_date (m : text) :
  date_like U m -> match_here U DATE_RE None m = Some (List.length m).
Proof.
  intros (dd & mm & yy & -> & Hd & Hm & Hy & Ld & Lm & Ly).
  replace (List.length (dd ++ [0x2F] ++ mm ++ [0x2F] ++ yy))
    with (List.length dd + (List.length [0x2F] + (List.length mm
            + (List.length [0x2F] + (List.length yy + 0)))))%nat
    by (rewrite !length_app; simpl; lia).
  rewrite <- (app_nil_r yy) at 1.
  apply match_here_rep_exact;
    [reflexivity | now rewrite forallb_digit | lia | simpl; lia
     | right; right; now exists 0x2F |].
  apply match_here_rep_exact;
    [reflexivity | reflexivity | simpl; lia | simpl; lia | now left |].
  apply match_here_rep_exact;
    [reflexivity | now rewrite forallb_digit | lia | simpl; lia
     | right; right; now exists 0x2F |].
  apply match_here_rep_exact;
    [reflexivity | reflexivity | simpl; lia | simpl; lia | now left |].
  apply match_here_rep_exact;
    [reflexivity | now rewrite forallb_digit | lia | simpl; lia
     | right; now left |].
  reflexivity.
Qed.

Lemma re_sub_date (m : text) :
  date_like U m -> re_sub U DATE_RE REDACTED_DATE m = REDACTED_DATE.
Proof.
  intro H. apply re_sub_whole; [simpl; lia | now apply match_here_date].
Qed.

Lemma email_like_matches (m : text) :
  email_like U m <-> matches U EMAIL_RE None m (List.length m).
Proof.
  split.
  - intros (a & b & -> & Ha & Hb & Fa & Fb).
    replace (List.length (a ++ [0x40] ++ b))
      with (List.length a + (List.length [0x40] + (List.length b + 0)))%nat
      by (rewrite !length_app; simpl; lia).
    rewrite <- (app_nil_r b) at 1.
    apply matches_rep_join; [reflexivity | destruct a; simpl; [congruence|lia]
                             | exact I | now rewrite forallb_mail |].
    apply matches_rep_join; [reflexivity | simpl; lia | simpl; lia
                             | reflexivity |].
    apply matches_rep_join; [reflexivity | destruct b; simpl; [congruence|lia]
                             | exact I | now rewrite forallb_mail |].
    constructor.
  - intro H. unfold EMAIL_RE, one, plus in H.
    apply matches_rep_split in H
      as (a & s1 & n1 & -> & E1 & La & La' & Ha & H); [|reflexivity].
    apply matches_rep_split in H
      as (c1 & s2 & n2 & -> & E2 & Lc1 & Lc1' & Hc1 & H); [|reflexivity].
    apply matches_rep_split in H
      as (b & s3 & n3 & -> & E3 & Lb & Lb' & Hb & H); [|reflexivity].
    apply matches_nil_inv in H. subst.
    rewrite !length_app in E1.
    assert (s3 = []) as -> by (destruct s3; [reflexivity | simpl in E1; lia]).
    apply one_char in Hc1 as ->; [|assumption..].
    rewrite forallb_mail in Ha, Hb.
    exists a, b. rewrite app_nil_r.
    repeat split; auto; intros ->; simpl in *; lia.
Qed.

Lemma re_sub_email (m : text) :
  email_like U m -> re_sub U EMAIL_RE REDACTED_EMAIL m = REDACTED_EMAIL.
Proof.
  intros (a & b & -> & Ha & Hb & Fa & Fb).
  apply re_sub_whole; [simpl; lia|].
  replace (List.length (a ++ [0x40] ++ b))
    with (List.length a + (List.length [0x40] + (List.length b + 0)))%nat
    by (rewrite !length_app; simpl; lia).
  rewrite <- (app_nil_r b) at 1.
  apply match_here_rep_exact;
    [reflexivity | now rewrite forallb_mail
     | destruct a; simpl; [congruence|lia] | exact I
     | right; right; now exists 0x40 |].
  apply match_here_rep_exact;
    [reflexivity | reflexivity | simpl; lia | simpl; lia | now left |].
  apply match_here_rep_exact;
    [reflexivity | now rewrite forallb_mail
     | destruct b; simpl; [congruence|lia] | exact I
     | right; now left |].
  reflexivity.
Qed.

(** Every pass leaves a text without matches as it is. *)
Lemma scrub_text_no_match (t : text) :
  no_match U NAME_RE t -> no_match U DATE_RE t -> no_match U PHONE_RE t ->
  no_match U EMAIL_RE t -> scrub_text U t = t.
Proof.
  intros H1 H2 H3 H4. unfold scrub_text.
  rewrite (re_sub_no_match U NAME_RE) by exact H1.
  rewrite (re_sub_no_match U DATE_RE) by exact H2.
  rewrite (re_sub_no_match U PHONE_RE) by exact H3.
  now apply re_sub_no_match.
Qed.

Lemma no_email_left (t : text) (pre m post : text) :
  re_sub U EMAIL_RE REDACTED_EMAIL t = pre ++ m ++ post -> ~ email_like U m.
Proof.
  intros E H. apply email_like_matches in H.
  revert E.
  assert (Hloc : matches U EMAIL_RE None (m ++ post) (List.length m)).
  { apply (matches_local U EMAIL_RE None m (List.length m) eq_refl H).
    now rewrite firstn_app, Nat.sub_diag, firstn_O, app_nil_r. }
  intro E. revert Hloc.
  apply (sub_from_no_residual U EMAIL_RE REDACTED_EMAIL 0x5B 0x5D
           (str "REDACTED_EMAIL") eq_refl ltac:(simpl; lia) eq_refl eq_refl
           eq_refl eq_refl t None pre (m ++ post) (List.length m) None E).
Qed.

End RuleProofs.

(** ** Scrubber: the claims *)

Lemma scrub_text_rules (U : UnicodeData) (t : text) :
  scrub_text U t
  = re_sub U EMAIL_RE REDACTED_EMAIL
      (re_sub U PHONE_RE REDACTED_PHONE
         (re_sub U DATE_RE REDACTED_DATE
            (re_sub U NAME_RE REDACTED_NAME t))).
Proof. reflexivity. Qed.

Lemma scan_none_sound (U : UnicodeData) (p : regex) (t : text) :
  scan_none U p None t = true -> no_match U p t.
Proof. intros H pre s n. now apply scan_none_no_match. Qed.

Lemma re_sub_replaced (U : UnicodeData) (p : regex) (repl t : text) :
  (0 < min_len p)%nat -> replaced U p repl None t (re_sub U p repl t).
Proof. intro H. now apply sub_from_replaced. Qed.

Lemma no_date_left (U : UnicodeData) (t pre m post : text) :
  re_sub U DATE_RE REDACTED_DATE t = pre ++ m ++ post -> ~ date_like U m.
Proof.
  intros E H. apply date_like_matches in H.
  assert (Hloc : matches U DATE_RE None (m ++ post) (List.length m)).
  { apply (matches_local U DATE_RE None m (List.length m) eq_refl H).
    now rewrite firstn_app, Nat.sub_diag, firstn_O, app_nil_r. }
  revert Hloc.
  apply (sub_from_no_residual U DATE_RE REDACTED_DATE 0x5B 0x5D
           (str "REDACTED_DATE") eq_refl ltac:(simpl; lia) eq_refl eq_refl
           eq_refl eq_refl t None pre (m ++ post) (List.length m) None E).
Qed.

(** C4 as worded fails: the output can be longer than the input.  The
    three characters ["a@b"] become the sixteen of the placeholder. *)
Lemma scrub_text_can_grow :
  scrub_text ascii_only (str "a@b") = str "[REDACTED_EMAIL]"
  /\ ~ (List.length (scrub_text ascii_only (str "a@b"))
        <= List.length (str "a@b"))%nat.
Proof. split; [reflexivity | vm_compute; lia]. Qed.

(** C4 (amended): [scrub_text] is total; its result, which may be longer
    than the input, arises from the input by four passes in order, each
    replacing the leftmost non-overlapping matches of its pattern in the
    output of the pass before; a text holding no match of any of the four
    patterns, the empty text included, is returned unchanged. *)
Theorem scrub_text_replaces_or_keeps (U : UnicodeData) (t : text) :
  (exists t1 t2 t3,
      replaced U NAME_RE REDACTED_NAME None t t1
      /\ replaced U DATE_RE REDACTED_DATE None t1 t2
      /\ replaced U PHONE_RE REDACTED_PHONE None t2 t3
      /\ replaced U EMAIL_RE REDACTED_EMAIL None t3 (scrub_text U t))
  /\ (no_match U NAME_RE t -> no_match U DATE_RE t ->
      no_match U PHONE_RE t -> no_match U EMAIL_RE t ->
      scrub_text U t = t)
  /\ scrub_text U [] = [].
Proof.
  split; [|split].
  - exists (re_sub U NAME_RE REDACTED_NAME t),
      (re_sub U DATE_RE REDACTED_DATE (re_sub U NAME_RE REDACTED_NAME t)),
      (re_sub U PHONE_RE REDACTED_PHONE
         (re_sub U DATE_RE REDACTED_DATE (re_sub U NAME_RE REDACTED_NAME t))).
    rewrite scrub_text_rules.
    repeat split; apply re_sub_replaced; simpl; lia.
  - apply scrub_text_no_match.
  - reflexivity.
Qed.

Lemma scrub_text_replaces_or_keeps_witness :
  let t := str "hello world, 12 apples" in
  (no_match ascii_only NAME_RE t /\ no_match ascii_only DATE_RE t
   /\ no_match ascii_only PHONE_RE t /\ no_match ascii_only EMAIL_RE t)
  /\ scrub_text ascii_only t = t.
Proof.
  intro t.
  assert (H1 : no_match ascii_only NAME_RE t)
    by (apply scan_none_sound; vm_compute; reflexivity).
  assert (H2 : no_match ascii_only DATE_RE t)
    by (apply scan_none_sound; vm_compute; reflexivity).
  assert (H3 : no_match ascii_only PHONE_RE t)
    by (apply scan_none_sound; vm_compute; reflexivity).
  assert (H4 : no_match ascii_only EMAIL_RE t)
    by (apply scan_none_sound; vm_compute; reflexivity).
  split; [tauto|].
  exact (proj1 (proj2 (scrub_text_replaces_or_keeps ascii_only t)) H1 H2 H3 H4).
Defined.

(** C5 as worded fails: the pattern is not "non-whitespace, at sign,
    non-whitespace".  ["!@!"] is such a sequence and comes out of
    [scrub_text] unredacted. *)
Lemma email_rule_misses_symbol_runs :
  email_like_spec (str "!@!")
  /\ scrub_text ascii_only (str "!@!") = str "!@!".
Proof.
  split; [|reflexivity].
  exists (str "!"), (str "!"). repeat split; discriminate.
Qed.

(** C5 (amended): the fourth and last rule replaces the sequences made of
    one or more word characters, dots or hyphens, an at sign, and one or
    more word characters, dots or hyphens by [[REDACTED_EMAIL]]; for every
    input, no such sequence is left in the output of [scrub_text]. *)
Theorem email_rule_leaves_no_address (U : UnicodeData) (t : text) :
  let t3 :=
    re_sub U PHONE_RE REDACTED_PHONE
      (re_sub U DATE_RE REDACTED_DATE (re_sub U NAME_RE REDACTED_NAME t)) in
  scrub_text U t = re_sub U EMAIL_RE REDACTED_EMAIL t3
  /\ (forall m, email_like U m
                <-> matches U EMAIL_RE None m (List.length m))
  /\ replaced U EMAIL_RE REDACTED_EMAIL None t3 (scrub_text U t)
  /\ (forall m, email_like U m ->
                re_sub U EMAIL_RE REDACTED_EMAIL m = REDACTED_EMAIL)
  /\ (forall pre m post,
         scrub_text U t = pre ++ m ++ post -> ~ email_like U m).
Proof.
  intro t3. split; [reflexivity|]. split; [apply email_like_matches|].
  split; [apply re_sub_replaced; simpl; lia|].
  split; [apply re_sub_email|].
  intros pre m post. rewrite scrub_text_rules. apply no_email_left.
Qed.

Lemma email_rule_leaves_no_address_witness :
  email_like ascii_only (str "john@example.com")
  /\ re_sub ascii_only EMAIL_RE REDACTED_EMAIL (str "john@example.com")
     = REDACTED_EMAIL.
Proof.
  assert (H : email_like ascii_only (str "john@example.com")).
  { exists (str "john"), (str "example.com").
    repeat split; try discriminate. }
  split; [exact H|].
  exact (proj1 (proj2 (proj2 (proj2
           (email_rule_leaves_no_address ascii_only [])))) _ H).
Defined.

(** C6 as worded fails: a year of exactly three digits is redacted like
    any other; ["1/2/123"] becomes the placeholder. *)
Lemma date_rule_redacts_three_digit_year :
  re_sub ascii_only DATE_RE REDACTED_DATE (str "1/2/123") = REDACTED_DATE
  /\ re_sub ascii_only DATE_RE REDACTED_DATE (str "1/2/123")
     <> str "1/2/123".
Proof. split; [reflexivity | discriminate]. Qed.

(** C6 (amended): the second rule replaces exactly the sequences made of
    one or two digits, a slash, one or two digits, a slash, and two to four
    digits by [[REDACTED_DATE]]; a year of exactly three digits is redacted
    too, and no such sequence is left in the rule's output. *)
Theorem date_rule_replaces_two_to_four_digit_years (U : UnicodeData) :
  (forall t,
      scrub_text U t
      = re_sub U EMAIL_RE REDACTED_EMAIL
          (re_sub U PHONE_RE REDACTED_PHONE
             (re_sub U DATE_RE REDACTED_DATE
                (re_sub U NAME_RE REDACTED_NAME t))))
  /\ (forall m, date_like U m <-> matches U DATE_RE None m (List.length m))
  /\ (forall t, replaced U DATE_RE REDACTED_DATE None t
                  (re_sub U DATE_RE REDACTED_DATE t))
  /\ (forall m, date_like U m ->
                re_sub U DATE_RE REDACTED_DATE m = REDACTED_DATE)
  /\ (forall dd mm yy,
         forallb (uni_isdecimal U) dd = true ->
         forallb (uni_isdecimal U) mm = true ->
         forallb (uni_isdecimal U) yy = true ->
         (1 <= List.length dd <= 2)%nat -> (1 <= List.length mm <= 2)%nat ->
         List.length yy = 3%nat ->
         re_sub U DATE_RE REDACTED_DATE (dd ++ [0x2F] ++ mm ++ [0x2F] ++ yy)
         = REDACTED_DATE)
  /\ (forall t pre m post,
         re_sub U DATE_RE REDACTED_DATE t = pre ++ m ++ post ->
         ~ date_like U m).
Proof.
  split; [reflexivity|]. split; [apply date_like_matches|].
  split; [intro t; apply re_sub_replaced; simpl; lia|].
  split; [apply re_sub_date|]. split; [|apply no_date_left].
  intros dd mm yy Hd Hm Hy Ld Lm Ly. apply re_sub_date.
  exists dd, mm, yy. repeat split; auto; lia.
Qed.

Lemma date_rule_replaces_two_to_four_digit_years_witness :
  (forallb (uni_isdecimal ascii_only) (str "4") = true
   /\ forallb (uni_isdecimal ascii_only) (str "5") = true
   /\ forallb (uni_isdecimal ascii_only) (str "202") = true
   /\ (1 <= List.length (str "4") <= 2)%nat
   /\ (1 <= List.length (str "5") <= 2)%nat
   /\ List.length (str "202") = 3%nat)
  /\ re_sub ascii_only DATE_RE REDACTED_DATE
       (str "4" ++ [0x2F] ++ str "5" ++ [0x2F] ++ str "202")
     = REDACTED_DATE.
Proof.
  assert (H1 : forallb (uni_isdecimal ascii_only) (str "4") = true)
    by reflexivity.
  assert (H2 : forallb (uni_isdecimal ascii_only) (str "5") = true)
    by reflexivity.
  assert (H3 : forallb (uni_isdecimal ascii_only) (str "202") = true)
    by reflexivity.
  assert (H4 : (1 <= List.length (str "4") <= 2)%nat) by (simpl; lia).
  assert (H5 : (1 <= List.length (str "5") <= 2)%nat) by (simpl; lia).
  assert (H6 : List.length (str "202") = 3%nat) by reflexivity.
  split; [tauto|].
  exact (proj1 (proj2 (proj2 (proj2 (proj2
           (date_rule_replaces_two_to_four_digit_years ascii_only)))))
           _ _ _ H1 H2 H3 H4 H5 H6).
Defined.

(** * Further properties of the code *)

(** ** Scrubber: characters outside a pattern's alphabet *)

Lemma backtrack_ext_le (try try' : nat -> option nat) (k lo : nat) :
  (forall j, (j <= k)%nat -> try j = try' j) ->
  backtrack k lo try = backtrack k lo try'.
Proof.
  induction k as [|k IH]; intro H; cbn [backtrack]; rewrite H by lia;
    [reflexivity|].
  rewrite IH; [reflexivity|]. intros j Hj. apply H. lia.
Qed.

Lemma count_run_sep (U : UnicodeData) (cls : cclass) (hi : option nat)
    (s w : text) (z : N) :
  class_mem U cls z = false ->
  count_run U cls hi (s ++ z :: w) = count_run U cls hi s.
Proof.
  intro Hz. revert hi. induction s as [|c s IH]; intro hi.
  - cbn [app count_run]. now rewrite Hz.
  - cbn [app count_run]. destruct (class_mem U cls c); [|reflexivity].
    destruct hi as [[|h]|]; [reflexivity| |]; now rewrite IH.
Qed.

(** A non-word character that cannot occur in a match ends every attempt
    like the end of the text does; of the character before the text only
    its being a word character or not matters. *)
Lemma match_here_sep (U : UnicodeData) (p : regex) (prev prev' : option N)
    (s w : text) (z : N) :
  in_alphabet U p z = false -> uni_isword U z = false ->
  isword_opt U prev = isword_opt U prev' ->
  match_here U p prev (s ++ z :: w) = match_here U p prev' s.
Proof.
  intros Hz Hw. revert prev prev' s Hz.
  induction p as [|[|cls lo hi] p IH]; intros prev prev' s Hz Hp;
    [reflexivity | |].
  - cbn [match_here in_alphabet existsb orb] in *.
    assert (E : at_boundary U prev (s ++ z :: w) = at_boundary U prev' s).
    { unfold at_boundary. rewrite Hp. f_equal.
      destruct s; [cbn [app hd_error isword_opt]; exact Hw | reflexivity]. }
    rewrite E. destruct (at_boundary U prev' s); [now apply IH | reflexivity].
  - cbn [in_alphabet existsb] in Hz.
    apply orb_false_iff in Hz as [Hz1 Hz2].
    cbn [match_here]. rewrite count_run_sep by exact Hz1.
    destruct (count_run U cls hi s <? lo)%nat; [reflexivity|].
    apply backtrack_ext_le. intros j Hj. f_equal.
    pose proof (within_count_run U cls hi s) as (_ & Hl & _).
    rewrite skipn_app.
    replace (j - List.length s)%nat with 0%nat by lia. rewrite skipn_O.
    apply IH; [exact Hz2|].
    destruct j as [|j]; [exact Hp|]. cbn [prev_after].
    now rewrite nth_error_app1 by lia.
Qed.

Lemma match_here_prev (U : UnicodeData) (p : regex) (prev prev' : option N)
    (s : text) :
  isword_opt U prev = isword_opt U prev' ->
  match_here U p prev s = match_here U p prev' s.
Proof.
  revert prev prev' s. induction p as [|[|cls lo hi] p IH];
    intros prev prev' s Hp; [reflexivity | |].
  - cbn [match_here]. unfold at_boundary. rewrite Hp.
    destruct (xorb _ _); [now apply IH | reflexivity].
  - cbn [match_here].
    destruct (count_run U cls hi s <? lo)%nat; [reflexivity|].
    apply backtrack_ext_le. intros j Hj. f_equal.
    apply IH. destruct j; [exact Hp | reflexivity].
Qed.

Section Separators.

Context (U : UnicodeData) (p : regex) (repl : text).

Hypothesis Hmin : (0 < min_len p)%nat.

Lemma match_here_end (prev : option N) : match_here U p prev [] = None.
Proof.
  destruct (match_here U p prev []) as [n|] eqn:E; [|reflexivity].
  apply match_here_sound, matches_length in E. simpl in E. lia.
Qed.

Lemma sub_from_prev (prev prev' : option N) (s : text) :
  isword_opt U prev = isword_opt U prev' ->
  sub_from U p repl prev s 0 = sub_from U p repl prev' s 0.
Proof.
  intro Hp. pose proof (match_here_prev U p prev prev' s Hp) as E.
  destruct (match_here U p prev s) as [[|n]|] eqn:E1.
  - apply match_here_sound, matches_length in E1. lia.
  - symmetry in E.
    now rewrite (sub_from_hit _ _ _ _ _ _ E1), (sub_from_hit _ _ _ _ _ _ E).
  - symmetry in E. destruct s as [|c s].
    + cbn [sub_from]. now rewrite E, E1.
    + now rewrite !sub_from_miss by assumption.
Qed.

(** Such a character splits the text into two parts that are rewritten
    independently. *)
Lemma sub_from_sep (z : N) (w : text) :
  in_alphabet U p z = false -> uni_isword U z = false ->
  forall s prev,
    sub_from U p repl prev (s ++ z :: w) 0
    = sub_from U p repl prev s 0 ++ z :: sub_from U p repl None w 0.
Proof.
  intros Hz Hw.
  assert (H : forall k s prev, (List.length s <= k)%nat ->
            sub_from U p repl prev (s ++ z :: w) 0
            = sub_from U p repl prev s 0 ++ z :: sub_from U p repl None w 0).
  { induction k as [|k IH]; intros s prev Hk.
    - destruct s; [|simpl in Hk; lia]. cbn [app].
      rewrite sub_from_miss
        by (rewrite <- (match_here_end prev);
            apply (match_here_sep U p prev prev [] w z Hz Hw eq_refl)).
      cbn [sub_from]. rewrite match_here_end. cbn [app]. f_equal.
      apply sub_from_prev. cbn [isword_opt]. exact Hw.
    - destruct (match_here U p prev s) as [[|n]|] eqn:E.
      + apply match_here_sound, matches_length in E. lia.
      + pose proof E as E'.
        rewrite <- (match_here_sep U p prev prev s w z Hz Hw eq_refl) in E'.
        rewrite (sub_from_hit _ _ _ _ _ _ E), (sub_from_hit _ _ _ _ _ _ E').
        rewrite <- app_assoc. f_equal.
        apply match_here_sound, matches_length in E.
        rewrite skipn_app.
        replace (S n - List.length s)%nat with 0%nat by lia. rewrite skipn_O.
        cbn [prev_after]. rewrite nth_error_app1 by lia.
        apply IH. rewrite length_skipn. lia.
      + destruct s as [|c s].
        * cbn [app].
          rewrite sub_from_miss
            by (rewrite <- (match_here_end prev);
                apply (match_here_sep U p prev prev [] w z Hz Hw eq_refl)).
          cbn [sub_from]. rewrite match_here_end. cbn [app]. f_equal.
          apply sub_from_prev. cbn [isword_opt]. exact Hw.
        * pose proof E as E'.
          rewrite <- (match_here_sep U p prev prev (c :: s) w z Hz Hw eq_refl)
            in E'.
          cbn [app] in *. rewrite !sub_from_miss by assumption.
          cbn [app]. f_equal. apply IH. simpl in Hk. lia. }
  intros s prev. now apply (H (List.length s)).
Qed.

Lemma re_sub_sep (z : N) (x y : text) :
  in_alphabet U p z = false -> uni_isword U z = false ->
  re_sub U p repl (x ++ z :: y) = re_sub U p repl x ++ z :: re_sub U p repl y.
Proof. intros Hz Hw. now apply sub_from_sep. Qed.

(** A placeholder whose first and last characters are such characters and
    which holds no match is left alone, and so is what surrounds it. *)
Lemma re_sub_token (z0 z1 : N) (mid x y : text) :
  in_alphabet U p z0 = false -> uni_isword U z0 = false ->
  in_alphabet U p z1 = false -> uni_isword U z1 = false ->
  scan_none U p None mid = true ->
  re_sub U p repl (x ++ (z0 :: mid ++ [z1]) ++ y)
  = re_sub U p repl x ++ (z0 :: mid ++ [z1]) ++ re_sub U p repl y.
Proof.
  intros Hz0 Hw0 Hz1 Hw1 Hmid.
  cbn [app]. rewrite re_sub_sep by assumption.
  rewrite <- app_assoc. cbn [app].
  rewrite re_sub_sep by assumption.
  rewrite (re_sub_no_match U p repl mid)
    by (intros pre s n; now apply scan_none_no_match).
  now rewrite <- app_assoc.
Qed.

End Separators.

Lemma separator_spec (U : UnicodeData) (z : N) :
  separator U z = true ->
  uni_isword U z = false
  /\ in_alphabet U NAME_RE z = false /\ in_alphabet U DATE_RE z = false
  /\ in_alphabet U PHONE_RE z = false /\ in_alphabet U EMAIL_RE z = false.
Proof.
  unfold separator. rewrite !andb_true_iff, !negb_true_iff. tauto.
Qed.

(** X1: punctuation splits the work.  Around a character that is not a
    word character, not whitespace and none of [/ ( ) . - @], the text is
    scrubbed piece by piece and the character is kept. *)
Theorem scrub_text_splits_at_separator (U : UnicodeData) (z : N)
    (x y : text) :
  separator U z = true ->
  scrub_text U (x ++ z :: y) = scrub_text U x ++ z :: scrub_text U y.
Proof.
  intro H. apply separator_spec in H as (Hw & H1 & H2 & H3 & H4).
  unfold scrub_text.
  rewrite (re_sub_sep U NAME_RE) by (assumption || (simpl; lia)).
  rewrite (re_sub_sep U DATE_RE) by (assumption || (simpl; lia)).
  rewrite (re_sub_sep U PHONE_RE) by (assumption || (simpl; lia)).
  now rewrite (re_sub_sep U EMAIL_RE) by (assumption || (simpl; lia)).
Qed.

Lemma scrub_text_splits_at_separator_witness :
  separator ascii_only 0x2C = true
  /\ scrub_text ascii_only (str "mail john@a.b" ++ 0x2C :: str " born 1/2/2003")
     = scrub_text ascii_only (str "mail john@a.b")
       ++ 0x2C :: scrub_text ascii_only (str " born 1/2/2003").
Proof.
  assert (H : separator ascii_only 0x2C = true) by reflexivity.
  split; [exact H|].
  exact (scrub_text_splits_at_separator ascii_only 0x2C _ _ H).
Defined.

Lemma scrub_text_token (U : UnicodeData) (mid x y : text) :
  scan_none U NAME_RE None mid = true -> scan_none U DATE_RE None mid = true ->
  scan_none U PHONE_RE None mid = true ->
  scan_none U EMAIL_RE None mid = true ->
  scrub_text U (x ++ (0x5B :: mid ++ [0x5D]) ++ y)
  = scrub_text U x ++ (0x5B :: mid ++ [0x5D]) ++ scrub_text U y.
Proof.
  intros H1 H2 H3 H4. unfold scrub_text.
  rewrite (re_sub_token U NAME_RE) by (assumption || reflexivity || (simpl; lia)).
  rewrite (re_sub_token U DATE_RE) by (assumption || reflexivity || (simpl; lia)).
  rewrite (re_sub_token U PHONE_RE) by (assumption || reflexivity || (simpl; lia)).
  now rewrite (re_sub_token U EMAIL_RE) by (assumption || reflexivity || (simpl; lia)).
Qed.

(** X2: placeholders are fixed points.  A placeholder already present in
    the text, whichever rule's, goes through all four rules unchanged, and
    the text before and after it is scrubbed as if it stood alone. *)
Theorem scrub_text_keeps_placeholders (U : UnicodeData) :
  Forall (fun tok => forall x y,
            scrub_text U (x ++ tok ++ y)
            = scrub_text U x ++ tok ++ scrub_text U y)
    PLACEHOLDERS.
Proof.
  unfold PLACEHOLDERS.
  constructor;
    [intros x y; apply (scrub_text_token U (str "REDACTED_NAME")); reflexivity|].
  constructor;
    [intros x y; apply (scrub_text_token U (str "REDACTED_DATE")); reflexivity|].
  constructor;
    [intros x y; apply (scrub_text_token U (str "REDACTED_PHONE")); reflexivity|].
  constructor;
    [intros x y; apply (scrub_text_token U (str "REDACTED_EMAIL")); reflexivity|].
  constructor.
Qed.

(** ** Scrubber: what the later rules cannot undo *)

Section InfixBack.

Context (U : UnicodeData) (p : regex) (repl : text) (P : N -> bool).
Context (z0 : N) (rp : text).

Hypothesis Hmin : (0 < min_len p)%nat.
Hypothesis Hrepl : repl = z0 :: rp.
Hypothesis HP : forallb (fun c => negb (P c)) repl = true.

Lemma not_P_repl (c : N) : In c repl -> P c = false.
Proof.
  intro H. rewrite forallb_forall in HP. apply HP in H.
  now apply negb_true_iff in H.
Qed.

Lemma sub_from_prefix_back (s : text) :
  forall prev m r,
    forallb P m = true ->
    sub_from U p repl prev s 0 = m ++ r -> exists r', s = m ++ r'.
Proof.
  induction s as [|c s IH]; intros prev m r Hm E.
  - cbn [sub_from] in E. rewrite (match_here_end U p Hmin) in E.
    destruct m; [now exists [] | discriminate].
  - destruct (match_here U p prev (c :: s)) as [[|n]|] eqn:E'.
    + apply match_here_sound, matches_length in E'. lia.
    + rewrite (sub_from_hit _ _ _ _ _ _ E') in E.
      destruct m as [|x m]; [now exists (c :: s)|].
      rewrite Hrepl in E. cbn [app forallb] in *. injection E as <- _.
      apply andb_true_iff in Hm as [Hx _].
      rewrite (not_P_repl z0) in Hx by (rewrite Hrepl; now left).
      discriminate.
    + rewrite sub_from_miss in E by exact E'.
      destruct m as [|x m]; [now exists (c :: s)|].
      cbn [app forallb] in *. injection E as <- E.
      apply andb_true_iff in Hm as [_ Hm].
      destruct (IH _ _ _ Hm E) as [r' ->]. now exists r'.
Qed.

(** A run of characters none of which occurs in the replacement, found in
    the output, was in the input already. *)
Lemma sub_from_infix_back (s : text) :
  forall prev pre m post,
    m <> [] -> forallb P m = true ->
    sub_from U p repl prev s 0 = pre ++ m ++ post ->
    exists pre' post', s = pre' ++ m ++ post'.
Proof.
  assert (H : forall k s, (List.length s <= k)%nat ->
            forall prev pre m post,
              m <> [] -> forallb P m = true ->
              sub_from U p repl prev s 0 = pre ++ m ++ post ->
              exists pre' post', s = pre' ++ m ++ post').
  { clear s. induction k as [|k IH]; intros s Hk prev pre m post Hne Hm E.
    - destruct s; [|simpl in Hk; lia]. cbn [sub_from] in E.
      rewrite (match_here_end U p Hmin) in E.
      destruct pre, m; try discriminate. congruence.
    - destruct (match_here U p prev s) as [[|n]|] eqn:E'.
      + apply match_here_sound, matches_length in E'. lia.
      + rewrite (sub_from_hit _ _ _ _ _ _ E') in E.
        pose proof (match_here_sound _ _ _ _ _ E') as Hs.
        apply matches_length in Hs.
        assert (Hback : forall pre0,
                   sub_from U p repl (prev_after prev s (S n))
                     (skipn (S n) s) 0 = pre0 ++ m ++ post ->
                   exists pre' post', s = pre' ++ m ++ post').
        { intros pre0 E0.
          apply (IH (skipn (S n) s)) in E0 as (a & b & E0);
            [|rewrite length_skipn; lia | exact Hne | exact Hm].
          exists (firstn (S n) s ++ a), b.
          rewrite <- app_assoc, <- E0. symmetry. apply firstn_skipn. }
        apply app_eq_app in E as [l [[E1 E2]|[E1 E2]]].
        * destruct l as [|x l].
          { cbn [app] in E2. symmetry in E2. now apply (Hback []). }
          destruct m as [|y m]; [congruence|].
          cbn [app forallb] in *. injection E2 as -> _.
          apply andb_true_iff in Hm as [Hx _].
          rewrite (not_P_repl x) in Hx; [discriminate|].
          rewrite E1. apply in_or_app. right. now left.
        * now apply (Hback l).
      + destruct s as [|c s].
        * cbn [sub_from] in E. rewrite E' in E.
          destruct pre, m; try discriminate. congruence.
        * pose proof E as E0.
          rewrite sub_from_miss in E by exact E'.
          destruct pre as [|x pre].
          -- cbn [app] in E0.
             destruct (sub_from_prefix_back _ _ _ _ Hm E0) as [r' ->].
             now exists [], r'.
          -- injection E as <- E.
             apply (IH s) in E as (a & b & ->);
               [|simpl in Hk; lia | exact Hne | exact Hm].
             now exists (c :: a), b. }
  now apply (H (List.length s)).
Qed.

End InfixBack.

Section PhoneRule.

Context (U : UnicodeData).

Lemma forallb_sep_chars (d : text) :
  forallb (class_mem U c_sep) d = true -> forallb (phone_char U) d = true.
Proof.
  induction d as [|c d IH]; [reflexivity|]. cbn [forallb].
  rewrite !andb_true_iff. intros [Hc Hd]. split; [|auto].
  unfold phone_char. cbn [class_mem c_sep existsb citem_mem] in Hc.
  rewrite orb_false_r in Hc.
  apply orb_true_iff in Hc as [Hc|Hc];
    [|apply orb_true_iff in Hc as [Hc|Hc]]; rewrite Hc;
    rewrite ?orb_true_r; reflexivity.
Qed.

Lemma opt_char (c0 : N) (a : text) :
  within (Some 1%nat) (List.length a) ->
  forallb (class_mem U [CChar c0]) a = true -> a = [] \/ a = [c0].
Proof.
  destruct a as [|x [|y a]]; cbn [List.length within]; try lia; [now left|].
  intros _. cbn [forallb class_mem existsb citem_mem].
  rewrite orb_false_r, andb_true_r. intros ->%N.eqb_eq. now right.
Qed.

Lemma opt_sep (a : text) :
  within (Some 1%nat) (List.length a) ->
  forallb (class_mem U c_sep) a = true -> sep_opt a.
Proof.
  destruct a as [|x [|y a]]; cbn [List.length within]; try lia; [now left|].
  intros _. cbn [forallb class_mem c_sep existsb citem_mem].
  rewrite orb_false_r, andb_true_r, !orb_true_iff, !N.eqb_eq.
  intro H. right. exists x. tauto.
Qed.

Lemma sep_opt_class (s : text) :
  sep_opt s ->
  (List.length s <= 1)%nat /\ forallb (class_mem U c_sep) s = true.
Proof.
  intros [->|(c & -> & H)]; [split; [simpl; lia | reflexivity]|].
  split; [simpl; lia|].
  cbn [forallb class_mem c_sep existsb citem_mem].
  rewrite orb_false_r, andb_true_r, !orb_true_iff, !N.eqb_eq. tauto.
Qed.

Lemma matches_phone_like (m : text) :
  phone_like U m <-> matches U PHONE_RE None m (List.length m).
Proof.
  split.
  - intros (op & a & cp & s1 & b & s2 & c & -> & Hop & Hcp & Hs1 & Hs2
            & Ha & La & Hb & Lb & Hc & Lc).
    apply sep_opt_class in Hs1 as [L1 F1]. apply sep_opt_class in Hs2 as [L2 F2].
    replace (List.length (op ++ a ++ cp ++ s1 ++ b ++ s2 ++ c))
      with (List.length op + (List.length a + (List.length cp
              + (List.length s1 + (List.length b + (List.length s2
              + (List.length c + 0)))))))%nat
      by (rewrite !length_app; lia).
    rewrite <- (app_nil_r c) at 1.
    apply matches_rep_join;
      [reflexivity | lia
       | destruct Hop as [-> | ->]; simpl; lia
       | destruct Hop as [-> | ->]; reflexivity |].
    apply matches_rep_join;
      [reflexivity | lia | simpl; lia | now rewrite forallb_digit |].
    apply matches_rep_join;
      [reflexivity | lia
       | destruct Hcp as [-> | ->]; simpl; lia
       | destruct Hcp as [-> | ->]; reflexivity |].
    apply matches_rep_join; [reflexivity | lia | exact L1 | exact F1 |].
    apply matches_rep_join;
      [reflexivity | lia | simpl; lia | now rewrite forallb_digit |].
    apply matches_rep_join; [reflexivity | lia | exact L2 | exact F2 |].
    apply matches_rep_join;
      [reflexivity | lia | simpl; lia | now rewrite forallb_digit |].
    constructor.
  - intro H. unfold PHONE_RE, opt in H.
    apply matches_rep_split in H
      as (op & r1 & n1 & -> & E1 & _ & Lop & Hop & H); [|reflexivity].
    apply matches_rep_split in H
      as (a & r2 & n2 & -> & E2 & La & La' & Ha & H); [|reflexivity].
    apply matches_rep_split in H
      as (cp & r3 & n3 & -> & E3 & _ & Lcp & Hcp & H); [|reflexivity].
    apply matches_rep_split in H
      as (s1 & r4 & n4 & -> & E4 & _ & Ls1 & Hs1 & H); [|reflexivity].
    apply matches_rep_split in H
      as (b & r5 & n5 & -> & E5 & Lb & Lb' & Hb & H); [|reflexivity].
    apply matches_rep_split in H
      as (s2 & r6 & n6 & -> & E6 & _ & Ls2 & Hs2 & H); [|reflexivity].
    apply matches_rep_split in H
      as (c & r7 & n7 & -> & E7 & Lc & Lc' & Hc & H); [|reflexivity].
    apply matches_nil_inv in H. subst.
    rewrite !length_app in E1.
    assert (r7 = []) as -> by (destruct r7; [reflexivity | simpl in E1; lia]).
    rewrite forallb_digit in Ha, Hb, Hc. cbn [within] in *.
    exists op, a, cp, s1, b, s2, c. rewrite app_nil_r.
    repeat split; auto; try lia.
    + now apply opt_char.
    + now apply opt_char.
    + now apply opt_sep.
    + now apply opt_sep.
Qed.

Lemma date_like_chars (m : text) :
  date_like U m -> m <> [] /\ forallb (date_char U) m = true.
Proof.
  intros (dd & mm & yy & -> & Hd & Hm & Hy & Ld & Lm & Ly). split.
  - destruct dd; [simpl in Ld; lia | discriminate].
  - assert (D : forall d, forallb (uni_isdecimal U) d = true ->
                          forallb (date_char U) d = true).
    { intros d H. rewrite forallb_forall in *. intros c Hc.
      unfold date_char. now rewrite (H c Hc). }
    rewrite !forallb_app, (D dd), (D mm), (D yy) by assumption. reflexivity.
Qed.

Lemma phone_like_chars (m : text) :
  phone_like U m -> m <> [] /\ forallb (phone_char U) m = true.
Proof.
  intros (op & a & cp & s1 & b & s2 & c & -> & Hop & Hcp & Hs1 & Hs2
          & Ha & La & Hb & Lb & Hc & Lc). split.
  - destruct a; [simpl in La; lia|]. destruct Hop as [-> | ->]; discriminate.
  - assert (D : forall d, forallb (uni_isdecimal U) d = true ->
                          forallb (phone_char U) d = true).
    { intros d H. rewrite forallb_forall in *. intros x Hx.
      unfold phone_char. now rewrite (H x Hx). }
    apply sep_opt_class in Hs1 as [_ F1]. apply sep_opt_class in Hs2 as [_ F2].
    rewrite !forallb_app, (D a), (D b), (D c), (forallb_sep_chars s1),
      (forallb_sep_chars s2) by assumption.
    destruct Hop as [-> | ->], Hcp as [-> | ->]; reflexivity.
Qed.

Lemma no_phone_left (t pre m post : text) :
  re_sub U PHONE_RE REDACTED_PHONE t = pre ++ m ++ post -> ~ phone_like U m.
Proof.
  intros E H. apply matches_phone_like in H.
  assert (Hloc : matches U PHONE_RE None (m ++ post) (List.length m)).
  { apply (matches_local U PHONE_RE None m (List.length m) eq_refl H).
    now rewrite firstn_app, Nat.sub_diag, firstn_O, app_nil_r. }
  revert Hloc.
  apply (sub_from_no_residual U PHONE_RE REDACTED_PHONE 0x5B 0x5D
           (str "REDACTED_PHONE") eq_refl ltac:(simpl; lia) eq_refl eq_refl
           eq_refl eq_refl t None pre (m ++ post) (List.length m) None E).
Qed.

Lemma scrub_text_no_date (t pre m post : text) :
  scrub_text U t = pre ++ m ++ post -> ~ date_like U m.
Proof.
  intros E H. pose proof (date_like_chars m H) as [Hne Hc].
  rewrite scrub_text_rules in E. unfold re_sub in E.
  apply (sub_from_infix_back U EMAIL_RE REDACTED_EMAIL (date_char U) 0x5B
           (str "REDACTED_EMAIL]"))
    in E as (pre1 & post1 & E);
    [|simpl; lia | reflexivity | reflexivity | exact Hne | exact Hc].
  apply (sub_from_infix_back U PHONE_RE REDACTED_PHONE (date_char U) 0x5B
           (str "REDACTED_PHONE]"))
    in E as (pre2 & post2 & E);
    [|simpl; lia | reflexivity | reflexivity | exact Hne | exact Hc].
  exact (no_date_left U _ _ _ _ E H).
Qed.

Lemma scrub_text_no_phone (t pre m post : text) :
  scrub_text U t = pre ++ m ++ post -> ~ phone_like U m.
Proof.
  intros E H. pose proof (phone_like_chars m H) as [Hne Hc].
  rewrite scrub_text_rules in E. unfold re_sub in E.
  apply (sub_from_infix_back U EMAIL_RE REDACTED_EMAIL (phone_char U) 0x5B
           (str "REDACTED_EMAIL]"))
    in E as (pre1 & post1 & E);
    [|simpl; lia | reflexivity | reflexivity | exact Hne | exact Hc].
  exact (no_phone_left _ _ _ _ E H).
Qed.

End PhoneRule.

(** X3: after [scrub_text] no sequence of the date form and none of the
    phone form (optional parenthesis, three digits, optional parenthesis,
    optional separator, three digits, optional separator, four digits) is
    left anywhere in the output: the later rules cannot bring one back. *)
Theorem scrub_text_leaves_no_date_or_phone (U : UnicodeData)
    (t pre m post : text) :
  scrub_text U t = pre ++ m ++ post ->
  ~ date_like U m /\ ~ phone_like U m
  /\ (phone_like U m <-> matches U PHONE_RE None m (List.length m)).
Proof.
  intro E. split; [exact (scrub_text_no_date U _ _ _ _ E)|].
  split; [exact (scrub_text_no_phone U _ _ _ _ E)|].
  apply matches_phone_like.
Qed.

Lemma scrub_text_leaves_no_date_or_phone_witness :
  scrub_text ascii_only (str "call (555) 123-4567 on 1/2/2003")
  = str "call " ++ str "[REDACTED_PHONE]" ++ str " on [REDACTED_DATE]"
  /\ ~ date_like ascii_only (str "[REDACTED_PHONE]")
  /\ ~ phone_like ascii_only (str "[REDACTED_PHONE]").
Proof.
  assert (E : scrub_text ascii_only (str "call (555) 123-4567 on 1/2/2003")
              = str "call " ++ str "[REDACTED_PHONE]"
                ++ str " on [REDACTED_DATE]") by reflexivity.
  split; [exact E|].
  pose proof (scrub_text_leaves_no_date_or_phone ascii_only _ _ _ _ E)
    as (H1 & H2 & _).
  split; assumption.
Defined.

Lemma re_sub_idempotent (U : UnicodeData) (p : regex) (repl : text)
    (z0 z1 : N) (mid : text) (t : text) :
  ctx_free p = true -> (0 < min_len p)%nat -> repl = z0 :: mid ++ [z1] ->
  in_alphabet U p z0 = false -> in_alphabet U p z1 = false ->
  scan_none U p None repl = true ->
  re_sub U p repl (re_sub U p repl t) = re_sub U p repl t.
Proof.
  intros H1 H2 H3 H4 H5 H6. apply re_sub_no_match.
  intros pre s n E.
  exact (sub_from_no_residual U p repl z0 z1 mid H1 H2 H3 H4 H5 H6 t None pre
           s n _ E).
Qed.

(** X4: each of the rules 2 to 4 is idempotent, applying it to its own
    output changes nothing; [scrub_text] as a whole is not, because a date
    replaced right after two capitalised words gives the name rule a word
    boundary it did not have. *)
Theorem scrub_rules_idempotent (U : UnicodeData) (t : text) :
  re_sub U DATE_RE REDACTED_DATE (re_sub U DATE_RE REDACTED_DATE t)
  = re_sub U DATE_RE REDACTED_DATE t
  /\ re_sub U PHONE_RE REDACTED_PHONE (re_sub U PHONE_RE REDACTED_PHONE t)
     = re_sub U PHONE_RE REDACTED_PHONE t
  /\ re_sub U EMAIL_RE REDACTED_EMAIL (re_sub U EMAIL_RE REDACTED_EMAIL t)
     = re_sub U EMAIL_RE REDACTED_EMAIL t
  /\ scrub_text U (str "Ab Cd1/1/11") = str "Ab Cd[REDACTED_DATE]"
  /\ scrub_text U (scrub_text U (str "Ab Cd1/1/11"))
     = str "[REDACTED_NAME][REDACTED_DATE]".
Proof.
  split; [|split; [|split; [|split]]].
  - apply (re_sub_idempotent U DATE_RE REDACTED_DATE 0x5B 0x5D
             (str "REDACTED_DATE")); (reflexivity || (simpl; lia)).
  - apply (re_sub_idempotent U PHONE_RE REDACTED_PHONE 0x5B 0x5D
             (str "REDACTED_PHONE")); (reflexivity || (simpl; lia)).
  - apply (re_sub_idempotent U EMAIL_RE REDACTED_EMAIL 0x5B 0x5D
             (str "REDACTED_EMAIL")); (reflexivity || (simpl; lia)).
  - reflexivity.
  - reflexivity.
Qed.

(** *** The characters of the output *)

Lemma sub_from_chars (U : UnicodeData) (p : regex) (repl : text) (c : N) :
  forall s prev k,
    In c (sub_from U p repl prev s k) -> In c s \/ In c repl.
Proof.
  induction s as [|x s IH]; intros prev k H.
  - destruct k; cbn [sub_from] in H; [|contradiction].
    destruct (match_here U p prev []) as [[|n]|];
      rewrite ?app_nil_r in H; auto.
  - destruct k as [|k]; cbn [sub_from] in H.
    + destruct (match_here U p prev (x :: s)) as [[|n]|].
      * apply in_app_or in H as [H|H]; [now right|].
        destruct H as [->|H]; [left; now left|].
        apply IH in H as [H|H]; [left; now right | now right].
      * apply in_app_or in H as [H|H]; [now right|].
        apply IH in H as [H|H]; [left; now right | now right].
      * destruct H as [->|H]; [left; now left|].
        apply IH in H as [H|H]; [left; now right | now right].
    + apply IH in H as [H|H]; [left; now right | now right].
Qed.

Lemma scrub_text_chars (U : UnicodeData) (t : text) (c : N) :
  In c (scrub_text U t) -> In c t \/ In c (concat PLACEHOLDERS).
Proof.
  rewrite scrub_text_rules. unfold re_sub. intro H.
  apply sub_from_chars in H as [H|H];
    [|right; cbn [PLACEHOLDERS concat]; rewrite !in_app_iff; tauto].
  apply sub_from_chars in H as [H|H];
    [|right; cbn [PLACEHOLDERS concat]; rewrite !in_app_iff; tauto].
  apply sub_from_chars in H as [H|H];
    [|right; cbn [PLACEHOLDERS concat]; rewrite !in_app_iff; tauto].
  apply sub_from_chars in H as [H|H];
    [now left|right; cbn [PLACEHOLDERS concat]; rewrite !in_app_iff; tauto].
Qed.

Lemma unicode_text_forall (s : text) :
  unicode_text s <-> forall c, In c s -> is_scalar_value c = true.
Proof. unfold unicode_text. apply forallb_forall. Qed.

Lemma scrub_text_unicode (U : UnicodeData) (t : text) :
  unicode_text t -> unicode_text (scrub_text U t).
Proof.
  rewrite !unicode_text_forall. intros H c Hc.
  apply scrub_text_chars in Hc as [Hc|Hc]; [now apply H|].
  assert (F : forallb is_scalar_value (concat PLACEHOLDERS) = true)
    by reflexivity.
  rewrite forallb_forall in F. now apply F.
Qed.

(** X5: scrubbing only keeps, drops or replaces.  Every character of the
    output is a character of the input or of a placeholder, so a Unicode
    text stays one. *)
Theorem scrub_text_invents_nothing (U : UnicodeData) (t : text) :
  (forall c, In c (scrub_text U t) -> In c t \/ In c (concat PLACEHOLDERS))
  /\ (unicode_text t -> unicode_text (scrub_text U t)).
Proof.
  split; [apply scrub_text_chars | apply scrub_text_unicode].
Qed.

Lemma scrub_text_invents_nothing_witness :
  unicode_text [0xE9; 0x40; 0x1F600]
  /\ unicode_text (scrub_text ascii_only [0xE9; 0x40; 0x1F600]).
Proof.
  assert (H : unicode_text [0xE9; 0x40; 0x1F600]) by reflexivity.
  split; [exact H|].
  exact (proj2 (scrub_text_invents_nothing ascii_only _) H).
Defined.

(** ** Segmenter: lines and whitespace *)

Lemma split_on_nonempty (sep : N) (t : text) : split_on sep t <> [].
Proof.
  destruct t as [|c t]; [discriminate|]. cbn [split_on].
  destruct (c =? sep); [discriminate|].
  destruct (split_on sep t); discriminate.
Qed.

Lemma split_on_app (sep : N) (x y : text) :
  split_on sep (x ++ sep :: y) = split_on sep x ++ split_on sep y.
Proof.
  induction x as [|c x IH].
  - cbn [app split_on]. now rewrite N.eqb_refl.
  - cbn [app split_on]. rewrite IH.
    destruct (c =? sep); [reflexivity|].
    pose proof (split_on_nonempty sep x) as H.
    destruct (split_on sep x); [congruence | reflexivity].
Qed.

Lemma split_on_snoc (sep c : N) (x : text) :
  (c =? sep) = false ->
  exists ls l,
    split_on sep x = ls ++ [l] /\ split_on sep (x ++ [c]) = ls ++ [l ++ [c]].
Proof.
  intro Hc. induction x as [|d x (ls & l & E1 & E2)].
  - exists [], []. cbn [app split_on]. now rewrite Hc.
  - cbn [app split_on]. rewrite E1, E2.
    destruct (d =? sep).
    + now exists ([] :: ls), l.
    + destruct ls as [|l0 ls]; cbn [app].
      * now exists [], (d :: l).
      * now exists ((d :: l0) :: ls), l.
Qed.

Lemma split_on_head (sep : N) (t l : text) (ls : list text) :
  split_on sep t = l :: ls -> exists b, t = l ++ b.
Proof.
  revert l ls. induction t as [|c t IH]; intros l ls E.
  - injection E as <- _. now exists [].
  - cbn [split_on] in E. destruct (c =? sep).
    + injection E as <- _. now exists (c :: t).
    + pose proof (split_on_nonempty sep t) as Hne.
      destruct (split_on sep t) as [|l0 ls0]; [congruence|].
      injection E as <- _.
      destruct (IH l0 ls0 eq_refl) as (b & ->). now exists b.
Qed.

Lemma In_split_on (sep : N) (t line : text) :
  In line (split_on sep t) -> exists a b, t = a ++ line ++ b.
Proof.
  revert line. induction t as [|c t IH]; intros line H.
  - destruct H as [<-|[]]. now exists [], [].
  - cbn [split_on] in H. destruct (c =? sep).
    + destruct H as [<-|H]; [now exists [], (c :: t)|].
      apply IH in H as (a & b & ->). now exists (c :: a), b.
    + pose proof (split_on_nonempty sep t) as Hne.
      destruct (split_on sep t) as [|l ls] eqn:E; [congruence|].
      destruct H as [<-|H].
      * apply split_on_head in E as (b & ->). now exists [], b.
      * destruct (IH line) as (a & b & ->); [now right|].
        now exists (c :: a), b.
Qed.

Lemma lstrip_suffix (s : text) : exists a, s = a ++ lstrip s.
Proof.
  induction s as [|c s (a & E)]; [now exists []|].
  cbn [lstrip]. destruct (py_isspace c); [|now exists []].
  exists (c :: a). cbn [app]. now rewrite <- E.
Qed.

Lemma strip_infix (s : text) : exists a b, s = a ++ strip s ++ b.
Proof.
  destruct (lstrip_suffix s) as (a & Ea).
  destruct (lstrip_suffix (rev (lstrip s))) as (b & Eb).
  exists a, (rev b). unfold strip, rstrip.
  rewrite <- rev_app_distr, <- Eb, rev_involutive. exact Ea.
Qed.

Lemma record_fields_infix (t tg : text) (rs : list Record_) (r : Record_) :
  segment_into_pairs t tg = Ok rs -> In r rs ->
  (exists a b, t = a ++ prompt r ++ b) /\ (exists a b, t = a ++ response r ++ b).
Proof.
  rewrite segment_into_pairs_eq. intros [= <-] Hin.
  apply pair_up_fields in Hin as [Hp Hr].
  assert (H : forall p, In p (paragraphs_of t) -> exists a b, t = a ++ p ++ b).
  { intros p Hp'. apply In_paragraphs in Hp' as ((line & Hl & ->) & _).
    apply In_split_on in Hl as (a & b & ->).
    destruct (strip_infix line) as (a' & b' & E).
    exists (a ++ a'), (b' ++ b). rewrite E at 1.
    now rewrite <- !app_assoc. }
  split; now apply H.
Qed.

(** X6: what reaches a record has been scrubbed.  When the upload path
    (lines 61-62) segments the scrubbed text, no prompt and no response of
    any record contains an e-mail-like, a date-like or a phone-like
    sequence, whatever the raw text was. *)
Theorem scrubbed_records_hold_no_pattern (U : UnicodeData)
    (raw tg : text) (rs : list Record_) (r : Record_) (pre m post : text) :
  segment_into_pairs (scrub_text U raw) tg = Ok rs ->
  In r rs ->
  prompt r = pre ++ m ++ post \/ response r = pre ++ m ++ post ->
  ~ email_like U m /\ ~ date_like U m /\ ~ phone_like U m.
Proof.
  intros Hseg Hin Hf.
  destruct (record_fields_infix _ _ _ _ Hseg Hin)
    as ((a1 & b1 & E1) & (a2 & b2 & E2)).
  assert (E : exists a b, scrub_text U raw = a ++ m ++ b).
  { destruct Hf as [Hf|Hf].
    - exists (a1 ++ pre), (post ++ b1). rewrite E1 at 1. rewrite Hf.
      now rewrite <- !app_assoc.
    - exists (a2 ++ pre), (post ++ b2). rewrite E2 at 1. rewrite Hf.
      now rewrite <- !app_assoc. }
  destruct E as (a & b & E). repeat split.
  - rewrite scrub_text_rules in E. exact (no_email_left U _ _ _ _ E).
  - exact (scrub_text_no_date U _ _ _ _ E).
  - exact (scrub_text_no_phone U _ _ _ _ E).
Qed.

Lemma scrubbed_records_hold_no_pattern_witness :
  ~ email_like ascii_only (str "REDACTED")
  /\ ~ date_like ascii_only (str "REDACTED")
  /\ ~ phone_like ascii_only (str "REDACTED").
Proof.
  apply (scrubbed_records_hold_no_pattern ascii_only
           (str "hello" ++ [newline] ++ str "a@b.c x")
           (str "t")
           [mkRecord (str "hello") (str "[REDACTED_EMAIL] x") (str "t")]
           (mkRecord (str "hello") (str "[REDACTED_EMAIL] x") (str "t"))
           (str "[") (str "REDACTED") (str "_EMAIL] x")).
  - vm_compute. reflexivity.
  - now left.
  - right. reflexivity.
Defined.

Lemma strip_cons_space (c : N) (l : text) :
  py_isspace c = true -> strip (c :: l) = strip l.
Proof. intro H. unfold strip. cbn [lstrip]. now rewrite H. Qed.

Lemma strip_snoc_space (c : N) (l : text) :
  py_isspace c = true -> strip (l ++ [c]) = strip l.
Proof.
  intro H. induction l as [|d l IH].
  - cbn [app]. now rewrite strip_cons_space.
  - cbn [app]. destruct (py_isspace d) eqn:Hd.
    + now rewrite !strip_cons_space.
    + unfold strip. cbn [lstrip]. rewrite Hd. unfold rstrip.
      change (d :: l ++ [c]) with ((d :: l) ++ [c]).
      rewrite rev_app_distr. cbn [rev app lstrip]. now rewrite H.
Qed.

Lemma paragraphs_of_app (x y : text) :
  paragraphs_of (x ++ newline :: y) = paragraphs_of x ++ paragraphs_of y.
Proof.
  unfold paragraphs_of. now rewrite split_on_app, List.filter_app, List.map_app.
Qed.

Lemma paragraphs_of_nil : paragraphs_of [] = [].
Proof. reflexivity. Qed.

Lemma paragraphs_of_cons_space (c : N) (y : text) :
  py_isspace c = true -> paragraphs_of (c :: y) = paragraphs_of y.
Proof.
  intro H. unfold paragraphs_of. cbn [split_on].
  destruct (c =? newline).
  - reflexivity.
  - pose proof (split_on_nonempty newline y) as Hne.
    destruct (split_on newline y) as [|l ls]; [congruence|].
    cbn [List.filter]. rewrite (strip_cons_space c l H).
    destruct (negb (text_eqb (strip l) [])); [|reflexivity].
    cbn [List.map]. now rewrite (strip_cons_space c l H).
Qed.

Lemma paragraphs_of_snoc_space (c : N) (x : text) :
  py_isspace c = true -> paragraphs_of (x ++ [c]) = paragraphs_of x.
Proof.
  intro H. destruct (c =? newline) eqn:Hc.
  - apply N.eqb_eq in Hc as ->. rewrite paragraphs_of_app.
    rewrite paragraphs_of_nil. apply app_nil_r.
  - destruct (split_on_snoc newline c x Hc) as (ls & l & E1 & E2).
    unfold paragraphs_of. rewrite E1, E2, !List.filter_app, !List.map_app.
    cbn [List.filter]. rewrite (strip_snoc_space c l H).
    destruct (negb (text_eqb (strip l) [])); [|reflexivity].
    cbn [List.map]. now rewrite (strip_snoc_space c l H).
Qed.

Lemma paragraphs_of_space_l (w y : text) :
  all_space w -> paragraphs_of (w ++ y) = paragraphs_of y.
Proof.
  unfold all_space. induction w as [|c w IH]; [reflexivity|].
  cbn [forallb app]. intros [Hc Hw]%andb_true_iff.
  rewrite paragraphs_of_cons_space by exact Hc. auto.
Qed.

Lemma paragraphs_of_space_r (w x : text) :
  all_space w -> paragraphs_of (x ++ w) = paragraphs_of x.
Proof.
  unfold all_space. revert x. induction w as [|c w IH]; intro x.
  - now rewrite app_nil_r.
  - cbn [forallb]. intros [Hc Hw]%andb_true_iff.
    change (c :: w) with ([c] ++ w). rewrite app_assoc.
    rewrite IH by exact Hw. now apply paragraphs_of_snoc_space.
Qed.

(** X7: whitespace around lines does not count.  Whitespace (blanks, tabs,
    further newlines, ...) at the start or the end of the text, right after
    a newline or right before one - indentation, trailing blanks, blank
    lines - never changes the records of [segment_into_pairs]. *)
Theorem segment_ignores_space_around_lines (w x y tg : text) :
  all_space w ->
  segment_into_pairs (w ++ y) tg = segment_into_pairs y tg
  /\ segment_into_pairs (x ++ w) tg = segment_into_pairs x tg
  /\ segment_into_pairs (x ++ newline :: w ++ y) tg
     = segment_into_pairs (x ++ newline :: y) tg
  /\ segment_into_pairs (x ++ w ++ newline :: y) tg
     = segment_into_pairs (x ++ newline :: y) tg.
Proof.
  intro H. rewrite !segment_into_pairs_eq. repeat split; f_equal; f_equal.
  - now apply paragraphs_of_space_l.
  - now apply paragraphs_of_space_r.
  - rewrite !paragraphs_of_app. f_equal. now apply paragraphs_of_space_l.
  - rewrite app_assoc, !paragraphs_of_app. f_equal.
    now apply paragraphs_of_space_r.
Qed.

Lemma segment_ignores_space_around_lines_witness :
  segment_into_pairs (str "a" ++ newline :: [32; 9; 10; 32] ++ str "b")
    (str "t")
  = segment_into_pairs (str "a" ++ newline :: str "b") (str "t").
Proof.
  apply (segment_ignores_space_around_lines [32; 9; 10; 32] (str "a")
           (str "b") (str "t")).
  reflexivity.
Defined.

Lemma pair_up_app (tg : text) (l1 l2 : list text) :
  Nat.even (List.length l1) = true ->
  pair_up tg (l1 ++ l2) = pair_up tg l1 ++ pair_up tg l2.
Proof.
  induction l1 as [| a | a b l1 IH] using list_pair_ind.
  - reflexivity.
  - discriminate.
  - cbn [List.length Nat.even app pair_up]. intro H. now rewrite IH.
Qed.

Lemma pair_up_length (tg : text) (l : list text) :
  List.length (pair_up tg l) = (List.length l / 2)%nat.
Proof.
  induction l as [| a | a b l IH] using list_pair_ind; try reflexivity.
  cbn [pair_up List.length]. rewrite IH.
  change (S (S (List.length l))) with (2 + List.length l)%nat.
  replace (2 + List.length l)%nat with (1 * 2 + List.length l)%nat by lia.
  now rewrite Nat.div_add_l by lia.
Qed.

Lemma pair_up_app_odd (tg : text) (l1 l2 : list text) (a b : text) :
  Nat.even (List.length l1) = true ->
  pair_up tg (l1 ++ a :: b :: l2) = pair_up tg l1 ++ mkRecord a b tg :: pair_up tg l2.
Proof. intro H. now rewrite pair_up_app. Qed.

(** X8: segmentation is compositional at a newline after complete pairs.
    If the part before a newline has an even number of non-blank lines, the
    records of the whole text are the records of that part followed by the
    records of the rest; if it has an odd number, its last non-blank line is
    not dropped but becomes the prompt of the first non-blank line of the
    rest.  The number of records is half the number of non-blank lines,
    rounded down. *)
Theorem segment_into_pairs_app (x y tg : text) :
  (Nat.even (List.length (paragraphs_of x)) = true ->
   forall rx ry,
     segment_into_pairs x tg = Ok rx -> segment_into_pairs y tg = Ok ry ->
     segment_into_pairs (x ++ newline :: y) tg = Ok (rx ++ ry))
  /\ (forall px p q py,
        paragraphs_of x = px ++ [p] -> paragraphs_of y = q :: py ->
        Nat.even (List.length px) = true ->
        segment_into_pairs (x ++ newline :: y) tg
        = Ok (pair_up tg px ++ mkRecord p q tg :: pair_up tg py))
  /\ (forall rs, segment_into_pairs x tg = Ok rs ->
        List.length rs = (List.length (kept_lines x) / 2)%nat).
Proof.
  rewrite !segment_into_pairs_eq. repeat split.
  - intros H rx ry [= <-] [= <-].
    now rewrite paragraphs_of_app, pair_up_app.
  - intros px p q py Ex Ey H. rewrite paragraphs_of_app, Ex, Ey.
    rewrite <- app_assoc. cbn [app]. now rewrite pair_up_app_odd.
  - intros rs [= <-]. rewrite pair_up_length. unfold paragraphs_of, kept_lines.
    now rewrite List.length_map.
Qed.

Lemma segment_into_pairs_app_witness :
  segment_into_pairs (str "a" ++ newline :: str "b" ++ newline :: str "c"
                      ++ newline :: str "d") (str "t")
  = Ok [mkRecord (str "a") (str "b") (str "t");
        mkRecord (str "c") (str "d") (str "t")].
Proof.
  change (str "a" ++ newline :: str "b" ++ newline :: str "c"
          ++ newline :: str "d")
    with ((str "a" ++ newline :: str "b") ++ newline
          :: (str "c" ++ newline :: str "d")).
  exact (proj1 (segment_into_pairs_app (str "a" ++ newline :: str "b")
                  (str "c" ++ newline :: str "d") (str "t"))
           eq_refl
           [mkRecord (str "a") (str "b") (str "t")]
           [mkRecord (str "c") (str "d") (str "t")]
           eq_refl eq_refl).
Defined.

Lemma split_on_no_sep (sep : N) (s : text) :
  ~ In sep s -> split_on sep s = [s].
Proof.
  induction s as [|c s IH]; [reflexivity|]. cbn [In split_on]. intro H.
  destruct (N.eqb_spec c sep) as [->|_]; [tauto|].
  rewrite IH by tauto. reflexivity.
Qed.

Lemma join_cons_cons (sep a b : text) (l : list text) :
  join sep (a :: b :: l) = a ++ sep ++ join sep (b :: l).
Proof. reflexivity. Qed.

Lemma join_split_on (sep : N) (t : text) : join [sep] (split_on sep t) = t.
Proof.
  induction t as [|c t IH]; [reflexivity|]. cbn [split_on].
  pose proof (split_on_nonempty sep t) as Hne.
  destruct (N.eqb_spec c sep) as [->|_].
  - destruct (split_on sep t) as [|l ls]; [congruence|].
    rewrite join_cons_cons. cbn [app]. now rewrite IH.
  - destruct (split_on sep t) as [|l [|l' ls]]; [congruence| |].
    + cbn [join] in *. now rewrite IH.
    + rewrite join_cons_cons in *. cbn [app] in *. now rewrite IH.
Qed.

Lemma split_on_sep_free (sep : N) (t : text) :
  Forall (fun l => ~ In sep l) (split_on sep t).
Proof.
  induction t as [|c t IH]; [repeat constructor; intros []|]. cbn [split_on].
  destruct (N.eqb_spec c sep) as [->|Hc].
  - constructor; [intros []|exact IH].
  - destruct (split_on sep t) as [|l ls].
    + repeat constructor. intros [H|[]]. congruence.
    + inversion IH as [|? ? Hl Hls]; subst. constructor; [|exact Hls].
      intros [H|H]; [congruence | now apply Hl].
Qed.

(** The pieces of [split] are the lines of the text, and the text has no
    other lines. *)
Lemma lines_of_split (t : text) : lines_of t (split_on newline t).
Proof.
  split; [apply split_on_nonempty|].
  split; [apply join_split_on | apply split_on_sep_free].
Qed.

Lemma lines_of_unique (t : text) (ls : list text) :
  lines_of t ls -> ls = split_on newline t.
Proof.
  intros (Hne & <- & Hf).
  induction ls as [|x ls IH]; [congruence|].
  inversion Hf as [|? ? Hx Hls]; subst.
  destruct ls as [|y rest].
  - cbn [join]. symmetry. now apply split_on_no_sep.
  - rewrite join_cons_cons. cbn [app]. rewrite split_on_app.
    rewrite split_on_no_sep by exact Hx. cbn [app]. f_equal.
    apply IH; [discriminate | exact Hls].
Qed.

Lemma lstrip_space (s : text) : exists a, s = a ++ lstrip s /\ all_space a.
Proof.
  induction s as [|c s (a & E & Ha)]; [now exists []|].
  cbn [lstrip]. destruct (py_isspace c) eqn:Hc; [|now exists []].
  exists (c :: a). split; [cbn [app]; now rewrite <- E|].
  unfold all_space in *. cbn [forallb]. now rewrite Hc.
Qed.

Lemma all_space_rev (a : text) : all_space a -> all_space (rev a).
Proof.
  unfold all_space. rewrite !forallb_forall. intros H x Hx.
  apply H. now rewrite in_rev.
Qed.

Lemma strip_space (s : text) :
  exists a b, s = a ++ strip s ++ b /\ all_space a /\ all_space b.
Proof.
  destruct (lstrip_space s) as (a & Ea & Ha).
  destruct (lstrip_space (rev (lstrip s))) as (b & Eb & Hb).
  exists a, (rev b). unfold strip, rstrip.
  rewrite <- rev_app_distr, <- Eb, rev_involutive.
  split; [exact Ea|]. split; [exact Ha | now apply all_space_rev].
Qed.

Lemma nonblank_all_space (l : text) :
  nonblank l = negb (forallb py_isspace l).
Proof.
  unfold nonblank. induction l as [|c l IH]; [reflexivity|].
  cbn [existsb forallb]. rewrite IH. now destruct (py_isspace c).
Qed.

Lemma lstrip_nil (s : text) : lstrip s = [] <-> all_space s.
Proof.
  unfold all_space. induction s as [|c s IH]; [split; reflexivity|].
  cbn [lstrip forallb]. destruct (py_isspace c); cbn [andb];
    [exact IH | split; discriminate].
Qed.

Lemma strip_nil (s : text) : strip s = [] <-> all_space s.
Proof.
  unfold strip, rstrip. split.
  - intro H. apply (f_equal (@rev N)) in H. rewrite rev_involutive in H.
    cbn [rev] in H. apply lstrip_nil in H.
    pose proof (lstrip_edge s) as He.
    destruct (lstrip s) as [|c u] eqn:E; [now apply lstrip_nil|].
    cbn [edge_space] in He. unfold all_space in H.
    rewrite forallb_forall in H. rewrite (H c) in He; [discriminate|].
    rewrite <- in_rev. now left.
  - intro H. apply lstrip_nil in H. now rewrite H.
Qed.

(** The lines that [segment_into_pairs] keeps are the lines that hold a
    character other than whitespace. *)
Lemma kept_lines_nonblank (t : text) :
  kept_lines t = List.filter nonblank (split_on newline t).
Proof.
  unfold kept_lines. apply List.filter_ext. intro l.
  rewrite nonblank_all_space. f_equal.
  destruct (text_eqb (strip l) []) eqn:E.
  - apply text_eqb_eq, strip_nil in E. symmetry. exact E.
  - destruct (forallb py_isspace l) eqn:F; [|reflexivity].
    apply strip_nil, text_eqb_eq in F. congruence.
Qed.

Lemma strip_stripped_of (l : text) :
  nonblank l = true -> stripped_of (strip l) l.
Proof.
  intro H. split; [|split; [apply strip_trimmed | apply strip_space]].
  intro E. apply strip_nil in E. unfold all_space in E.
  rewrite nonblank_all_space, E in H. discriminate.
Qed.

Lemma lstrip_all_space_app (a s : text) :
  all_space a -> lstrip (a ++ s) = lstrip s.
Proof.
  unfold all_space. induction a as [|c a IH]; [reflexivity|].
  cbn [forallb app lstrip]. intros [Hc Ha]%andb_true_iff.
  rewrite Hc. now apply IH.
Qed.

Lemma lstrip_app_edge (p b : text) :
  p <> [] -> edge_space p = false -> lstrip (p ++ b) = p ++ b.
Proof.
  destruct p as [|c p]; [congruence|].
  cbn [edge_space app lstrip]. now intros _ ->.
Qed.

(** A line has one form without the whitespace around it, the one that
    [strip] computes. *)
Lemma stripped_of_unique (p l : text) : stripped_of p l -> p = strip l.
Proof.
  intros (Hne & [H1 H2] & a & b & -> & Ha & Hb).
  unfold strip, rstrip. rewrite lstrip_all_space_app by exact Ha.
  rewrite lstrip_app_edge by assumption.
  rewrite rev_app_distr, lstrip_all_space_app by now apply all_space_rev.
  assert (Hr : rev p <> []).
  { intro E. apply (f_equal (@rev N)) in E. rewrite rev_involutive in E.
    now apply Hne. }
  rewrite <- (app_nil_r (rev p)), lstrip_app_edge by assumption.
  now rewrite app_nil_r, rev_involutive.
Qed.

(** C10: every emitted record has a prompt and a response that are not
    empty and neither begin nor end with whitespace; each is a line of the
    text without the whitespace around it, not the line as it stands; and
    the number of records is the number of lines that hold a character
    other than whitespace, halved and rounded down.  The lines of a text
    are the newline-free pieces whose concatenation with newlines between
    them is the text; a text has one sequence of lines, and a line one form
    without the whitespace around it.  From the four lines [" a "], a tab,
    ["b  "] and ["c"] the one record (a, b, tag) is made. *)
Theorem segment_records_trimmed (t tg : text) :
  (exists ls recs,
     lines_of t ls
     /\ (forall ls', lines_of t ls' -> ls' = ls)
     /\ segment_into_pairs t tg = Ok recs
     /\ List.length recs = (List.length (List.filter nonblank ls) / 2)%nat
     /\ forall r, In r recs ->
          prompt r <> [] /\ response r <> []
          /\ trimmed (prompt r) /\ trimmed (response r)
          /\ (exists l, In l ls /\ stripped_of (prompt r) l)
          /\ (exists l, In l ls /\ stripped_of (response r) l))
  /\ (forall l p q, stripped_of p l -> stripped_of q l -> p = q)
  /\ segment_into_pairs
       (str " a " ++ [newline; 0x09; newline] ++ str "b  " ++ [newline]
        ++ str "c") tg
     = Ok [mkRecord (str "a") (str "b") tg].
Proof.
  split; [|split; [|rewrite segment_into_pairs_eq; reflexivity]].
  2:{ intros l p q Hp Hq. apply stripped_of_unique in Hp, Hq. congruence. }
  exists (split_on newline t), (pair_up tg (paragraphs_of t)).
  split; [apply lines_of_split|].
  split; [intros ls' H; now apply lines_of_unique|].
  split; [apply segment_into_pairs_eq|]. split.
  - now rewrite length_pair_up, paragraphs_of_kept, length_map,
      kept_lines_nonblank.
  - assert (H : forall p, In p (paragraphs_of t) ->
                  exists l, In l (split_on newline t) /\ stripped_of p l).
    { intros p Hp. rewrite paragraphs_of_kept, kept_lines_nonblank in Hp.
      apply in_map_iff in Hp as (l & <- & Hl).
      apply List.filter_In in Hl as [Hl Hn].
      exists l. split; [exact Hl | now apply strip_stripped_of]. }
    intros r Hr. apply pair_up_fields in Hr as [Hp Hq].
    destruct (H _ Hp) as (lp & Hlp & Sp). destruct (H _ Hq) as (lq & Hlq & Sq).
    split; [apply Sp|]. split; [apply Sq|].
    split; [apply Sp|]. split; [apply Sq|].
    split; [now exists lp | now exists lq].
Qed.

(** ** DatasetStore: the file that is written *)

Lemma readlines_jsonl (pairs : list Record_) :
  Forall2 (fun line r => line = dumps r \/ line = dumps r ++ [newline])
    (readlines (jsonl_data pairs)) pairs.
Proof.
  unfold readlines. rewrite translate_newlines_id by apply jsonl_data_chars.
  unfold jsonl_data.
  induction pairs as [|r [|r' l] IH]; [constructor| |].
  - cbn [List.map join].
    rewrite split_keepends_last
      by (apply dumps_printable || apply dumps_nonempty).
    constructor; [now left | constructor].
  - change (join [newline] (List.map dumps (r :: r' :: l)))
      with (dumps r ++ newline :: join [newline] (List.map dumps (r' :: l))).
    rewrite split_keepends_line by apply dumps_printable.
    constructor; [now right | exact IH].
Qed.

(** X9: one record per line, whatever the record holds.  The text written
    on line 74 is printable ASCII and newlines only; read back with
    [readlines] it has exactly one line per record, each line being the
    [json.dumps] of its record (followed by the newline, except on the last
    line).  Newlines, quotes or non-ASCII characters inside a field cannot
    break the line structure.  No assumption on the records is needed. *)
Theorem jsonl_one_record_per_line (pairs : list Record_) :
  forallb (fun c => printable c || (c =? newline)) (jsonl_data pairs) = true
  /\ List.length (readlines (jsonl_data pairs)) = List.length pairs
  /\ Forall2 (fun line r => line = dumps r \/ line = dumps r ++ [newline])
       (readlines (jsonl_data pairs)) pairs.
Proof.
  split; [apply jsonl_data_chars|].
  pose proof (readlines_jsonl pairs) as H. split; [|exact H].
  clear -H. induction H; cbn [List.length]; congruence.
Qed.

(** ** DatasetStore: file names and what a save touches *)

Lemma app_inj_length {A} (a b c d : list A) :
  List.length a = List.length c -> a ++ b = c ++ d -> a = c /\ b = d.
Proof.
  revert c. induction a as [|x a IH]; intros [|y c] Hl E; try discriminate.
  - now split.
  - injection E as -> E. injection Hl as Hl.
    destruct (IH c Hl E) as [-> ->]. now split.
Qed.

Lemma app_inj_length_r {A} (a b c d : list A) :
  List.length b = List.length d -> a ++ b = c ++ d -> a = c /\ b = d.
Proof.
  intros Hl E. apply app_inj_length; [|exact E].
  apply (f_equal (@List.length A)) in E. rewrite !length_app in E. lia.
Qed.

(** X11: when two uploads get the same file name.  For time stamps of the
    same length (the format of line 69 always gives fifteen characters for
    four-digit years), two file names are equal exactly when the stamps are
    equal and the tags are equal once every blank is read as an underscore:
    the tags ["a b"] and ["a_b"] share their files. *)
Theorem make_filename_collision (t1 t2 s1 s2 : text) :
  List.length s1 = List.length s2 ->
  (make_filename t1 s1 = make_filename t2 s2
   <-> s1 = s2 /\ underscored t1 = underscored t2).
Proof.
  intro Hl. unfold make_filename. fold (underscored t1) (underscored t2).
  split.
  - intro E. rewrite !app_assoc in E.
    apply app_inj_length_r in E as [E _]; [|reflexivity].
    apply app_inj_length_r in E as [E ->]; [|exact Hl].
    apply app_inj_length_r in E as [-> _]; [|reflexivity]. now split.
  - now intros [-> ->].
Qed.

Lemma make_filename_collision_witness :
  make_filename (str "a b") (str "20240101_120000")
  = make_filename (str "a_b") (str "20240101_120000")
  <-> str "20240101_120000" = str "20240101_120000"
      /\ underscored (str "a b") = underscored (str "a_b").
Proof.
  apply (make_filename_collision (str "a b") (str "a_b")
           (str "20240101_120000") (str "20240101_120000")).
  reflexivity.
Defined.

Lemma split_on_with_sep (sep : N) (s : text) :
  In sep s -> exists a b rest, split_on sep s = a :: b :: rest.
Proof.
  induction s as [|c s IH]; [intros []|]. cbn [split_on]. intro H.
  pose proof (split_on_nonempty sep s) as Hne.
  destruct (N.eqb_spec c sep) as [->|Hc].
  - destruct (split_on sep s) as [|b rest]; [congruence|].
    now exists [], b, rest.
  - destruct H as [->|H]; [congruence|].
    destruct (IH H) as (a & b & rest & ->). now exists (c :: a), b, rest.
Qed.

Lemma path_kind_plain (filename : text) :
  path_kind_of filename = Plain <-> ~ In SLASH filename.
Proof.
  unfold path_kind_of. split.
  - intros H Hin.
    destruct (split_on_with_sep SLASH filename Hin) as (a & b & rest & E).
    rewrite E in H. destruct (dot_name a); discriminate.
  - intro H. now rewrite split_on_no_sep.
Qed.

Lemma no_nul_spec (s : text) : existsb (N.eqb 0) s = false <-> ~ In 0 s.
Proof.
  rewrite <- not_true_iff_false, existsb_exists. split.
  - intros H Hin. apply H. exists 0. split; [exact Hin | reflexivity].
  - intros H (x & Hx & E). apply N.eqb_eq in E. subst x. auto.
Qed.

Lemma plain_name_dec (name : text) :
  forallb (fun c => negb (c =? 0) && negb (c =? SLASH)) name = true ->
  plain_name name.
Proof.
  rewrite forallb_forall. intro H.
  split; intro Hin; apply H in Hin; discriminate.
Qed.

(** [save] ends in [Saved] on its branch for plain names only, after the
    system has created the entry in both directories; the content is then
    the same in both. *)
Lemma save_saved_inv (os : OS) (d : Disk) (pairs : list Record_)
    (tag_input stamp : text) (d' : Disk) (filename : text) :
  save os d pairs tag_input stamp = Saved d' filename ->
  filename = make_filename tag_input stamp
  /\ plain_name filename
  /\ os_create os STORAGE_DIR filename (jsonl_data pairs) = None
  /\ os_create os VERSION_DIR filename (jsonl_data pairs) = None
  /\ d' = mkDisk (<[filename := jsonl_data pairs]> (saved_datasets d))
                 (<[filename := jsonl_data pairs]> (versioned_datasets d)).
Proof.
  unfold save. set (fn := make_filename tag_input stamp).
  destruct (existsb (N.eqb 0) fn) eqn:E0; [discriminate|].
  destruct (path_kind_of fn) as [|first|] eqn:Ek; [| |discriminate].
  - destruct (os_create os STORAGE_DIR fn (jsonl_data pairs)) eqn:E1;
      [discriminate|].
    destruct (os_create os VERSION_DIR fn (jsonl_data pairs)) eqn:E2;
      [discriminate|].
    intros [= <- <-]. split; [reflexivity|].
    split; [split; [now apply no_nul_spec | now apply path_kind_plain]|].
    auto.
  - destruct (os_lookup os STORAGE_DIR first); [discriminate|].
    destruct (saved_datasets d !! first); discriminate.
Qed.

Lemma save_plain (os : OS) (d : Disk) (pairs : list Record_)
    (tag_input stamp : text) :
  plain_name (make_filename tag_input stamp) ->
  os_create os STORAGE_DIR (make_filename tag_input stamp) (jsonl_data pairs)
  = None ->
  os_create os VERSION_DIR (make_filename tag_input stamp) (jsonl_data pairs)
  = None ->
  save os d pairs tag_input stamp
  = Saved (mkDisk (<[make_filename tag_input stamp := jsonl_data pairs]>
                     (saved_datasets d))
                  (<[make_filename tag_input stamp := jsonl_data pairs]>
                     (versioned_datasets d)))
          (make_filename tag_input stamp).
Proof.
  intros [H0 Hs] E1 E2. unfold save.
  apply no_nul_spec in H0. apply path_kind_plain in Hs.
  now rewrite H0, Hs, E1, E2.
Qed.




(** ** The upload path as a whole *)

Lemma unicode_text_infix (a p b : text) :
  unicode_text (a ++ p ++ b) -> unicode_text p.
Proof.
  unfold unicode_text. rewrite !forallb_app, !andb_true_iff. tauto.
Qed.

Lemma paragraphs_unicode (t p : text) :
  unicode_text t -> In p (paragraphs_of t) -> unicode_text p.
Proof.
  intros Ht Hp. apply In_paragraphs in Hp as ((line & Hl & ->) & _).
  apply In_split_on in Hl as (a & b & ->).
  apply unicode_text_infix in Ht.
  destruct (strip_infix line) as (a' & b' & E). rewrite E in Ht.
  now apply unicode_text_infix in Ht.
Qed.

Lemma uploaded_records_unicode (U : UnicodeData) (raw_text tag_input : text) :
  unicode_text raw_text -> unicode_text tag_input ->
  Forall unicode_record (uploaded_records U raw_text tag_input).
Proof.
  intros Hr Ht. apply List.Forall_forall. intros r Hin.
  unfold uploaded_records in Hin.
  pose proof (pair_up_tag _ _ _ Hin) as Htag.
  apply pair_up_fields in Hin as [Hp Hq].
  pose proof (scrub_text_unicode U raw_text Hr) as Hs.
  repeat split.
  - exact (paragraphs_unicode _ _ Hs Hp).
  - exact (paragraphs_unicode _ _ Hs Hq).
  - now rewrite Htag.
Qed.

Lemma upload_eq (os : OS) (U : UnicodeData) (d : Disk)
    (raw_text tag_input stamp : text) :
  upload os U d raw_text tag_input stamp
  = save os d (uploaded_records U raw_text tag_input) tag_input stamp.
Proof. unfold upload. now rewrite segment_into_pairs_eq. Qed.

Lemma upload_saved_inv (os : OS) (U : UnicodeData) (d : Disk)
    (raw_text tag_input stamp : text) (d' : Disk) (filename : text) :
  upload os U d raw_text tag_input stamp = Saved d' filename ->
  filename = make_filename tag_input stamp
  /\ d' = mkDisk
            (<[filename := jsonl_data (uploaded_records U raw_text tag_input)]>
               (saved_datasets d))
            (<[filename := jsonl_data (uploaded_records U raw_text tag_input)]>
               (versioned_datasets d)).
Proof.
  rewrite upload_eq. intro H. apply save_saved_inv in H. tauto.
Qed.

Lemma upload_plain (os : OS) (U : UnicodeData) (d : Disk)
    (raw_text tag_input stamp : text) :
  plain_name (make_filename tag_input stamp) ->
  (forall dir content,
     os_create os dir (make_filename tag_input stamp) content = None) ->
  upload os U d raw_text tag_input stamp
  = Saved
      (mkDisk
         (<[make_filename tag_input stamp
            := jsonl_data (uploaded_records U raw_text tag_input)]>
            (saved_datasets d))
         (<[make_filename tag_input stamp
            := jsonl_data (uploaded_records U raw_text tag_input)]>
            (versioned_datasets d)))
      (make_filename tag_input stamp).
Proof.
  intros Hp Hc. rewrite upload_eq. now apply save_plain.
Qed.



Lemma size_two_inserts (m : gmap text text) (k1 k2 x y : text) :
  k1 <> k2 -> (2 <= size (<[k2:=y]> (<[k1:=x]> m)))%nat.
Proof.
  intro H. rewrite <- insert_delete_eq.
  rewrite map_size_insert_None by apply lookup_delete_eq.
  rewrite delete_insert_ne by congruence.
  rewrite <- insert_delete_eq.
  rewrite map_size_insert_None by apply lookup_delete_eq. lia.
Qed.



(** ** Comparator: what the filter does with keywords and with bad entries *)

Lemma occurs_in_trans (a b c : text) :
  occurs_in a b -> occurs_in b c -> occurs_in a c.
Proof.
  intros (p1 & q1 & ->) (p2 & q2 & ->).
  exists (p2 ++ p1), (q1 ++ q2). now rewrite <- !app_assoc.
Qed.

Lemma occurs_in_nil_inv (a : text) : occurs_in a [] -> a = [].
Proof.
  intros (p & q & E). symmetry in E.
  apply app_eq_nil in E as [_ E]. now apply app_eq_nil in E as [E _].
Qed.

Lemma contains_trans (a b c : text) :
  occurs_in a b -> contains b c = true -> contains a c = true.
Proof.
  rewrite !contains_spec. apply occurs_in_trans.
Qed.

Lemma keeps_narrows (U : UnicodeData) (kw kw' tf tf' : text) (r : Record_) :
  occurs_in kw kw' -> occurs_in tf tf' ->
  keeps U kw' tf' r = true -> keeps U kw tf r = true.
Proof.
  intros Hk Ht. unfold keeps.
  rewrite !andb_true_iff, !orb_true_iff. intros [Hm Hf]. split.
  - destruct Hm as [Hm|Hm]; [left|right]; exact (contains_trans _ _ _ Hk Hm).
  - destruct tf as [|c tf]; [reflexivity|]. cbn [nonempty].
    destruct tf' as [|c' tf'];
      [apply occurs_in_nil_inv in Ht; discriminate|].
    cbn [nonempty] in Hf. exact (contains_trans _ _ _ Ht Hf).
Qed.

(** X14: a longer keyword or tag filter only narrows.  If the keyword is a
    substring of another keyword and the tag filter a substring of another
    tag filter (an empty one is a substring of all), every record the
    filter of lines 101-102 keeps for the longer pair is kept for the
    shorter pair, so the matches shown and counted can only grow.  In
    particular dropping the tag filter never loses a match. *)
Theorem filter_narrows (U : UnicodeData) (kw kw' tf tf' : text)
    (rs : list Record_) :
  occurs_in kw kw' -> occurs_in tf tf' ->
  (forall r, In r (List.filter (keeps U kw' tf') rs) ->
             In r (List.filter (keeps U kw tf) rs))
  /\ (List.length (List.filter (keeps U kw' tf') rs)
      <= List.length (List.filter (keeps U kw tf) rs))%nat
  /\ (List.length (List.filter (keeps U kw tf) rs)
      <= List.length (List.filter (keeps U kw []) rs))%nat.
Proof.
  intros Hk Ht. split; [|split].
  - intros r. rewrite !List.filter_In. intros [Hin H]. split; [exact Hin|].
    exact (keeps_narrows U _ _ _ _ r Hk Ht H).
  - induction rs as [|r rs IH]; [reflexivity|]. cbn [List.filter].
    destruct (keeps U kw' tf' r) eqn:E.
    + rewrite (keeps_narrows U _ _ _ _ r Hk Ht E). cbn [List.length]. lia.
    + destruct (keeps U kw tf r); cbn [List.length]; lia.
  - induction rs as [|r rs IH]; [reflexivity|]. cbn [List.filter].
    destruct (keeps U kw tf r) eqn:E.
    + rewrite (keeps_narrows U kw kw [] tf r); cbn [List.length];
        [lia | exists [], []; now rewrite app_nil_r | now exists [], tf
         | exact E].
    + destruct (keeps U kw [] r); cbn [List.length]; lia.
Qed.

Lemma filter_narrows_witness :
  (List.length (List.filter (keeps ascii_only (str "sadness") (str "cbt"))
       [mkRecord (str "Sadness") (str "b") (str "CBT")])
   <= List.length (List.filter (keeps ascii_only (str "sad") (str "cb"))
       [mkRecord (str "Sadness") (str "b") (str "CBT")]))%nat.
Proof.
  apply (filter_narrows ascii_only (str "sad") (str "sadness")
           (str "cb") (str "cbt")
           [mkRecord (str "Sadness") (str "b") (str "CBT")]).
  - now exists [], (str "ness").
  - now exists [], (str "t").
Defined.

Lemma record_of_inv (entry : json) (r : Record_) :
  record_of entry = Ok r ->
  subscript entry (str "prompt") = Ok (JStr (prompt r))
  /\ subscript entry (str "response") = Ok (JStr (response r))
  /\ subscript entry (str "tag") = Ok (JStr (tag r)).
Proof.
  unfold record_of.
  destruct (subscript entry (str "prompt")) as [p|]; [|discriminate].
  destruct (subscript entry (str "response")) as [q|]; [|discriminate].
  destruct (subscript entry (str "tag")) as [t|]; [|discriminate].
  cbn [bind]. destruct p, q, t; try discriminate. now intros [= <-].
Qed.

Lemma entry_matches_of_record (U : UnicodeData) (kw tf : text)
    (entry : json) (r : Record_) :
  record_of entry = Ok r ->
  entry_matches U kw tf entry = Ok (keeps U kw tf r).
Proof.
  intros (Hp & Hq & Ht)%record_of_inv.
  unfold entry_matches, keeps, field_has. rewrite Hp, Hq, Ht.
  cbn [bind lower_of].
  destruct (contains kw (lower U (prompt r))); cbn [bind orb andb].
  - now destruct (nonempty tf).
  - destruct (contains kw (lower U (response r))); cbn [bind orb andb];
      [now destruct (nonempty tf)|reflexivity].
Qed.


Lemma subscript_raise (entry : json) (k : text) (e : exn) :
  subscript entry k = Raise e -> e = KeyError \/ e = TypeError.
Proof.
  unfold subscript. destruct entry; try (intros [= <-]; now right).
  destruct (dict_get k d); [discriminate|]. intros [= <-]. now left.
Qed.

Lemma field_has_raise (U : UnicodeData) (needle : text) (entry : json)
    (k : text) (e : exn) :
  field_has U needle entry k = Raise e -> filter_error e.
Proof.
  unfold field_has, filter_error.
  destruct (subscript entry k) as [v|e'] eqn:E; cbn [bind].
  - destruct v; cbn [lower_of bind]; try discriminate; intros [= <-]; tauto.
  - intros [= <-]. apply subscript_raise in E. tauto.
Qed.

Lemma entry_matches_raise (U : UnicodeData) (kw tf : text) (entry : json)
    (e : exn) :
  entry_matches U kw tf entry = Raise e -> filter_error e.
Proof.
  unfold entry_matches.
  destruct (field_has U kw entry (str "prompt")) as [a|e1] eqn:E1;
    cbn [bind]; [|intros [= <-]; exact (field_has_raise _ _ _ _ _ E1)].
  destruct a; cbn [bind].
  - destruct (nonempty tf); [|discriminate].
    apply field_has_raise.
  - destruct (field_has U kw entry (str "response")) as [b|e2] eqn:E2;
      cbn [bind]; [|intros [= <-]; exact (field_has_raise _ _ _ _ _ E2)].
    destruct b; [|discriminate].
    destruct (nonempty tf); [|discriminate].
    apply field_has_raise.
Qed.

(** X15: which entries the filter accepts.  On an entry whose [prompt],
    [response] and [tag] are strings (further keys do not matter) the
    condition of lines 101-102 never raises and is the condition on the
    three fields.  When it raises, the error is a [KeyError], a [TypeError]
    or an [AttributeError] and the entry is not such a record.  The converse
    fails, by short-circuit evaluation: an entry that has only a [prompt]
    is accepted when the keyword is found there and no tag filter is
    given, and raises [KeyError] when the keyword is not found there. *)
Theorem entry_matches_errors (U : UnicodeData) (kw tf : text) (entry : json) :
  (forall r, record_of entry = Ok r ->
             entry_matches U kw tf entry = Ok (keeps U kw tf r))
  /\ (forall e, entry_matches U kw tf entry = Raise e ->
                (e = KeyError \/ e = TypeError \/ e = AttributeError)
                /\ exists e', record_of entry = Raise e')
  /\ entry_matches U (str "x") [] (JDict [(str "prompt", JStr (str "x"))])
     = Ok true
  /\ entry_matches U (str "y") [] (JDict [(str "prompt", JStr (str "x"))])
     = Raise KeyError.
Proof.
  split; [|split; [|split; reflexivity]].
  - intros r. apply entry_matches_of_record.
  - intros e He. split; [exact (entry_matches_raise _ _ _ _ _ He)|].
    destruct (record_of entry) as [r|e'] eqn:E; [|now exists e'].
    rewrite (entry_matches_of_record U kw tf entry r E) in He. discriminate.
Qed.

Lemma entry_matches_errors_witness :
  entry_matches ascii_only (str "a") []
    (JDict [(str "tag", JStr (str "t")); (str "extra", JNull);
            (str "response", JStr (str "b")); (str "prompt", JStr (str "A"))])
  = Ok true.
Proof.
  apply (proj1 (entry_matches_errors ascii_only (str "a") [] _)
           (mkRecord (str "A") (str "b") (str "t"))).
  reflexivity.
Defined.

Lemma filterM_raise {A} (f : A -> result bool) (l : list A) (e : exn) :
  filterM f l = Raise e -> exists x, In x l /\ f x = Raise e.
Proof.
  induction l as [|x l IH]; [discriminate|]. cbn [filterM].
  destruct (f x) as [b|e'] eqn:E; cbn [bind].
  - destruct (filterM f l) as [ys|e'']; cbn [bind]; [discriminate|].
    intros [= ->]. destruct (IH eq_refl) as (x' & Hin & Hx).
    exists x'. split; [now right | exact Hx].
  - intros [= ->]. exists x. split; [now left | exact E].
Qed.

Lemma filterM_in_raise {A} (f : A -> result bool) (l : list A) (x : A)
    (e : exn) :
  In x l -> f x = Raise e -> exists e', filterM f l = Raise e'.
Proof.
  induction l as [|y l IH]; [intros []|]. intros [->|Hin] Hx; cbn [filterM].
  - rewrite Hx. now exists e.
  - destruct (f y) as [z|e']; cbn [bind]; [|now exists e'].
    destruct (IH Hin Hx) as [e' ->]. now exists e'.
Qed.

Lemma filterM_ok {A} (f : A -> result bool) (l ys : list A) :
  filterM f l = Ok ys ->
  ys = List.filter (fun x => match f x with Ok b => b | Raise _ => false end) l
  /\ forall x, In x l -> exists b, f x = Ok b.
Proof.
  revert ys. induction l as [|x l IH]; intros ys.
  - intros [= <-]. split; [reflexivity | intros x []].
  - cbn [filterM List.filter].
    destruct (f x) as [b|e] eqn:E; cbn [bind]; [|discriminate].
    destruct (filterM f l) as [r|e]; cbn [bind]; [|discriminate].
    intros [= <-]. destruct (IH r eq_refl) as [-> H]. split.
    + reflexivity.
    + intros y [<-|Hy]; [now exists b | now apply H].
Qed.

Lemma highlight_value_raise (v : json) (word : text) (e : exn) :
  highlight_value v word = Raise e -> e = AttributeError.
Proof.
  unfold highlight_value. destruct (nonempty word); [|discriminate].
  destruct v; try discriminate; now intros [= <-].
Qed.

Lemma shown_raise (kw : text) (entry : json) (e : exn) :
  shown kw entry = Raise e -> filter_error e.
Proof.
  unfold shown, filter_error.
  destruct (subscript entry (str "prompt")) as [p|e1] eqn:E1; cbn [bind];
    [|intros [= <-]; apply subscript_raise in E1; tauto].
  destruct (highlight_value p kw) as [hp|e2] eqn:E2; cbn [bind];
    [|intros [= <-]; apply highlight_value_raise in E2; tauto].
  destruct (subscript entry (str "response")) as [r|e3] eqn:E3; cbn [bind];
    [|intros [= <-]; apply subscript_raise in E3; tauto].
  destruct (highlight_value r kw) as [hr|e4] eqn:E4; cbn [bind];
    [|intros [= <-]; apply highlight_value_raise in E4; tauto].
  destruct (subscript entry (str "tag")) as [t|e5] eqn:E5; cbn [bind];
    [discriminate|intros [= <-]; apply subscript_raise in E5; tauto].
Qed.

Lemma label_of_ok (version_labels : json) (v v' : text) (l : json) :
  label_of version_labels v = Ok l -> exists l', label_of version_labels v' = Ok l'.
Proof.
  unfold label_of. destruct version_labels; try discriminate.
  intros _. now eexists.
Qed.

(** Lines 109-114: what raises while a file's matches are shown. *)
Lemma show_file_raise (version_labels : json) (v kw : text)
    (matches_ : list json) (e : exn) :
  show_file version_labels v kw matches_ = Raise e ->
  label_of version_labels v = Raise e
  \/ exists entry, In entry matches_ /\ shown kw entry = Raise e.
Proof.
  unfold show_file.
  destruct (label_of version_labels v) as [l|e1]; cbn [bind];
    [|intros [= <-]; now left].
  destruct (mapM (shown kw) matches_) as [rows|e2] eqn:E2; cbn [bind];
    [discriminate|].
  intros [= <-]. right. now apply mapM_raise in E2.
Qed.

Lemma show_file_ok (version_labels : json) (v kw : text)
    (matches_ : list json) (l : json) :
  label_of version_labels v = Ok l ->
  (forall entry, In entry matches_ -> exists row, shown kw entry = Ok row) ->
  exists out, show_file version_labels v kw matches_ = Ok out.
Proof.
  intros Hl H. unfold show_file. rewrite Hl. cbn [bind].
  destruct (mapM_ok (shown kw) matches_ H) as (rows & -> & _).
  now eexists.
Qed.

Lemma filterM_ok_iff {A} (f : A -> result bool) (l ys : list A) (x : A) :
  filterM f l = Ok ys -> (In x ys <-> In x l /\ f x = Ok true).
Proof.
  intros H. apply filterM_ok in H as [-> H]. rewrite filter_In. split.
  - intros [Hin Hx]. split; [exact Hin|].
    destruct (H x Hin) as [b Hb]. rewrite Hb in Hx |- *. now subst b.
  - intros [Hin Hx]. now rewrite Hx.
Qed.

(** How lines 101-123 end on two loaded sequences: an error, or the
    matches of both files. *)
Lemma compare_loaded_cases (U : UnicodeData) (version_labels : json)
    (v1 v2 kw tf : text) (data1 data2 : list json) :
  (exists m1 m2,
     filterM (entry_matches U kw tf) data1 = Ok m1
     /\ filterM (entry_matches U kw tf) data2 = Ok m2
     /\ (exists o1, show_file version_labels v1 kw m1 = Ok o1)
     /\ (exists o2, show_file version_labels v2 kw m2 = Ok o2)
     /\ compare_loaded U version_labels v1 v2 kw tf data1 data2
        = Compared m1 m2 (List.length m1) (List.length m2)
            (List.length m1 + List.length m2) (m1 ++ m2))
  \/ (exists e,
        compare_loaded U version_labels v1 v2 kw tf data1 data2 = Failed e
        /\ ((exists entry, In entry (data1 ++ data2)
                           /\ entry_matches U kw tf entry = Raise e)
            \/ label_of version_labels v1 = Raise e
            \/ label_of version_labels v2 = Raise e
            \/ exists entry, In entry (data1 ++ data2)
                             /\ entry_matches U kw tf entry = Ok true
                             /\ shown kw entry = Raise e)).
Proof.
  unfold compare_loaded.
  destruct (filterM (entry_matches U kw tf) data1) as [m1|e1] eqn:E1.
  2:{ right. exists e1. split; [reflexivity|]. left.
      apply filterM_raise in E1 as (x & Hin & Hx).
      exists x. rewrite in_app_iff. tauto. }
  destruct (filterM (entry_matches U kw tf) data2) as [m2|e2] eqn:E2.
  2:{ right. exists e2. split; [reflexivity|]. left.
      apply filterM_raise in E2 as (x & Hin & Hx).
      exists x. rewrite in_app_iff. tauto. }
  destruct (show_file version_labels v1 kw m1) as [o1|e3] eqn:E3.
  2:{ right. exists e3. split; [reflexivity|]. right.
      apply show_file_raise in E3 as [E3|(x & Hin & Hx)]; [now left|].
      right. right. exists x.
      apply (filterM_ok_iff _ _ _ x E1) in Hin as [Hin Hm].
      rewrite in_app_iff. tauto. }
  destruct (show_file version_labels v2 kw m2) as [o2|e4] eqn:E4.
  2:{ right. exists e4. split; [reflexivity|]. right.
      apply show_file_raise in E4 as [E4|(x & Hin & Hx)]; [tauto|].
      right. right. exists x.
      apply (filterM_ok_iff _ _ _ x E2) in Hin as [Hin Hm].
      rewrite in_app_iff. tauto. }
  left. exists m1, m2. repeat split; eauto.
Qed.

(** X16: one bad entry fails the whole comparison.  Lines 101-123 on two
    loaded sequences raise exactly when the condition of the filter raises
    on some entry of either sequence, or the label store is not a dict, or
    the values shown for an entry that the filter accepted cannot be
    computed; the error is then a [KeyError], a [TypeError] or an
    [AttributeError], and line 123 is not reached: no comparison is
    offered for download, also not the matches of the first file.
    Otherwise both lists of matches are sub-lists of their files in file
    order: exactly the entries on which the condition is true.  An entry
    that has only a [prompt] holding the keyword passes the filter and
    raises [KeyError] when its response is shown. *)
Theorem compare_loaded_all_or_nothing (U : UnicodeData)
    (version_labels : json) (v1 v2 kw tf : text) (data1 data2 : list json) :
  ((exists e, compare_loaded U version_labels v1 v2 kw tf data1 data2
              = Failed e)
   <-> (exists entry e, In entry (data1 ++ data2)
                        /\ entry_matches U kw tf entry = Raise e)
       \/ (exists e, label_of version_labels v1 = Raise e)
       \/ (exists entry e, In entry (data1 ++ data2)
                           /\ entry_matches U kw tf entry = Ok true
                           /\ shown kw entry = Raise e))
  /\ (forall e, compare_loaded U version_labels v1 v2 kw tf data1 data2
                = Failed e ->
        e = KeyError \/ e = TypeError \/ e = AttributeError)
  /\ ((forall entry, In entry (data1 ++ data2) ->
         exists b, entry_matches U kw tf entry = Ok b) ->
      (exists l, label_of version_labels v1 = Ok l) ->
      (forall entry, In entry (data1 ++ data2) ->
         entry_matches U kw tf entry = Ok true ->
         exists row, shown kw entry = Ok row) ->
      let keep entry := match entry_matches U kw tf entry with
                        | Ok b => b
                        | Raise _ => false
                        end in
      compare_loaded U version_labels v1 v2 kw tf data1 data2
      = Compared (List.filter keep data1) (List.filter keep data2)
          (List.length (List.filter keep data1))
          (List.length (List.filter keep data2))
          (List.length (List.filter keep data1)
           + List.length (List.filter keep data2))
          (List.filter keep (data1 ++ data2)))
  /\ compare_loaded U (JDict []) v1 v2 (str "a") []
       [JDict [(str "prompt", JStr (str "a"))]] []
     = Failed KeyError.
Proof.
  pose proof (compare_loaded_cases U version_labels v1 v2 kw tf data1 data2)
    as Hc.
  split; [split|split; [|split]].
  - intros [e H].
    destruct Hc as [(m1 & m2 & _ & _ & _ & _ & Hc)|(e' & Hc & Hw)];
      [congruence|].
    destruct Hw as [(x & Hx)|[Hl|[Hl|(x & Hx)]]].
    + left. now exists x, e'.
    + right. left. now exists e'.
    + right. left. exists e'. revert Hl. unfold label_of.
      now destruct version_labels.
    + right. right. now exists x, e'.
  - intros H.
    destruct Hc as [(m1 & m2 & E1 & E2 & [o1 E3] & [o2 E4] & _)|(e' & Hc & _)];
      [exfalso|now exists e'].
    destruct H as [(x & e & Hin & Hx)|[[e Hl]|(x & e & Hin & Hm & Hx)]].
    + apply in_app_iff in Hin as [Hin|Hin].
      * apply filterM_ok in E1 as [_ H]. destruct (H x Hin). congruence.
      * apply filterM_ok in E2 as [_ H]. destruct (H x Hin). congruence.
    + unfold show_file in E3. rewrite Hl in E3. discriminate.
    + apply in_app_iff in Hin as [Hin|Hin].
      * assert (Hi : In x m1) by (apply (filterM_ok_iff _ _ _ x E1); tauto).
        unfold show_file in E3.
        destruct (label_of version_labels v1); [|discriminate].
        cbn [bind] in E3.
        destruct (mapM_in_raise (shown kw) m1 x e Hi Hx) as [e' He'].
        rewrite He' in E3. discriminate.
      * assert (Hi : In x m2) by (apply (filterM_ok_iff _ _ _ x E2); tauto).
        unfold show_file in E4.
        destruct (label_of version_labels v2); [|discriminate].
        cbn [bind] in E4.
        destruct (mapM_in_raise (shown kw) m2 x e Hi Hx) as [e' He'].
        rewrite He' in E4. discriminate.
  - intros e H.
    destruct Hc as [(m1 & m2 & _ & _ & _ & _ & Hc)|(e' & Hc & Hw)];
      [congruence|].
    assert (e' = e) by congruence. subst e'.
    destruct Hw as [(x & _ & Hx)|[Hl|[Hl|(x & _ & _ & Hx)]]].
    + exact (entry_matches_raise _ _ _ _ _ Hx).
    + revert Hl. unfold label_of.
      destruct version_labels; try discriminate; intros [= <-]; tauto.
    + revert Hl. unfold label_of.
      destruct version_labels; try discriminate; intros [= <-]; tauto.
    + exact (shown_raise _ _ _ Hx).
  - intros Hm [l Hl] Hs keep.
    destruct Hc as [(m1 & m2 & E1 & E2 & _ & _ & ->)|(e' & _ & Hw)].
    + apply filterM_ok in E1 as [-> _]. apply filterM_ok in E2 as [-> _].
      now rewrite List.filter_app.
    + exfalso. destruct Hw as [(x & Hin & Hx)|[Hl'|[Hl'|(x & Hin & Hk & Hx)]]].
      * destruct (Hm x Hin). congruence.
      * congruence.
      * destruct (label_of_ok _ _ v2 _ Hl). congruence.
      * destruct (Hs x Hin Hk). congruence.
  - reflexivity.
Qed.

Lemma compare_loaded_all_or_nothing_witness :
  exists e,
    compare_loaded ascii_only (JDict []) (str "v1") (str "v2") (str "a") []
      [JDict [(str "prompt", JStr (str "A"))]] [JDict []]
    = Failed e.
Proof.
  apply (proj2 (proj1 (compare_loaded_all_or_nothing ascii_only (JDict [])
                  (str "v1") (str "v2") (str "a") []
                  [JDict [(str "prompt", JStr (str "A"))]] [JDict []]))).
  left. exists (JDict []), KeyError. split; [right; now left | reflexivity].
Defined.

(** ** The list of versions *)

Lemma text_ltb_irrefl (a : text) : text_ltb a a = false.
Proof.
  induction a as [|x a IH]; [reflexivity|]. cbn [text_ltb].
  now rewrite N.ltb_irrefl, N.eqb_refl, IH.
Qed.

Lemma text_ltb_trans (a b c : text) :
  text_ltb a b = true -> text_ltb b c = true -> text_ltb a c = true.
Proof.
  revert b c. induction a as [|x a IH]; intros [|y b] [|z c]; cbn [text_ltb];
    try discriminate; try reflexivity.
  rewrite !orb_true_iff, !andb_true_iff, !N.ltb_lt, !N.eqb_eq.
  intros [H1|[-> H1]] [H2|[-> H2]]; try (left; lia).
  right. split; [reflexivity|]. now apply (IH b c).
Qed.

Lemma text_ltb_total (a b : text) :
  text_ltb a b = false -> a <> b -> text_ltb b a = true.
Proof.
  revert b. induction a as [|x a IH]; intros [|y b]; cbn [text_ltb];
    try discriminate; try reflexivity; try congruence.
  rewrite orb_false_iff, andb_false_iff, orb_true_iff, andb_true_iff,
    N.ltb_ge, N.ltb_lt, !N.eqb_eq, N.eqb_neq.
  intros [H1 H2] Hne.
  destruct (N.eq_dec x y) as [->|Hxy].
  - right. split; [reflexivity|]. apply IH; [|congruence].
    destruct H2 as [H2|H2]; [congruence | exact H2].
  - left. lia.
Qed.

Lemma text_ltb_app (p a b : text) :
  text_ltb (p ++ a) (p ++ b) = text_ltb a b.
Proof.
  induction p as [|x p IH]; [reflexivity|]. cbn [app text_ltb].
  now rewrite N.ltb_irrefl, N.eqb_refl, IH.
Qed.

Lemma text_ltb_app_r (a b x y : text) :
  List.length a = List.length b ->
  text_ltb a b = true -> text_ltb (a ++ x) (b ++ y) = true.
Proof.
  revert b. induction a as [|c a IH]; intros [|e b]; cbn [List.length];
    try discriminate.
  intros [= Hl]. cbn [app text_ltb].
  rewrite !orb_true_iff, !andb_true_iff. intros [H|[H1 H2]]; [now left|].
  right. split; [exact H1 | now apply IH].
Qed.

Lemma In_insert_desc (x y : text) (l : list text) :
  In y (insert_desc x l) <-> y = x \/ In y l.
Proof.
  induction l as [|z l IH]; cbn [insert_desc In]; [intuition|].
  destruct (text_ltb x z); cbn [In]; rewrite ?IH; intuition.
Qed.

Lemma In_sorted_desc (y : text) (l : list text) :
  In y (sorted_desc l) <-> In y l.
Proof.
  induction l as [|x l IH]; [reflexivity|]. cbn [sorted_desc fold_right].
  fold (sorted_desc l). rewrite In_insert_desc, IH. cbn [In]. intuition.
Qed.

Lemma length_insert_desc (x : text) (l : list text) :
  List.length (insert_desc x l) = S (List.length l).
Proof.
  induction l as [|z l IH]; [reflexivity|]. cbn [insert_desc].
  destruct (text_ltb x z); cbn [List.length]; [now rewrite IH | reflexivity].
Qed.

Lemma length_sorted_desc (l : list text) :
  List.length (sorted_desc l) = List.length l.
Proof.
  induction l as [|x l IH]; [reflexivity|]. cbn [sorted_desc fold_right].
  fold (sorted_desc l). now rewrite length_insert_desc, IH.
Qed.

Lemma insert_desc_sorted (x : text) (l : list text) :
  ~ In x l ->
  StronglySorted (fun a b => text_ltb b a = true) l ->
  StronglySorted (fun a b => text_ltb b a = true) (insert_desc x l).
Proof.
  intros Hx Hs. induction Hs as [|z l Hs IH Hz].
  - repeat constructor.
  - cbn [insert_desc]. destruct (text_ltb x z) eqn:E.
    + constructor; [apply IH; intro; apply Hx; now right|].
      apply List.Forall_forall. intros y Hy.
      apply In_insert_desc in Hy as [->|Hy]; [exact E|].
      rewrite List.Forall_forall in Hz. now apply Hz.
    + assert (Hzx : text_ltb z x = true).
      { apply text_ltb_total; [exact E|]. intros ->. apply Hx. now left. }
      constructor; [now constructor|].
      constructor; [exact Hzx|].
      apply List.Forall_forall. intros y Hy.
      rewrite List.Forall_forall in Hz.
      exact (text_ltb_trans _ _ _ (Hz y Hy) Hzx).
Qed.

Lemma sorted_desc_sorted (l : list text) :
  List.NoDup l ->
  StronglySorted (fun a b => text_ltb b a = true) (sorted_desc l).
Proof.
  induction 1 as [|x l Hx Hnd IH]; [constructor|].
  cbn [sorted_desc fold_right]. fold (sorted_desc l).
  apply insert_desc_sorted; [|exact IH]. now rewrite In_sorted_desc.
Qed.

Lemma sorted_nodup (l : list text) :
  StronglySorted (fun a b => text_ltb b a = true) l -> List.NoDup l.
Proof.
  induction 1 as [|x l Hs IH Hx]; constructor; [|exact IH].
  intro Hin. rewrite List.Forall_forall in Hx. specialize (Hx x Hin).
  now rewrite text_ltb_irrefl in Hx.
Qed.

Lemma sorted_listed_before (a b : text) (l : list text) :
  StronglySorted (fun a b => text_ltb b a = true) l ->
  In a l -> In b l -> text_ltb b a = true -> listed_before a b l.
Proof.
  intros Hs. induction Hs as [|z l Hs IH Hz]; [intros []|].
  rewrite List.Forall_forall in Hz.
  intros [->|Ha] [->|Hb] Hlt.
  - now rewrite text_ltb_irrefl in Hlt.
  - apply in_split in Hb as (l2 & l3 & ->). now exists [], l2, l3.
  - exfalso. pose proof (text_ltb_trans _ _ _ Hlt (Hz a Ha)) as H.
    now rewrite text_ltb_irrefl in H.
  - destruct (IH Ha Hb Hlt) as (l1 & l2 & l3 & ->).
    now exists (z :: l1), l2, l3.
Qed.

Lemma In_listdir (dir : gmap text text) (v : text) :
  In v (listdir dir) <-> is_Some (dir !! v).
Proof.
  unfold listdir. rewrite in_map_iff. split.
  - intros ([k c] & <- & H). exists c.
    apply list_elem_of_In, elem_of_map_to_list in H. exact H.
  - intros [c H]. exists (v, c). split; [reflexivity|].
    apply list_elem_of_In, elem_of_map_to_list. exact H.
Qed.

Lemma NoDup_listdir (dir : gmap text text) : List.NoDup (listdir dir).
Proof.
  apply NoDup_ListNoDup. apply NoDup_fst_map_to_list.
Qed.

Lemma versioned_files_sorted (d : Disk) :
  StronglySorted (fun a b => text_ltb b a = true) (versioned_files d).
Proof. apply sorted_desc_sorted, NoDup_listdir. Qed.

Lemma In_versioned_files (d : Disk) (v : text) :
  In v (versioned_files d) <-> is_Some (versioned_datasets d !! v).
Proof. unfold versioned_files. now rewrite In_sorted_desc, In_listdir. Qed.

Lemma length_versioned_files (d : Disk) :
  List.length (versioned_files d) = size (versioned_datasets d).
Proof.
  unfold versioned_files, listdir.
  now rewrite length_sorted_desc, List.length_map, length_map_to_list.
Qed.

(** X17: the list of versions.  [versioned_files] (line 89) lists exactly
    the names of the versioned directory, each once, in strictly descending
    code-point order whatever order the directory returns them in; its
    length, tested on line 90, is the number of versioned files. *)
Theorem versioned_files_listing (d : Disk) :
  (forall v, In v (versioned_files d)
             <-> is_Some (versioned_datasets d !! v))
  /\ List.NoDup (versioned_files d)
  /\ List.length (versioned_files d) = size (versioned_datasets d)
  /\ StronglySorted (fun a b => text_ltb b a = true) (versioned_files d).
Proof.
  split; [apply In_versioned_files|].
  split; [apply sorted_nodup, versioned_files_sorted|].
  split; [apply length_versioned_files | apply versioned_files_sorted].
Qed.

Lemma make_filename_ltb (tag_input s1 s2 : text) :
  List.length s1 = List.length s2 -> text_ltb s1 s2 = true ->
  text_ltb (make_filename tag_input s1) (make_filename tag_input s2) = true.
Proof.
  intros Hl H. unfold make_filename. rewrite !text_ltb_app.
  now apply text_ltb_app_r.
Qed.

(** X18: the newest version of a tag comes first.  Of two versioned files
    of the same tag whose time stamps have the same length, the one with
    the later stamp is listed before the other, so that the selection
    boxes of lines 91-92 offer the versions of a tag newest first. *)
Theorem versioned_files_newest_first (d : Disk) (tag_input s1 s2 : text) :
  List.length s1 = List.length s2 -> text_ltb s1 s2 = true ->
  is_Some (versioned_datasets d !! make_filename tag_input s1) ->
  is_Some (versioned_datasets d !! make_filename tag_input s2) ->
  listed_before (make_filename tag_input s2) (make_filename tag_input s1)
    (versioned_files d).
Proof.
  intros Hl Hlt H1 H2.
  apply sorted_listed_before.
  - apply versioned_files_sorted.
  - now apply In_versioned_files.
  - now apply In_versioned_files.
  - now apply make_filename_ltb.
Qed.

Lemma versioned_files_newest_first_witness :
  listed_before (str "a_20240102_000000.jsonl") (str "a_20240101_235959.jsonl")
    (versioned_files
       (mkDisk ∅ (<[str "a_20240101_235959.jsonl" := []]>
                    (<[str "a_20240102_000000.jsonl" := []]> ∅)))).
Proof.
  apply (versioned_files_newest_first
           (mkDisk ∅ (<[str "a_20240101_235959.jsonl" := []]>
                        (<[str "a_20240102_000000.jsonl" := []]> ∅)))
           (str "a") (str "20240101_235959") (str "20240102_000000")).
  - reflexivity.
  - reflexivity.
  - cbn [versioned_datasets]. exists []. apply lookup_insert_eq.
  - cbn [versioned_datasets]. exists [].
    rewrite lookup_insert_ne by discriminate. apply lookup_insert_eq.
Defined.

(** ** Highlighting *)

Lemma replace_from_skip (old new : text) (k : nat) (s : text) :
  replace_from old new k s = replace_from old new 0 (skipn k s).
Proof.
  revert k. induction s as [|c s IH]; intros [|k]; try reflexivity.
  cbn [replace_from skipn]. apply IH.
Qed.

Lemma replace_from_hit (o : N) (old new rest : text) :
  replace_from (o :: old) new 0 ((o :: old) ++ rest)
  = new ++ replace_from (o :: old) new 0 rest.
Proof.
  cbn [app replace_from].
  replace (is_prefix (o :: old) (o :: old ++ rest)) with true
    by (symmetry; apply is_prefix_spec; now exists rest).
  replace (List.length (o :: old) - 1)%nat with (List.length old)
    by (cbn [List.length]; lia).
  rewrite replace_from_skip.
  now rewrite skipn_app, skipn_all, Nat.sub_diag, skipn_O.
Qed.

Lemma replacements_none (o : N) (old : text) (k : nat) (s : text) :
  replacements (o :: old) k s = 0%nat
  <-> contains (o :: old) (skipn k s) = false.
Proof.
  revert k. induction s as [|c s IH]; intros k.
  - destruct k; cbn [replacements skipn contains is_prefix orb];
      split; reflexivity.
  - destruct k as [|k]; cbn [replacements skipn]; [|apply IH].
    change (contains (o :: old) (c :: s))
      with (is_prefix (o :: old) (c :: s) || contains (o :: old) s).
    destruct (is_prefix (o :: old) (c :: s)); cbn [orb].
    + split; discriminate.
    + apply (IH 0%nat).
Qed.

Lemma replace_from_none (o : N) (old new : text) (k : nat) (s : text) :
  contains (o :: old) (skipn k s) = false ->
  replace_from (o :: old) new k s = skipn k s.
Proof.
  revert k. induction s as [|c s IH]; intros k.
  - now destruct k.
  - destruct k as [|k]; cbn [replace_from skipn]; [|apply IH].
    change (contains (o :: old) (c :: s))
      with (is_prefix (o :: old) (c :: s) || contains (o :: old) s).
    destruct (is_prefix (o :: old) (c :: s)); cbn [orb]; [discriminate|].
    intro H. now rewrite (IH 0%nat H).
Qed.

Lemma replace_from_length (old new : text) (k : nat) (s : text) :
  (List.length old <> 0)%nat ->
  (List.length (replace_from old new k s)
   + replacements old k s * List.length old
   = List.length (skipn k s) + replacements old k s * List.length new)%nat.
Proof.
  intro Hold.
  assert (H : forall n s k, (List.length s <= n)%nat ->
            (List.length (replace_from old new k s)
             + replacements old k s * List.length old
             = List.length (skipn k s)
               + replacements old k s * List.length new)%nat).
  { clear s k. induction n as [|n IH]; intros s k Hn.
    - destruct s; [now destruct k | cbn [List.length] in Hn; lia].
    - destruct s as [|c s]; [now destruct k|].
      cbn [List.length] in Hn.
      destruct k as [|k]; cbn [replace_from replacements skipn].
      + destruct (is_prefix old (c :: s)) eqn:E.
        * apply is_prefix_spec in E as [post E].
          rewrite length_app.
          specialize (IH s (List.length old - 1)%nat ltac:(lia)).
          assert (Hs : (List.length (skipn (List.length old - 1) s)
                        + List.length old = S (List.length s))%nat).
          { destruct old as [|o old]; [cbn in Hold; lia|].
            injection E as -> ->.
            replace (List.length (o :: old) - 1)%nat with (List.length old)
              by (cbn [List.length]; lia).
            rewrite skipn_app, skipn_all, Nat.sub_diag, skipn_O.
            cbn [app List.length]. rewrite length_app. lia. }
          cbn [List.length]. lia.
        * specialize (IH s 0%nat ltac:(lia)). rewrite skipn_O in IH.
          cbn [List.length]. lia.
      + apply IH. lia. }
  now apply (H (List.length s)).
Qed.

Lemma highlight_length (t word : text) :
  List.length (highlight t word)
  = (List.length t + 13 * (if nonempty word then replacements word 0 t
                           else 0))%nat.
Proof.
  unfold highlight. destruct word as [|o w]; cbn [nonempty]; [lia|].
  cbn [py_replace].
  pose proof (replace_from_length (o :: w) (marked (o :: w)) 0 t
                ltac:(discriminate)) as H.
  rewrite skipn_O in H.
  replace (List.length (marked (o :: w)))
    with (13 + List.length (o :: w))%nat in H
    by (unfold marked; rewrite !length_app;
        change (List.length (str "**:orange[")) with 10%nat;
        change (List.length (str "]**")) with 3%nat; lia).
  lia.
Qed.

(** X20: what [highlight] marks.  With an empty word the text is returned
    as it is (the guard of line 57 keeps [replace] from inserting markers
    between all characters).  With a non-empty word, an occurrence at the
    start is replaced by the word wrapped in the orange marker and the
    search goes on after it; a character that starts no occurrence is
    copied.  The result is the text itself exactly when the word is empty
    or does not occur in it, and it is longer than the text by thirteen
    characters for every marked occurrence. *)
Theorem highlight_marks_occurrences (t word : text) :
  highlight t [] = t
  /\ (word <> [] ->
      forall rest,
        highlight (word ++ rest) word = marked word ++ highlight rest word)
  /\ (forall c s, is_prefix word (c :: s) = false ->
        highlight (c :: s) word = c :: highlight s word)
  /\ (highlight t word = t <-> word = [] \/ contains word t = false)
  /\ exists n, List.length (highlight t word) = (List.length t + 13 * n)%nat.
Proof.
  split; [reflexivity|]. split; [|split; [|split]].
  - destruct word as [|o w]; [congruence|]. intros _ rest.
    unfold highlight. cbn [nonempty py_replace]. apply replace_from_hit.
  - intros c s H. destruct word as [|o w]; [discriminate|].
    unfold highlight. cbn [nonempty py_replace replace_from]. now rewrite H.
  - destruct word as [|o w].
    + split; [now left | reflexivity].
    + split.
      * intro H. right.
        pose proof (highlight_length t (o :: w)) as L. rewrite H in L.
        cbn [nonempty] in L.
        apply (replacements_none o w 0 t). lia.
      * intros [H|H]; [discriminate|].
        unfold highlight. cbn [nonempty py_replace].
        now rewrite (replace_from_none o w _ 0 t H).
  - eexists. apply highlight_length.
Qed.

Lemma highlight_marks_occurrences_witness :
  highlight (str "sad and sad") (str "sad")
  = marked (str "sad") ++ highlight (str " and sad") (str "sad").
Proof.
  apply (proj1 (proj2 (highlight_marks_occurrences [] (str "sad")))
           ltac:(discriminate) (str " and sad")).
Defined.

(** X21: the filter ignores case, the highlighter does not.  The keyword
    is lower-cased on line 93 and searched in the lower-cased fields, but
    [highlight] searches it in the fields as stored: an entry is shown
    without any marker whenever the lower-cased keyword does not occur in
    the stored text itself, although the entry matched.  So for every
    Unicode database the record with prompt ["HELP"] matches the keyword
    ["Help"] and is displayed unmarked. *)
Theorem highlight_is_case_sensitive (U : UnicodeData) (keyword_input t : text) :
  (contains (lower U keyword_input) t = false ->
   highlight t (lower U keyword_input) = t)
  /\ keeps U (lower U (str "Help")) (lower U [])
       (mkRecord (str "HELP") (str "ok") (str "cbt")) = true
  /\ highlight (str "HELP") (lower U (str "Help")) = str "HELP".
Proof.
  split; [|split; reflexivity].
  intro H. unfold highlight.
  destruct (lower U keyword_input) as [|o w]; [reflexivity|].
  cbn [nonempty py_replace]. now rewrite (replace_from_none o w _ 0 t H).
Qed.

Lemma highlight_is_case_sensitive_witness :
  highlight (str "HELP me") (lower ascii_only (str "Help")) = str "HELP me".
Proof.
  apply (proj1 (highlight_is_case_sensitive ascii_only (str "Help")
                  (str "HELP me"))).
  reflexivity.
Defined.

(** ** The UTF-8 layer *)

Lemma utf8_decode_char (c : N) (b rest : list N) :
  utf8_encode_char c = Some b ->
  is_scalar_value c = true
  /\ utf8_decode (b ++ rest) = option_map (cons c) (utf8_decode rest).
Proof.
  unfold utf8_encode_char, is_scalar_value, in_range.
  destruct (N.ltb_spec c 0x80) as [H1|H1].
  { intros [= <-]. split; [nbool; lia|]. cbn [app utf8_decode].
    destruct (N.ltb_spec c 0x80); [reflexivity | lia]. }
  destruct (N.ltb_spec c 0x800) as [H2|H2].
  { intros [= <-]. split; [nbool; lia|]. cbn [app utf8_decode].
    unfold in_range, is_cont, in_range.
    destruct (N.ltb_spec (0xC0 + c / 64) 0x80); [lia|].
    replace ((0xC2 <=? 0xC0 + c / 64) && (0xC0 + c / 64 <=? 0xDF)) with true
      by (symmetry; nbool; lia).
    replace ((0x80 <=? 0x80 + c mod 64) && (0x80 + c mod 64 <=? 0xBF))
      with true by (symmetry; nbool; lia).
    replace ((0xC0 + c / 64 - 0xC0) * 64 + (0x80 + c mod 64 - 0x80)) with c
      by lia.
    reflexivity. }
  destruct (N.ltb_spec c 0x10000) as [H3|H3].
  { destruct ((0xD800 <=? c) && (c <=? 0xDFFF)) eqn:Hs; [discriminate|].
    intros [= <-]. split; [nbool; lia|]. cbn [app utf8_decode].
    unfold in_range, second_ok, is_cont, in_range.
    destruct (N.ltb_spec (0xE0 + c / 4096) 0x80); [lia|].
    replace ((0xC2 <=? 0xE0 + c / 4096) && (0xE0 + c / 4096 <=? 0xDF))
      with false by (symmetry; nbool; lia).
    replace ((0xE0 <=? 0xE0 + c / 4096) && (0xE0 + c / 4096 <=? 0xEF))
      with true by (symmetry; nbool; lia).
    replace ((0x80 <=? 0x80 + c mod 64) && (0x80 + c mod 64 <=? 0xBF))
      with true by (symmetry; nbool; lia).
    replace ((0xE0 + c / 4096 - 0xE0) * 64 + (0x80 + (c / 64) mod 64 - 0x80))
      with (c / 64) by lia.
    replace (c / 64 * 64 + (0x80 + c mod 64 - 0x80)) with c by lia.
    destruct (N.eqb_spec (0xE0 + c / 4096) 0xE0) as [E|E].
    { replace ((0xA0 <=? 0x80 + (c / 64) mod 64)
               && (0x80 + (c / 64) mod 64 <=? 0xBF)) with true
        by (symmetry; nbool; lia).
      reflexivity. }
    destruct (N.eqb_spec (0xE0 + c / 4096) 0xED) as [E'|E'].
    { replace ((0x80 <=? 0x80 + (c / 64) mod 64)
               && (0x80 + (c / 64) mod 64 <=? 0x9F)) with true
        by (symmetry; nbool; lia).
      reflexivity. }
    destruct (N.eqb_spec (0xE0 + c / 4096) 0xF0) as [E''|E'']; [lia|].
    destruct (N.eqb_spec (0xE0 + c / 4096) 0xF4) as [E3|E3]; [lia|].
    replace ((0x80 <=? 0x80 + (c / 64) mod 64)
             && (0x80 + (c / 64) mod 64 <=? 0xBF)) with true
      by (symmetry; nbool; lia).
    reflexivity. }
  destruct (N.ltb_spec c 0x110000) as [H4|H4]; [|discriminate].
  intros [= <-]. split; [nbool; lia|]. cbn [app utf8_decode].
  unfold in_range, second_ok, is_cont, in_range.
  destruct (N.ltb_spec (0xF0 + c / 262144) 0x80); [lia|].
  replace ((0xC2 <=? 0xF0 + c / 262144) && (0xF0 + c / 262144 <=? 0xDF))
    with false by (symmetry; nbool; lia).
  replace ((0xE0 <=? 0xF0 + c / 262144) && (0xF0 + c / 262144 <=? 0xEF))
    with false by (symmetry; nbool; lia).
  replace ((0xF0 <=? 0xF0 + c / 262144) && (0xF0 + c / 262144 <=? 0xF4))
    with true by (symmetry; nbool; lia).
  replace ((0x80 <=? 0x80 + (c / 64) mod 64)
           && (0x80 + (c / 64) mod 64 <=? 0xBF)) with true
    by (symmetry; nbool; lia).
  replace ((0x80 <=? 0x80 + c mod 64) && (0x80 + c mod 64 <=? 0xBF))
    with true by (symmetry; nbool; lia).
  replace ((0xF0 + c / 262144 - 0xF0) * 64
           + (0x80 + (c / 4096) mod 64 - 0x80))
    with (c / 4096) by lia.
  replace (c / 4096 * 64 + (0x80 + (c / 64) mod 64 - 0x80)) with (c / 64)
    by lia.
  replace (c / 64 * 64 + (0x80 + c mod 64 - 0x80)) with c by lia.
  destruct (N.eqb_spec (0xF0 + c / 262144) 0xE0) as [E|E]; [lia|].
  destruct (N.eqb_spec (0xF0 + c / 262144) 0xED) as [E'|E']; [lia|].
  destruct (N.eqb_spec (0xF0 + c / 262144) 0xF0) as [E''|E''].
  { replace ((0x90 <=? 0x80 + (c / 4096) mod 64)
             && (0x80 + (c / 4096) mod 64 <=? 0xBF)) with true
      by (symmetry; nbool; lia).
    reflexivity. }
  destruct (N.eqb_spec (0xF0 + c / 262144) 0xF4) as [E3|E3].
  { replace ((0x80 <=? 0x80 + (c / 4096) mod 64)
             && (0x80 + (c / 4096) mod 64 <=? 0x8F)) with true
      by (symmetry; nbool; lia).
    reflexivity. }
  replace ((0x80 <=? 0x80 + (c / 4096) mod 64)
           && (0x80 + (c / 4096) mod 64 <=? 0xBF)) with true
    by (symmetry; nbool; lia).
  reflexivity.
Qed.

Lemma utf8_encode_char_total (c : N) :
  is_scalar_value c = true -> exists b, utf8_encode_char c = Some b.
Proof.
  unfold is_scalar_value, utf8_encode_char, in_range. intro H.
  destruct (c <? 0x80); [eauto|]. destruct (c <? 0x800); [eauto|].
  destruct (N.ltb_spec c 0x10000).
  - destruct ((0xD800 <=? c) && (c <=? 0xDFFF)) eqn:E; [|eauto].
    exfalso. nbool. lia.
  - destruct (N.ltb_spec c 0x110000); [eauto|]. exfalso. nbool. lia.
Qed.

Lemma utf8_roundtrip (t : text) :
  unicode_text t ->
  exists bs, utf8_encode t = Some bs /\ utf8_decode bs = Some t.
Proof.
  unfold unicode_text. induction t as [|c t IH]; [now exists []|].
  cbn [forallb]. intros [Hc Ht]%andb_true_iff.
  destruct (IH Ht) as (bs & E & D).
  destruct (utf8_encode_char_total c Hc) as [b Hb].
  exists (b ++ bs). cbn [utf8_encode]. rewrite Hb, E. split; [reflexivity|].
  destruct (utf8_decode_char c b bs Hb) as [_ ->]. now rewrite D.
Qed.

Lemma option_map_Some {A B} (f : A -> B) (o : option A) (y : B) :
  option_map f o = Some y -> exists x, o = Some x /\ y = f x.
Proof. destruct o as [x|]; [|discriminate]. intros [= <-]. now exists x. Qed.

Lemma utf8_decode_inv (bs : list N) (t : text) :
  utf8_decode bs = Some t -> unicode_text t /\ utf8_encode t = Some bs.
Proof.
  assert (H : forall n bs t, (List.length bs <= n)%nat ->
            utf8_decode bs = Some t ->
            unicode_text t /\ utf8_encode t = Some bs).
  { clear bs t. induction n as [|n IH]; intros bs t Hn.
    - destruct bs; [|cbn [List.length] in Hn; lia].
      intros [= <-]. now split.
    - destruct bs as [|b0 r0]; [intros [= <-]; now split|].
      cbn [List.length] in Hn. cbn [utf8_decode].
      unfold in_range, second_ok, is_cont, in_range.
      destruct (N.ltb_spec b0 0x80) as [L1|L1].
      { intros (t' & D & ->)%option_map_Some.
        destruct (IH r0 t' ltac:(lia) D) as [U E]. split.
        - unfold unicode_text in *. cbn [forallb]. rewrite U, andb_true_r.
          unfold is_scalar_value. nbool. lia.
        - cbn [utf8_encode]. rewrite E. unfold utf8_encode_char.
          destruct (N.ltb_spec b0 0x80); [reflexivity | lia]. }
      destruct ((0xC2 <=? b0) && (b0 <=? 0xDF)) eqn:L2.
      { destruct r0 as [|b1 r1]; [discriminate|].
        destruct ((0x80 <=? b1) && (b1 <=? 0xBF)) eqn:C1; [|discriminate].
        intros (t' & D & ->)%option_map_Some.
        cbn [List.length] in Hn.
        destruct (IH r1 t' ltac:(lia) D) as [U E]. nbool. split.
        - unfold unicode_text in *. cbn [forallb]. rewrite U, andb_true_r.
          unfold is_scalar_value. nbool. lia.
        - cbn [utf8_encode]. rewrite E. unfold utf8_encode_char.
          destruct (N.ltb_spec ((b0 - 0xC0) * 64 + (b1 - 0x80)) 0x80); [lia|].
          destruct (N.ltb_spec ((b0 - 0xC0) * 64 + (b1 - 0x80)) 0x800); [|lia].
          cbn [app]. repeat f_equal; lia. }
      destruct ((0xE0 <=? b0) && (b0 <=? 0xEF)) eqn:L3.
      { destruct r0 as [|b1 [|b2 r2]]; try discriminate.
        match goal with
        | |- (if ?c then _ else _) = _ -> _ => destruct c eqn:C; [|discriminate]
        end.
        intros (t' & D & ->)%option_map_Some.
        cbn [List.length] in Hn.
        destruct (IH r2 t' ltac:(lia) D) as [U E].
        apply andb_true_iff in C as [C1 C2].
        assert (R : 0x80 <= b1 <= 0xBF
                    /\ (b0 = 0xE0 -> 0xA0 <= b1)
                    /\ (b0 = 0xED -> b1 <= 0x9F)).
        { destruct (N.eqb_spec b0 0xE0); [nbool; lia|].
          destruct (N.eqb_spec b0 0xED); [nbool; lia|].
          destruct (N.eqb_spec b0 0xF0); [nbool; lia|].
          destruct (N.eqb_spec b0 0xF4); nbool; lia. }
        clear C1. nbool. split.
        - unfold unicode_text in *. cbn [forallb]. rewrite U, andb_true_r.
          unfold is_scalar_value. nbool. lia.
        - cbn [utf8_encode]. rewrite E. unfold utf8_encode_char, in_range.
          set (c := ((b0 - 0xE0) * 64 + (b1 - 0x80)) * 64 + (b2 - 0x80)).
          assert (Hc : 0x800 <= c < 0x10000 /\ ~ (0xD800 <= c <= 0xDFFF))
            by (unfold c; lia).
          destruct (N.ltb_spec c 0x80); [lia|].
          destruct (N.ltb_spec c 0x800); [lia|].
          destruct (N.ltb_spec c 0x10000); [|lia].
          replace ((0xD800 <=? c) && (c <=? 0xDFFF)) with false
            by (symmetry; nbool; lia).
          cbn [app]. unfold c. repeat f_equal; lia. }
      destruct ((0xF0 <=? b0) && (b0 <=? 0xF4)) eqn:L4; [|discriminate].
      destruct r0 as [|b1 [|b2 [|b3 r3]]]; try discriminate.
      match goal with
      | |- (if ?c then _ else _) = _ -> _ => destruct c eqn:C; [|discriminate]
      end.
      intros (t' & D & ->)%option_map_Some.
      cbn [List.length] in Hn.
      destruct (IH r3 t' ltac:(lia) D) as [U E].
      apply andb_true_iff in C as [C C3]. apply andb_true_iff in C as [C1 C2].
      assert (R : 0x80 <= b1 <= 0xBF
                  /\ (b0 = 0xF0 -> 0x90 <= b1)
                  /\ (b0 = 0xF4 -> b1 <= 0x8F)).
      { destruct (N.eqb_spec b0 0xE0); [nbool; lia|].
        destruct (N.eqb_spec b0 0xED); [nbool; lia|].
        destruct (N.eqb_spec b0 0xF0); [nbool; lia|].
        destruct (N.eqb_spec b0 0xF4); nbool; lia. }
      clear C1. nbool. split.
      + unfold unicode_text in *. cbn [forallb]. rewrite U, andb_true_r.
        unfold is_scalar_value. nbool. lia.
      + cbn [utf8_encode]. rewrite E. unfold utf8_encode_char, in_range.
        set (c := (((b0 - 0xF0) * 64 + (b1 - 0x80)) * 64 + (b2 - 0x80)) * 64
                  + (b3 - 0x80)).
        assert (Hc : 0x10000 <= c < 0x110000) by (unfold c; lia).
        destruct (N.ltb_spec c 0x80); [lia|].
        destruct (N.ltb_spec c 0x800); [lia|].
        destruct (N.ltb_spec c 0x10000); [lia|].
        destruct (N.ltb_spec c 0x110000); [|lia].
        cbn [app]. unfold c. repeat f_equal; lia. }
  now apply (H (List.length bs)).
Qed.

Lemma utf8_encode_ascii (t : text) :
  forallb (fun c => c <? 0x80) t = true -> utf8_encode t = Some t.
Proof.
  induction t as [|c t IH]; [reflexivity|]. cbn [forallb utf8_encode].
  intros [Hc Ht]%andb_true_iff. rewrite (IH Ht).
  unfold utf8_encode_char. now rewrite Hc.
Qed.

(** X22: the UTF-8 layer.  Strict decoding succeeds on exactly the byte
    strings that are the encoding of a Unicode text, and gives that text:
    what is decoded holds no surrogate and nothing beyond U+10FFFF, and no
    two byte strings decode to the same text.  Conversely every Unicode
    text is encoded without error and decoded back to itself, so a file
    written on line 74 and read on lines 97-99 holds the text that was
    written. *)
Theorem utf8_decode_encode (bs : list N) (t : text) :
  (utf8_decode bs = Some t <-> unicode_text t /\ utf8_encode t = Some bs)
  /\ (unicode_text t ->
      exists bs', utf8_encode t = Some bs' /\ utf8_decode bs' = Some t).
Proof.
  split; [split|].
  - apply utf8_decode_inv.
  - intros [U E]. destruct (utf8_roundtrip t U) as (bs' & E' & D).
    congruence.
  - apply utf8_roundtrip.
Qed.

Lemma utf8_decode_encode_witness :
  exists bs', utf8_encode [0x48; 0xE9; 0x20AC; 0x1F600] = Some bs'
              /\ utf8_decode bs' = Some [0x48; 0xE9; 0x20AC; 0x1F600].
Proof.
  apply (proj2 (utf8_decode_encode [] [0x48; 0xE9; 0x20AC; 0x1F600])).
  reflexivity.
Defined.

(** ** Extraction *)

Lemma paragraphs_of_join (pages : list text) :
  paragraphs_of (join [newline] pages)
  = concat (List.map paragraphs_of pages).
Proof.
  induction pages as [|x [|y rest] IH]; [reflexivity| |].
  - cbn [join List.map concat]. now rewrite app_nil_r.
  - change (join [newline] (x :: y :: rest))
      with (x ++ newline :: join [newline] (y :: rest)).
    rewrite paragraphs_of_app, IH. reflexivity.
Qed.

Lemma paragraphs_of_nonempty_pages (pages : list text) :
  concat (List.map paragraphs_of (List.filter nonempty pages))
  = concat (List.map paragraphs_of pages).
Proof.
  induction pages as [|x pages IH]; [reflexivity|].
  cbn [List.filter]. destruct x as [|c x]; cbn [nonempty List.map concat].
  - now rewrite IH.
  - now rewrite IH.
Qed.



(** X24: a PDF upload.  The text extracted from a PDF is its non-empty
    page texts joined by newlines, so its trimmed non-blank lines are
    those of the pages, page after page: a page break is a line break, an
    empty page adds nothing, and the records pair the lines across page
    breaks. *)
Theorem extract_text_pdf (pdf_pages : list N -> option (list text))
    (docx_process : list N -> option text) (file : UploadedFile)
    (pages : list text) :
  ftype file = str "application/pdf" ->
  pdf_pages (getvalue file) = Some pages ->
  exists raw_text,
    extract_text pdf_pages docx_process file = Some raw_text
    /\ paragraphs_of raw_text = concat (List.map paragraphs_of pages)
    /\ forall tg, segment_into_pairs raw_text tg
                  = Ok (pair_up tg (concat (List.map paragraphs_of pages))).
Proof.
  intros Ht Hp. unfold extract_text. rewrite Ht, Hp.
  change (text_eqb (str "application/pdf") (str "text/plain")) with false.
  change (text_eqb (str "application/pdf") (str "application/pdf")) with true.
  cbv iota. cbn [option_map]. eexists. split; [reflexivity|].
  assert (E : paragraphs_of (join [newline] (List.filter nonempty pages))
              = concat (List.map paragraphs_of pages))
    by (now rewrite paragraphs_of_join, paragraphs_of_nonempty_pages).
  split; [exact E|]. intro tg. now rewrite segment_into_pairs_eq, E.
Qed.

Lemma extract_text_pdf_witness :
  exists raw_text,
    extract_text (fun _ => Some [str "a"; []; str " b"]) (fun _ => None)
      (mkUploadedFile (str "application/pdf") []) = Some raw_text
    /\ paragraphs_of raw_text
       = concat (List.map paragraphs_of [str "a"; []; str " b"])
    /\ forall tg, segment_into_pairs raw_text tg
                  = Ok (pair_up tg
                          (concat (List.map paragraphs_of
                                     [str "a"; []; str " b"]))).
Proof.
  apply (extract_text_pdf (fun _ => Some [str "a"; []; str " b"])
           (fun _ => None) (mkUploadedFile (str "application/pdf") []));
    reflexivity.
Defined.

Lemma pair_up_nil_iff (tg : text) (l : list text) :
  pair_up tg l = [] <-> (List.length l < 2)%nat.
Proof.
  destruct l as [|a [|b l]]; cbn [pair_up List.length].
  - split; [lia | reflexivity].
  - split; [lia | reflexivity].
  - split; [discriminate | lia].
Qed.



(** ** Scrubber: lines *)

Lemma length_split_on (sep : N) (t : text) :
  List.length (split_on sep t)
  = S (List.length (List.filter (N.eqb sep) t)).
Proof.
  induction t as [|c t IH]; [reflexivity|]. cbn [split_on List.filter].
  rewrite (N.eqb_sym sep c). destruct (c =? sep).
  - cbn [List.length]. now rewrite IH.
  - rewrite <- IH. pose proof (split_on_nonempty sep t) as H.
    destruct (split_on sep t); [congruence | reflexivity].
Qed.

Lemma sub_from_count (U : UnicodeData) (p : regex) (repl : text) (z : N) :
  List.filter (N.eqb z) repl = [] ->
  forall s prev k,
    (List.length (List.filter (N.eqb z) (sub_from U p repl prev s k))
     <= List.length (List.filter (N.eqb z) s))%nat.
Proof.
  intro Hr. induction s as [|x s IH]; intros prev k.
  - destruct k; cbn [sub_from]; [|reflexivity].
    destruct (match_here U p prev []) as [[|n]|];
      rewrite ?app_nil_r, ?Hr; reflexivity.
  - destruct k as [|k]; cbn [sub_from].
    + destruct (match_here U p prev (x :: s)) as [[|n]|].
      * rewrite List.filter_app, Hr. cbn [app List.filter].
        specialize (IH (Some x) 0%nat).
        destruct (z =? x); cbn [List.length]; lia.
      * rewrite List.filter_app, Hr. cbn [app List.filter].
        specialize (IH (Some x) n).
        destruct (z =? x); cbn [List.length]; lia.
      * cbn [List.filter]. specialize (IH (Some x) 0%nat).
        destruct (z =? x); cbn [List.length]; lia.
    + cbn [List.filter]. specialize (IH (Some x) k).
      destruct (z =? x); cbn [List.length]; lia.
Qed.

(** X26: scrubbing never adds a line, but can join two.  The scrubbed
    text has at most as many lines as the raw text.  It can have fewer:
    the whitespace of the name rule (and the separators of the phone rule)
    may be a newline, so two capitalised words on consecutive lines
    become one placeholder on one line, which shifts the pairing of
    prompts and responses that follows. *)
Theorem scrub_text_never_adds_lines (U : UnicodeData) (t : text) :
  (List.length (split_on newline (scrub_text U t))
   <= List.length (split_on newline t))%nat
  /\ scrub_text U (str "Ann" ++ newline :: str "Lee") = str "[REDACTED_NAME]"
  /\ scrub_text U (str "555" ++ newline :: str "123" ++ newline :: str "4567")
     = str "[REDACTED_PHONE]".
Proof.
  split; [|split; reflexivity].
  rewrite !length_split_on, scrub_text_rules. unfold re_sub.
  pose proof (sub_from_count U EMAIL_RE REDACTED_EMAIL newline eq_refl
                (sub_from U PHONE_RE REDACTED_PHONE None
                   (sub_from U DATE_RE REDACTED_DATE None
                      (sub_from U NAME_RE REDACTED_NAME None t 0) 0) 0)
                None 0%nat) as H4.
  pose proof (sub_from_count U PHONE_RE REDACTED_PHONE newline eq_refl
                (sub_from U DATE_RE REDACTED_DATE None
                   (sub_from U NAME_RE REDACTED_NAME None t 0) 0)
                None 0%nat) as H3.
  pose proof (sub_from_count U DATE_RE REDACTED_DATE newline eq_refl
                (sub_from U NAME_RE REDACTED_NAME None t 0)
                None 0%nat) as H2.
  pose proof (sub_from_count U NAME_RE REDACTED_NAME newline eq_refl
                t None 0%nat) as H1.
  lia.
Qed.

(** ** Version labels *)

Lemma text_eqb_refl (a : text) : text_eqb a a = true.
Proof. now apply text_eqb_eq. Qed.

Lemma text_eqb_neq (a b : text) : a <> b -> text_eqb a b = false.
Proof.
  intro H. destruct (text_eqb a b) eqn:E; [|reflexivity].
  apply text_eqb_eq in E. congruence.
Qed.

Lemma dict_get_set_eq (k : text) (v : json) (d : list (text * json)) :
  dict_get k (dict_set k v d) = Some v.
Proof.
  induction d as [|[k' v'] d IH]; cbn [dict_set dict_get].
  - now rewrite text_eqb_refl.
  - destruct (text_eqb k' k) eqn:E; cbn [dict_get]; rewrite E; auto.
Qed.

Lemma dict_get_set_ne (k k0 : text) (v : json) (d : list (text * json)) :
  k0 <> k -> dict_get k0 (dict_set k v d) = dict_get k0 d.
Proof.
  intro H. induction d as [|[k' v'] d IH]; cbn [dict_set dict_get].
  - rewrite text_eqb_neq; [reflexivity | congruence].
  - destruct (text_eqb k' k) eqn:E; cbn [dict_get].
    + apply text_eqb_eq in E as ->.
      rewrite text_eqb_neq; [reflexivity | congruence].
    + now rewrite IH.
Qed.

Lemma dict_set_fresh (k : text) (v : json) (d : list (text * json)) :
  ~ In k (List.map fst d) -> dict_set k v d = d ++ [(k, v)].
Proof.
  induction d as [|[k' v'] d IH]; [reflexivity|]. cbn [List.map fst In].
  intro H. cbn [dict_set app].
  rewrite text_eqb_neq; [|intros ->; apply H; now left].
  rewrite IH; [reflexivity|]. intro; apply H; now right.
Qed.

Lemma dict_set_keys (k : text) (v : json) (d : list (text * json)) :
  List.map fst (dict_set k v d)
  = if existsb (fun k' => text_eqb k' k) (List.map fst d)
    then List.map fst d else List.map fst d ++ [k].
Proof.
  induction d as [|[k' v'] d IH]; [reflexivity|].
  cbn [dict_set List.map fst existsb].
  destruct (text_eqb k' k) eqn:E; cbn [orb List.map fst]; [reflexivity|].
  rewrite IH. now destruct (existsb _ _).
Qed.



Lemma label_store_inv (d : list (text * json)) :
  label_store d ->
  exists ls, d = labels_json ls
             /\ List.NoDup (List.map fst ls)
             /\ List.Forall (fun kv => unicode_text (fst kv)
                                       /\ unicode_text (snd kv)) ls.
Proof.
  intros [Hn Hf]. induction d as [|[k x] d IH].
  - exists []. repeat split; constructor.
  - inversion Hn as [|? ? Hk Hn']; subst.
    inversion Hf as [|? ? (Hu & l & Hl & Hul) Hf']; subst.
    cbn [fst snd] in *. subst x.
    destruct (IH Hn' Hf') as (ls & -> & Hn2 & Hf2).
    exists ((k, l) :: ls). split; [reflexivity|].
    assert (E : List.map fst (labels_json ls) = List.map fst ls).
    { unfold labels_json. rewrite List.map_map. reflexivity. }
    rewrite E in Hk. split; constructor; auto.
Qed.

Lemma dumps_indent2_labels (float_repr : text -> text) (kv : text * text)
    (ls : list (text * text)) :
  dumps_indent2 float_repr (JDict (labels_json (kv :: ls)))
  = 0x7B :: newline :: 0x20 :: 0x20 :: quote :: members_text (kv :: ls) [].
Proof.
  pose (F := fun kv : text * json =>
               match kv with
               | (k, x) =>
                   encode_basestring_ascii k ++ str ": "
                   ++ encode_json float_repr (Some 2%nat) 1 x
               end).
  pose (lift := fun kv : text * text => (fst kv, JStr (snd kv))).
  assert (J : forall ls kv,
            join [0x2C; newline; 0x20; 0x20]
              (List.map F (List.map lift (kv :: ls)))
            ++ [newline; 0x7D]
            = quote :: members_text (kv :: ls) []).
  { clear kv ls. induction ls as [|kv' ls IH]; intros [k v].
    - cbn [List.map join]. unfold lift, F. cbn [fst snd encode_json].
      unfold encode_basestring_ascii. cbn [members_text].
      change (str ": ") with [0x3A; 0x20].
      repeat (progress (rewrite <- ?app_assoc; cbn [app])). reflexivity.
    - change (List.map F (List.map lift ((k, v) :: kv' :: ls)))
        with (F (lift (k, v)) :: F (lift kv')
              :: List.map F (List.map lift ls)).
      rewrite join_cons_cons.
      change (F (lift kv') :: List.map F (List.map lift ls))
        with (List.map F (List.map lift (kv' :: ls))).
      rewrite <- !app_assoc, IH.
      unfold lift at 1, F at 1. cbn [fst snd encode_json].
      unfold encode_basestring_ascii.
      change (str ": ") with [0x3A; 0x20].
      destruct kv' as [k' v'].
      cbn [members_text].
      repeat (progress (rewrite <- ?app_assoc; cbn [app])). reflexivity. }
  transitivity
    (str "{" ++ [newline; 0x20; 0x20]
     ++ join [0x2C; newline; 0x20; 0x20]
          (List.map F (List.map lift (kv :: ls)))
     ++ [newline] ++ str "}"); [reflexivity|].
  change (str "{") with [0x7B]. change (str "}") with [0x7D].
  cbn [app]. do 4 f_equal. exact (J ls kv).
Qed.

Lemma members_text_length (ls : list (text * text)) (tail : text) :
  (List.length ls <= List.length (members_text ls tail))%nat.
Proof.
  induction ls as [|[k v] ls IH]; [cbn; lia|].
  cbn [members_text List.length]. rewrite !length_app. cbn [List.length].
  rewrite !length_app. destruct ls as [|kv ls]; cbn [List.length] in *; lia.
Qed.

Lemma members_text_chars (ls : list (text * text)) :
  forallb (fun c => printable c || (c =? newline)) (members_text ls []) = true.
Proof.
  assert (P : forall s, forallb (fun c => printable c || (c =? newline))
                          (flat_map escape_char s) = true).
  { intro s. pose proof (encode_printable s) as H.
    rewrite forallb_forall in *. intros c Hc. now rewrite H. }
  induction ls as [|[k v] ls IH]; [reflexivity|].
  cbn [members_text]. rewrite forallb_app, P. cbn [forallb].
  rewrite forallb_app, P. cbn [forallb andb orb].
  destruct ls as [|kv ls]; [reflexivity|].
  cbn [forallb]. rewrite IH. reflexivity.
Qed.

Lemma parse_members_labels (ls : list (text * text)) :
  forall (acc : list (text * json)) (f : nat) (tail : text),
    ls <> [] -> (List.length ls <= f)%nat ->
    List.Forall (fun kv => unicode_text (fst kv) /\ unicode_text (snd kv)) ls ->
    List.NoDup (List.map fst ls) ->
    (forall k, In k (List.map fst ls) -> ~ In k (List.map fst acc)) ->
    parse_members (S f) (members_text ls tail) acc
    = Ok (JDict (acc ++ labels_json ls), tail).
Proof.
  induction ls as [|[k v] ls IH]; intros acc f tail Hne Hf Hu Hn Hacc;
    [congruence|].
  inversion Hu as [|? ? [Hk Hv] Hu']; subst. cbn [fst snd] in *.
  inversion Hn as [|? ? Hfresh Hn']; subst.
  cbn [List.length] in Hf. destruct f as [|f]; [lia|].
  cbn [members_text]. rewrite parse_member_str by assumption.
  assert (Hset : dict_set k (JStr v) acc = acc ++ [(k, JStr v)]).
  { apply dict_set_fresh. apply Hacc. now left. }
  destruct ls as [|kv ls].
  - change (skip_ws (newline :: 0x7D :: tail)) with (0x7D :: tail).
    change (0x7D =? 0x7D) with true. cbv iota. now rewrite Hset.
  - change (skip_ws (0x2C :: newline :: 0x20 :: 0x20 :: quote
                     :: members_text (kv :: ls) tail))
      with (0x2C :: newline :: 0x20 :: 0x20 :: quote
            :: members_text (kv :: ls) tail).
    change (0x2C =? 0x7D) with false. change (0x2C =? 0x2C) with true.
    cbv iota.
    change (skip_ws (newline :: 0x20 :: 0x20 :: quote
                     :: members_text (kv :: ls) tail))
      with (quote :: members_text (kv :: ls) tail).
    change (quote =? quote) with true. cbv iota.
    rewrite Hset, IH; try assumption; try discriminate; try lia.
    + now rewrite <- app_assoc.
    + intros k' Hk' Hin. rewrite List.map_app, in_app_iff in Hin.
      destruct Hin as [Hin|[<-|[]]].
      * apply (Hacc k'); [now right | exact Hin].
      * apply Hfresh. exact Hk'.
Qed.

Lemma loads_dumps_indent2 (float_repr : text -> text)
    (d : list (text * json)) :
  label_store d ->
  load_labels (Some (dumps_indent2 float_repr (JDict d))) = Ok (JDict d).
Proof.
  intros (ls & -> & Hn & Hu)%label_store_inv. unfold load_labels.
  destruct ls as [|kv ls]; [reflexivity|].
  rewrite dumps_indent2_labels.
  rewrite translate_newlines_id
    by (cbn [forallb]; now rewrite members_text_chars).
  unfold loads.
  change (skip_ws (0x7B :: newline :: 0x20 :: 0x20 :: quote
                   :: members_text (kv :: ls) []))
    with (0x7B :: newline :: 0x20 :: 0x20 :: quote
          :: members_text (kv :: ls) []).
  pose proof (members_text_length (kv :: ls) []) as L.
  remember (members_text (kv :: ls) []) as m eqn:Em.
  cbn [List.length]. 
  replace (2 * S (S (S (S (S (List.length m))))))%nat
    with (S (S (2 * List.length m + 8)))%nat by lia.
  change (scan_once (S (S (S (2 * List.length m + 8))))
            (0x7B :: newline :: 0x20 :: 0x20 :: quote :: m))
    with (parse_members (S (S (2 * List.length m + 8))) m []).
  subst m. rewrite parse_members_labels; try assumption.
  - reflexivity.
  - discriminate.
  - lia.
  - intros k _ [].
Qed.

Lemma existsb_text_eqb (k : text) (l : list text) :
  existsb (fun k' => text_eqb k' k) l = true <-> In k l.
Proof.
  rewrite existsb_exists. split.
  - intros (x & Hx & E). apply text_eqb_eq in E. now subst.
  - intro H. exists k. split; [exact H | apply text_eqb_refl].
Qed.

Lemma label_store_set (d : list (text * json)) (k l : text) :
  label_store d -> unicode_text k -> unicode_text l ->
  label_store (dict_set k (JStr l) d).
Proof.
  intros [Hn Hf] Hk Hl. split.
  - rewrite dict_set_keys.
    destruct (existsb (fun k' => text_eqb k' k) (List.map fst d)) eqn:E;
      [exact Hn|].
    apply List.NoDup_app; [exact Hn | repeat constructor; intros [] |].
    intros x Hx [<-|[]].
    apply existsb_text_eqb in Hx. congruence.
  - clear Hn. induction Hf as [|[k' x] d Hx Hf IH]; cbn [dict_set].
    + constructor; [|constructor]. cbn [fst snd]. split; [exact Hk|].
      now exists l.
    + destruct (text_eqb k' k); constructor; try assumption.
      cbn [fst snd] in *. split; [tauto|]. now exists l.
Qed.

(** X28: labels survive a restart.  Starting from a label store as the
    program builds it (the empty one when no label file exists), labelling
    a file with a non-empty label gives again such a store, and the text
    written to the label file on lines 82-83 is read back on lines 23-25
    as exactly that store: same files, same labels, same order. *)
Theorem labels_survive_restart (float_repr : text -> text)
    (d : list (text * json)) (filename version_label : text) :
  label_store d -> unicode_text filename -> unicode_text version_label ->
  version_label <> [] ->
  exists d' written,
    set_label float_repr (JDict d) filename version_label
    = Ok (JDict d', Some written)
    /\ label_store d'
    /\ load_labels (Some written) = Ok (JDict d')
    /\ load_labels None = Ok (JDict [])
    /\ label_store [].
Proof.
  intros Hd Hf Hl Hne. unfold set_label.
  destruct version_label as [|c l]; [congruence|]. cbn [nonempty].
  eexists _, _. split; [reflexivity|].
  pose proof (label_store_set d filename (c :: l) Hd Hf Hl) as Hd'.
  split; [exact Hd'|]. split; [now apply loads_dumps_indent2|].
  split; [reflexivity|]. split; constructor.
Qed.

Lemma labels_survive_restart_witness :
  exists d' written,
    set_label (fun x => x) (JDict [(str "a.jsonl", JStr (str "v1"))])
      (str "b.jsonl") (str "v2 " ++ [quote; 0xE9; quote])
    = Ok (JDict d', Some written)
    /\ label_store d'
    /\ load_labels (Some written) = Ok (JDict d').
Proof.
  destruct (labels_survive_restart (fun x => x)
              [(str "a.jsonl", JStr (str "v1"))] (str "b.jsonl")
              (str "v2 " ++ [quote; 0xE9; quote]))
    as (d' & written & E & S & L & _).
  - split; [repeat constructor; simpl; tauto|].
    repeat constructor. now exists (str "v1").
  - reflexivity.
  - reflexivity.
  - discriminate.
  - now exists d', written.
Defined.

(** ** Export of the matches *)

Lemma dumps_json_record (float_repr : text -> text) (r : Record_) :
  dumps_json float_repr (to_json r) = dumps r.
Proof.
  destruct r as [p q t]. unfold dumps_json, to_json, dumps, dumps_dict.
  cbn [record_items List.map fst snd encode_json join prompt response tag].
  unfold newline_indent, item_separator.
  change (str "{") with [0x7B]. change (str "}") with [0x7D].
  repeat (progress (rewrite <- ?app_assoc; cbn [app])). reflexivity.
Qed.

Lemma comparison_data_records (float_repr : text -> text)
    (rs : list Record_) :
  comparison_data float_repr (List.map to_json rs) = jsonl_data rs.
Proof.
  unfold comparison_data, jsonl_data. f_equal. rewrite List.map_map.
  apply List.map_ext. apply dumps_json_record.
Qed.

Lemma compare_loaded_no_dict (U : UnicodeData) (version_labels : json)
    (v1 v2 kw tf : text) (rs1 rs2 : list Record_) :
  (forall labels, version_labels <> JDict labels) ->
  compare_loaded U version_labels v1 v2 kw tf (List.map to_json rs1)
    (List.map to_json rs2)
  = Failed AttributeError.
Proof.
  intro H. unfold compare_loaded. rewrite !filterM_records.
  unfold show_file, label_of.
  destruct version_labels; try reflexivity. now destruct (H d).
Qed.

(** X29: the export is a dataset file.  After a comparison of two files
    that hold records, a download is offered exactly when some record
    matched and the label store is a dict, and its content is the matches
    of the first file followed by those of the second, written in the
    format of an upload: one [json.dumps] line per record, so that read as
    a dataset it loads back to exactly the matches. *)
Theorem export_is_a_dataset (float_repr : text -> text) (U : UnicodeData)
    (version_labels : json) (kw tf : text) (rs1 rs2 : list Record_)
    (v1 v2 stamp : text) :
  Forall unicode_record (rs1 ++ rs2) ->
  let o := compare_loaded U version_labels v1 v2 kw tf
             (List.map to_json rs1) (List.map to_json rs2) in
  let kept := List.filter (keeps U kw tf) rs1
              ++ List.filter (keeps U kw tf) rs2 in
  (export float_repr o v1 v2 stamp = None
   <-> kept = [] \/ forall labels, version_labels <> JDict labels)
  /\ forall name data,
       export float_repr o v1 v2 stamp = Some (name, data) ->
       name = comparison_filename v1 v2 stamp
       /\ data = jsonl_data kept
       /\ mapM loads (readlines data) = Ok (List.map to_json kept).
Proof.
  intros Hu o kept. subst o kept.
  assert (Hd : (exists labels, version_labels = JDict labels)
               \/ forall labels, version_labels <> JDict labels).
  { destruct version_labels; try (right; discriminate). left. now eexists. }
  destruct Hd as [[labels ->]|Hd].
  2:{ rewrite compare_loaded_no_dict by exact Hd. cbn [export].
      split; [split; [now right | reflexivity] | discriminate]. }
  rewrite compare_loaded_records.
  set (kept := List.filter (keeps U kw tf) rs1
               ++ List.filter (keeps U kw tf) rs2).
  assert (Hk : Forall unicode_record kept).
  { apply List.Forall_forall. intros r Hr.
    rewrite List.Forall_forall in Hu. apply Hu.
    unfold kept in Hr. rewrite in_app_iff, !List.filter_In in Hr.
    rewrite in_app_iff. tauto. }
  clearbody kept. destruct kept as [|r kept'].
  - split; [split; [now left | reflexivity] | discriminate].
  - split.
    + split; [discriminate|]. intros [H|H]; [discriminate|].
      now destruct (H labels).
    + cbn [List.map export]. intros name data [= <- <-].
      change (to_json r :: List.map to_json kept')
        with (List.map to_json (r :: kept')).
      rewrite comparison_data_records.
      split; [reflexivity|]. split; [reflexivity|]. now apply load_jsonl.
Qed.

Lemma export_is_a_dataset_witness :
  exists name data,
    export (fun x => x)
      (compare_loaded ascii_only (JDict [])
         (str "a_20240101_000000.jsonl") (str "b_20240101_000000.jsonl")
         (str "sad") []
         (List.map to_json [mkRecord (str "So SAD") (str "ok") (str "t")])
         (List.map to_json [mkRecord (str "fine") (str "ok") (str "t")]))
      (str "a_20240101_000000.jsonl") (str "b_20240101_000000.jsonl")
      (str "20240102_000000")
    = Some (name, data)
    /\ name = str "comparison_a_20240101_vs_b_20240101_20240102_000000.jsonl"
    /\ data = jsonl_data [mkRecord (str "So SAD") (str "ok") (str "t")]
    /\ mapM loads (readlines data)
       = Ok (List.map to_json [mkRecord (str "So SAD") (str "ok") (str "t")]).
Proof.
  eexists _, _. split; [reflexivity|].
  apply (proj2 (export_is_a_dataset (fun x => x) ascii_only (JDict [])
                  (str "sad") []
                  [mkRecord (str "So SAD") (str "ok") (str "t")]
                  [mkRecord (str "fine") (str "ok") (str "t")]
                  (str "a_20240101_000000.jsonl")
                  (str "b_20240101_000000.jsonl")
                  (str "20240102_000000")
                  ltac:(repeat constructor))).
  reflexivity.
Defined.
